(** * TILER area reservation: a model of tiler-reserve.c

    The packing planners ([tiler_best2pack], [nv12_separate], the NV12
    pattern generators and [nv12_together]) are pure integer functions;
    they are embedded as functions on [Z] with the C conversions written
    out.  The reservation entry points ([reserve_nv12], [reserve_blocks])
    drive an external allocator through the [tiler_ops] table; they are
    embedded as state-passing functions over an arbitrary allocator. *)

From Stdlib Require Import ZArith List Lia Bool.
Import ListNotations.
Local Open Scope Z_scope.

(** ** Machine integers

    [u8], [u16], [u32] are the conversions to the unsigned types of the
    source; [s32] is the conversion to [int].  The kernel is built so
    that [int] arithmetic wraps, which [iadd], [isub] and [imul] spell
    out.  C division truncates towards zero ([Z.quot], [Z.rem]) and
    traps on a zero divisor, which is modelled by [None]. *)

Definition u8 (x : Z) : Z := x mod 256.
Definition u16 (x : Z) : Z := x mod 65536.
Definition u32 (x : Z) : Z := x mod 4294967296.
Definition s32 (x : Z) : Z := (x + 2147483648) mod 4294967296 - 2147483648.

Definition iadd (x y : Z) : Z := s32 (x + y).
Definition isub (x y : Z) : Z := s32 (x - y).
Definition imul (x y : Z) : Z := s32 (x * y).

Definition idiv (x y : Z) : option Z :=
  if y =? 0 then None else Some (Z.quot x y).

Definition bind {A B : Type} (x : option A) (f : A -> option B) : option B :=
  match x with
  | Some a => f a
  | None => None
  end.

Notation "x <- e ;; k" := (bind e (fun x => k))
  (at level 61, e at next level, right associativity).
Notation "' p <- e ;; k" := (bind e (fun x => match x with p => k end))
  (at level 61, p pattern, e at next level, right associativity).

(** ** Kernel macros and constants used by the file *)

(** Modelled from the spec: the macro [ALIGN] of the kernel headers,
    which are not part of the sources under study.  It is the mask form
    [(x + (a - 1)) & ~(a - 1)]; for a power of two [a] it rounds [x] up
    to a multiple of [a], which is how the spec words it (lemma
    [ALIGN_pow2] below). *)
Definition ALIGN (x a : Z) : Z := Z.land (x + (a - 1)) (Z.lnot (a - 1)).

(** The rounding down of the comment in [tiler_best2pack]. *)
Definition trim (x a : Z) : Z := Z.land x (Z.lnot (a - 1)).

(** Modelled from the spec: [DIV_ROUND_UP(n, d)] is [(n + d - 1) / d]. *)
Definition DIV_ROUND_UP (n d : Z) : option Z := idiv (n + d - 1) d.

(** Modelled from the spec: the macros [MIN] and [MAX] of the driver's
    headers, [((a) < (b) ? (a) : (b))] and [((a) > (b) ? (a) : (b))];
    the kernel's [min] is [Z.min]. *)
Definition MIN (x y : Z) : Z := if x <? y then x else y.
Definition MAX (x y : Z) : Z := if y <? x then x else y.

(** Modelled from the spec: the page size, 4K ("all blocks get 4K
    stride"). *)
Definition PAGE_SIZE : Z := 4096.

(** Modelled from the spec: the two bands are set once by
    [tiler_reserve_init] from the geometry of the allocator; the
    generators pack "into a 64-slot area" and the largest slot width is
    "128 bytes", that is [PAGE_SIZE / 32]. *)
Definition band_8 : Z := 64.
Definition band_16 : Z := 32.

(** Modelled from the spec: the values of [enum tiler_fmt]. *)
Definition TILFMT_8BIT : Z := 0.
Definition TILFMT_16BIT : Z := 1.
Definition TILFMT_32BIT : Z := 2.

(** ** nv12_eff *)

Definition nv12_eff (n w area n_need : Z) : option Z :=
  d <- DIV_ROUND_UP n_need n ;;
  q <- idiv (imul (imul 1024 n) (Z.shiftr (w * 3 + 1) 1)) area ;;
  Some (u32 (iadd (isub 268435456 (imul (imul d area) 32)) q)).

(** ** tiler_best2pack

    [ops_width] is [ops->width], the width of the container.  The
    pointer [area] may be null in the source, in which case the value
    tracked here is simply not stored; the model returns the triple
    (return value, [*n], [*area]). *)

Section Container.

Variable ops_width : Z.

(** The [while] loop.  [m] counts up to [max_n], so [fuel] is given as
    [max_n]: the case [O] is the test [m < max_n] failing. *)
Fixpoint best2pack_loop (fuel : nat) (o w e b max_n stride : Z)
    (m ar best_eff n area : Z) : option (Z * Z * Z) :=
  match fuel with
  | O => Some (best_eff, n, area)
  | S fuel' =>
    if (m <? max_n)
       && (iadd (iadd o (imul m e)) w <=? ops_width)
       && (stride =? ALIGN (isub (isub ar o) (imul m e)) b)
    then
      let m := u16 (m + 1) in
      q <- idiv (imul (imul m w) 1024) ar ;;
      let eff := u32 q in
      let '(best_eff, n, area) :=
        if best_eff <? eff then (eff, m, ar) else (best_eff, n, area) in
      let ar := u16 (ALIGN (iadd (iadd o (imul m e)) w) b) in
      best2pack_loop fuel' o w e b max_n stride m ar best_eff n area
    else Some (best_eff, n, area)
  end.

Definition tiler_best2pack (o w e b n area : Z) : option (Z * Z * Z) :=
  let max_n := n in
  let stride := u16 (ALIGN (o + w) b) in
  best2pack_loop (Z.to_nat max_n) o w e b max_n stride 0 stride 0 n area.

(** ** nv12_separate

    [area] is the content of the caller's variable on entry (it is not
    initialised by the caller).  Returns the count and [*area]. *)
Definition nv12_separate (o w a n area : Z) : option (Z * Z) :=
  '(_, n, area) <- tiler_best2pack o w (u16 (ALIGN w a)) (u16 band_8) n area ;;
  '(_, n, area) <- tiler_best2pack (Z.quot o 2) (Z.quot (w + 1) 2)
                        (u16 (Z.quot (ALIGN w a) 2)) (u16 band_16) n area ;;
  Some (n, u16 (area * 3)).

End Container.

(** ** The pattern generators

    A generator returns its count, [*area] and the bytes it stored
    through [p], in order; the cells of the buffer after them keep their
    former contents.  [irem] is [%], which traps on a zero divisor. *)

Definition irem (x y : Z) : option Z :=
  if y =? 0 then None else Some (Z.rem x y).

(** Inner loop of [nv12_A], "pack until upper bound".  It adds one to
    [m] on each round, so [fuel] is given as [n]. *)
Fixpoint nv12_A_pack (fuel : nat) (o w a area u n : Z)
    (x l m : Z) (p : list Z) : Z * Z * Z * list Z :=
  match fuel with
  | O => (x, l, m, p)
  | S fuel' =>
    if (x + w <=? u) && (m <? n) then
      let p := p ++ [u8 x; u8 l] in
      let l := u16 (Z.shiftr (area + x + w + 1) 1) in
      let x := u16 (ALIGN (x + w - o) a + o) in
      nv12_A_pack fuel' o w a area u n x l (u16 (m + 1)) p
    else (x, l, m, p)
  end.

(** Outer loop of [nv12_A].  [None]: the loop did not finish within
    [fuel] rounds. *)
Fixpoint nv12_A_loop (fuel : nat) (o w a area n : Z)
    (x m : Z) (p : list Z) : option (Z * list Z) :=
  match fuel with
  | O => None
  | S fuel' =>
    if (x + w <? area) && (m <? n) then
      let u := u16 (Z.shiftr (area + x) 1) in
      let '(x, l, m, p) :=
        nv12_A_pack (Z.to_nat n) o w a area u n x u m p in
      let x := u16 (ALIGN (l - o) a + o) in
      nv12_A_loop fuel' o w a area n x m p
    else Some (m, p)
  end.

(** With a power-of-two alignment every round of the outer loop moves
    [x] up, and the loop runs only while [x + w < area]: [area + 1]
    rounds are enough (lemma [nv12_A_contained]). *)
Definition nv12_A (o w a n : Z) : option (Z * Z * list Z) :=
  let area := u16 band_8 in
  '(m, p) <- nv12_A_loop (S (Z.to_nat area)) o w a area n o 0 [] ;;
  Some (m, area, p).

(** The reflection loop of [nv12_revA] over the [n] pairs stored by
    [nv12_A]. *)
Fixpoint reverse_packing (fuel : nat) (area w : Z) (p : list Z) : list Z :=
  match fuel, p with
  | S fuel', x :: l :: p' =>
    u8 (area - x - w) :: u8 (area - l - Z.shiftr (w + 1) 1)
      :: reverse_packing fuel' area w p'
  | _, _ => p
  end.

Definition nv12_revA (o w a n : Z) : option (Z * Z * list Z) :=
  r <- irem (o + w) a ;;
  r <- irem (a - r) a ;;
  '(n, area, p) <- nv12_A (u16 r) w a n ;;
  let n := u16 n in
  Some (n, area, reverse_packing (Z.to_nat n) area w p).

Fixpoint nv12_B_loop (fuel : nat) (w a area n : Z)
    (o m : Z) (p : list Z) : Z * list Z :=
  match fuel with
  | O => (m, p)
  | S fuel' =>
    if (o + w <=? area) && (m <? n) then
      nv12_B_loop fuel' w a area n (u16 (o + a)) (u16 (m + 1))
        (p ++ [u8 o; u8 (Z.shiftr o 1)])
    else (m, p)
  end.

Definition nv12_B (o w a n : Z) : option (Z * Z * list Z) :=
  e <- irem (o + w) a ;;
  o1 <- irem (Z.shiftr o 1) a ;;
  e1 <- irem (Z.shiftr (o + w + 1) 1) a ;;
  let e := u16 e in
  let o1 := u16 o1 in
  let e1 := u16 e1 in
  let o2 := u16 (o1 + Z.shiftr a 2) in
  let e2 := u16 (e1 + Z.shiftr a 2) in
  let area := u16 band_8 in
  if (w <? a) && (o <? e) && (e1 <=? o) && ((e2 <=? o) || (e <=? o2)) then
    let '(m, p) := nv12_B_loop (Z.to_nat n) w a area n o 0 [] in
    Some (m, area, p)
  else Some (0, area, []).

(** The [for] loop of [nv12_C]; [i] goes up by one on each round and
    stays below [m], so [fuel] is given as [m]. *)
Fixpoint nv12_C_loop (fuel : nat) (o w e area o2 n m : Z)
    (i j : Z) (p : list Z) : Z * list Z :=
  match fuel with
  | O => (j, p)
  | S fuel' =>
    if (i <? m) && (j <? n) then
      let x := iadd o (imul i e) in
      let p := p ++ [u8 x; u8 (Z.shiftr (iadd x area) 1)] in
      let j := u16 (j + 1) in
      let p :=
        if j <? n then
          let y := isub (isub o2 (imul i e)) w in
          p ++ [u8 y; u8 (Z.shiftr y 1)]
        else p in
      nv12_C_loop fuel' o w e area o2 n m (u16 (i + 1)) (u16 (j + 1)) p
    else (j, p)
  end.

Definition nv12_C (o w a n : Z) : option (Z * Z * list Z) :=
  let e := u16 (ALIGN w a) in
  let area := u16 band_8 in
  r <- irem (o + w) a ;;
  r <- irem (a - r) a ;;
  let o2 := u16 (area - r) in
  q <- idiv (Z.quot (Z.min (o2 - 2 * o) (2 * o2 - o - area)) 3 - w) e ;;
  let m := q + 1 in
  let '(j, p) := nv12_C_loop (Z.to_nat m) o w e area o2 n m 0 0 [] in
  Some (j, area, p).

(** The [for] loop of [nv12_D].  Inside the loop [d] is below
    [band_8], so with a nonzero [a] it leaves after at most [band_8]
    rounds; [None]: the loop did not finish within [fuel] rounds. *)
Fixpoint nv12_D_loop (fuel : nat) (o w a area n : Z) (d : Z)
    : option (Z * list Z) :=
  match fuel with
  | O => None
  | S fuel' =>
    if (0 <? n) && (d + o + w <=? area) then
      let w1 := Z.shiftr (w + 1) 1 in
      let o1 := Z.shiftr (Z.rem (o + d) band_8) 1 in
      if o1 + w1 <=? o + d then Some (1, [u8 (o + d); u8 o1])
      else
        let o1 := u16 (o1 + ALIGN (d + o + w - o1) band_16) in
        if o1 + w1 <=? area then Some (1, [u8 o; u8 o1])
        else nv12_D_loop fuel' o w a area n (u16 (d + a))
    else Some (0, [])
  end.

Definition nv12_D (o w a n : Z) : option (Z * Z * list Z) :=
  let area := u16 (ALIGN (o + w) band_8) in
  '(m, p) <- nv12_D_loop (S (Z.to_nat band_8)) o w a area n 0 ;;
  Some (m, area, p).

(** ** nv12_together *)

Definition packings : list Z :=
  [ 9; 2; 4; 4; 64;
      2; 33; 6; 35; 10; 37; 14; 39; 18; 41;
      46; 23; 50; 25; 54; 27; 58; 29;
    3; 0; 12; 4; 64;
      0; 32; 12; 38; 48; 24;
    0 ].

(** "traverse any special packings": [p] is the part of the table from
    the cursor on.  Every round moves the cursor forward, so [fuel] is
    given as the length of the table. *)
Fixpoint special_packings (fuel : nat) (o w a n : Z) (p : list Z)
    (n_best area : Z) (p_best : option (list Z))
    : Z * Z * option (list Z) :=
  match fuel, p with
  | S fuel', n2 :: o_ :: w_ :: a_ :: p' =>
    if n2 =? 0 then (n_best, area, p_best)
    else if n2 <? n_best then (n_best, area, p_best)
    else if (a <=? a_) && (o + w + ALIGN (o_ - o) a <=? o_ + w_) then
      match p' with
      | ar :: p'' => (Z.min n2 n, ar, Some p'')
      | [] => (n_best, area, p_best)
      end
    else
      special_packings fuel' o w a n (skipn (Z.to_nat (1 + n2 * 2)) p')
        n_best area p_best
  | _, _ => (n_best, area, p_best)
  end.

(** A local array after a generator stored [p] in it: the cells after
    [p] hold whatever the stack held ([stack]). *)
Definition local_array (stack p : list Z) : list Z :=
  p ++ skipn (length p) stack.

(** [memcpy(dst, src, len)]. *)
Definition memcpy (dst src : list Z) (len : Z) : list Z :=
  firstn (Z.to_nat len) src ++ skipn (Z.to_nat len) dst.

(** One of the blocks "if (n_best < n) { n2 = gen(...); if (n2 > n_best)
    ... }": the generator is called only when the count is still short,
    and its result is taken only when it is greater. *)
Definition try_generator (gen : Z -> Z -> Z -> Z -> option (Z * Z * list Z))
    (stack : list Z) (o w a n : Z) (cur : Z * Z * option (list Z))
    : option (Z * Z * option (list Z)) :=
  let '(n_best, area, p_best) := cur in
  if n_best <? n then
    '(n2, area, p) <- gen o w a n ;;
    let n2 := u16 n2 in
    if n_best <? n2 then Some (n2, area, Some (local_array stack p))
    else Some (n_best, area, p_best)
  else Some cur.

(** Returns the count, [*area] and the contents of [packing]. *)
Definition nv12_together (stack : list Z) (o w a n area : Z)
    (packing : list Z) : option (Z * Z * list Z) :=
  '(n_best, area, p) <- nv12_A o w a n ;;
  let cur := (u16 n_best, area, Some (local_array stack p)) in
  cur <- try_generator nv12_revA stack o w a n cur ;;
  cur <- try_generator nv12_B stack o w a n cur ;;
  cur <- try_generator nv12_C stack o w a n cur ;;
  let '(n_best, area, p_best) := cur in
  let '(n_best, area, p_best) :=
    special_packings (length packings) o w a n packings n_best area p_best in
  '(n_best, area, p_best) <-
    (if n_best =? 0 then
       '(m, area, _) <- nv12_D o w a n ;; Some (u16 m, area, None)
     else Some (n_best, area, p_best)) ;;
  match p_best with
  | Some src =>
    if n_best =? 0 then Some (n_best, area, packing)
    else Some (n_best, area, memcpy packing src (n_best * 2))
  | None => Some (n_best, area, packing)
  end.

(** ** The allocator behind [ops]

    The reservation functions reach the allocator only through the
    table [ops].  Its operations are taken as arbitrary functions of a
    private allocator state [St]; [Blk] is a reserved block.  The two
    lists the source hands to the allocator are kept in the model: the
    local list [reserved] of [reserve_nv12] and the list [gi->reserved]
    of the group. *)

Inductive list_id : Type :=
| L_reserved   (* the local, temporary list *)
| L_gi         (* gi->reserved *).

Inductive event : Type :=
| Ev_geom (fmt : Z)
| Ev_analize (fmt width height a o : Z)
| Ev_get_gi (gid : Z)
| Ev_lay_2d (fmt n w h band a o : Z) (pos : list_id) (res : Z)
| Ev_lay_nv12 (n area w h : Z) (packing : list Z) (res : Z)
| Ev_release (l : list_id)
| Ev_add_reserved
| Ev_release_gi.

Section Allocator.

Variables St Blk : Type.

(** Modelled from the spec: the collaborator operations of §6.
    [analize] returns its status and the slot values [(w, h, band, a, o)];
    [get_gi] tells whether a group context was found; [lay_2d] and
    [lay_nv12] return their result and the blocks they put on the list
    they were given. *)
Record tiler_ops : Type := {
  width : Z;
  height : Z;
  geom : Z -> Z * Z;
  analize : Z -> Z -> Z -> Z -> Z -> St -> Z * (Z * Z * Z * Z * Z) * St;
  get_gi : Z -> St -> bool * St;
  lay_2d : Z -> Z -> Z -> Z -> Z -> Z -> Z -> St -> Z * list Blk * St;
  lay_nv12 : Z -> Z -> Z -> Z -> list Z -> St -> Z * list Blk * St;
  release : list Blk -> St -> St;
  release_gi : St -> St
}.

Record world : Type := {
  alloc : St;
  reserved : list Blk;
  gi_reserved : list Blk;
  trace : list event
}.

Variable ops : tiler_ops.

Definition log (ev : event) (s : world) : world :=
  {| alloc := alloc s; reserved := reserved s;
     gi_reserved := gi_reserved s; trace := trace s ++ [ev] |}.

Definition get_list (l : list_id) (s : world) : list Blk :=
  match l with
  | L_reserved => reserved s
  | L_gi => gi_reserved s
  end.

Definition set_list (l : list_id) (bs : list Blk) (s : world) : world :=
  match l with
  | L_reserved =>
    {| alloc := alloc s; reserved := bs;
       gi_reserved := gi_reserved s; trace := trace s |}
  | L_gi =>
    {| alloc := alloc s; reserved := reserved s;
       gi_reserved := bs; trace := trace s |}
  end.

Definition set_alloc (st : St) (s : world) : world :=
  {| alloc := st; reserved := reserved s;
     gi_reserved := gi_reserved s; trace := trace s |}.

Definition do_analize (fmt wd ht a o : Z) (s : world)
    : Z * (Z * Z * Z * Z * Z) * world :=
  let '(r, out, st) := analize ops fmt wd ht a o (alloc s) in
  (r, out, log (Ev_analize fmt wd ht a o) (set_alloc st s)).

Definition do_get_gi (gid : Z) (s : world) : bool * world :=
  let '(found, st) := get_gi ops gid (alloc s) in
  (found, log (Ev_get_gi gid) (set_alloc st s)).

Definition do_lay_2d (fmt n w h band a o : Z) (pos : list_id) (s : world)
    : Z * world :=
  let '(r, bs, st) := lay_2d ops fmt n w h band a o (alloc s) in
  (r, log (Ev_lay_2d fmt n w h band a o pos r)
        (set_list pos (bs ++ get_list pos s) (set_alloc st s))).

(** [lay_nv12] puts its blocks on [gi->reserved]. *)
Definition do_lay_nv12 (n area w h : Z) (packing : list Z) (s : world)
    : Z * world :=
  let '(r, bs, st) := lay_nv12 ops n area w h packing (alloc s) in
  (r, log (Ev_lay_nv12 n area w h packing r)
        (set_list L_gi (bs ++ gi_reserved s) (set_alloc st s))).

(** Modelled from the spec: [release] frees every block of the list and
    leaves it empty. *)
Definition do_release (l : list_id) (s : world) : world :=
  log (Ev_release l)
    (set_list l [] (set_alloc (release ops (get_list l s) (alloc s)) s)).

(** Modelled from the spec: [add_reserved] moves the blocks of the
    local list to [gi->reserved] and leaves the local list empty. *)
Definition do_add_reserved (s : world) : world :=
  log Ev_add_reserved
    (set_list L_reserved [] (set_list L_gi (reserved s ++ gi_reserved s) s)).

Definition do_release_gi (s : world) : world :=
  log Ev_release_gi (set_alloc (release_gi ops (alloc s)) s).

(** How a call ends: it returns, or a planner did not give a result
    (a division trapped, or a generator loop did not finish), or the
    reservation loop itself was still running when [fuel] ran out. *)
Inductive outcome : Type :=
| Returned (s : world)
| Stuck (s : world)
| OutOfFuel.

(** *** reserve_nv12 *)

(** The local variables of [reserve_nv12] that live across the rounds
    of its loop and are not initialised: [area_s], [area_t], [packing]. *)
Record nv12_locals : Type := {
  area_s : Z;
  area_t : Z;
  packing : list Z
}.

(** "reserve blocks separately into a temporary list, so that we can
    free them if unsuccessful". *)
Definition separate_commit (n_s w h band a o : Z) (s : world) : Z * world :=
  let '(res, s) := do_lay_2d TILFMT_8BIT n_s w h band a o L_reserved s in
  let '(res2, s) :=
    if res <? 0 then (res, s)
    else do_lay_2d TILFMT_16BIT n_s (Z.quot (w + 1) 2) h
           (Z.quot band 2) (Z.quot a 2) (Z.quot o 2) L_reserved s in
  if (res2 <? 0) || negb (res =? res2) then (-1, do_release L_reserved s)
  else (res, do_add_reserved s).

(** One round of the loop of [reserve_nv12]: the new [res], the locals
    and the world; [None] when a planner gave no result. *)
Definition nv12_round (stack : list Z) (can_together : bool)
    (n i w h band a o : Z) (loc : nv12_locals) (s : world)
    : option (Z * nv12_locals * world) :=
  let need := u16 (u32 (n - i)) in
  '(n_s, area_s) <- nv12_separate (width ops) o w a need (area_s loc) ;;
  '(n_t, area_t, packing) <-
    (if can_together
     then nv12_together stack o w a need (area_t loc) (packing loc)
     else Some (0, area_t loc, packing loc)) ;;
  let loc := {| area_s := area_s; area_t := area_t; packing := packing |} in
  separately <-
    (if negb can_together then Some true
     else
       eff_s <- nv12_eff n_s w area_s need ;;
       eff_t <- nv12_eff n_t w area_t need ;;
       Some (eff_t <? eff_s)) ;;
  let '(res, s) :=
    if (separately : bool) then separate_commit n_s w h band a o s
    else (-1, s) in
  let '(res, s) :=
    if (res <? 0) && can_together && negb (n_t =? 0)
    then do_lay_nv12 n_t area_t w h packing s
    else (res, s) in
  Some (res, loc, s).

(** "for (i = 0; i < n && res >= 0; i += res)": [i] and [res] are
    [int], [n] is [u32]. *)
Fixpoint nv12_loop (fuel : nat) (stack : list Z) (can_together : bool)
    (n w h band a o : Z) (i res : Z) (loc : nv12_locals) (s : world)
    : outcome :=
  match fuel with
  | O => OutOfFuel
  | S fuel' =>
    if (u32 i <? n) && (0 <=? res) then
      match nv12_round stack can_together n i w h band a o loc s with
      | None => Stuck s
      | Some (res, loc, s) =>
        nv12_loop fuel' stack can_together n w h band a o
          (iadd i res) res loc s
      end
    else Returned (do_release_gi s)
  end.

(** The test at the head of [reserve_nv12]: [true] when the request is
    turned down. *)
Definition nv12_rejects (n wd ht align offs : Z) : bool :=
  (wd =? 0) || (ht =? 0) || (n =? 0)
  || (align <=? offs) || negb (Z.land offs 1 =? 0)
  || (PAGE_SIZE <=? align)
  || (Z.quot (u32 (width ops * height ops)) 2 <? n).

Definition reserve_nv12 (fuel : nat) (stack : list Z) (loc : nv12_locals)
    (n wd ht align offs gid : Z) (can_together : bool) (s : world)
    : outcome :=
  let a := u16 align in
  let o := u16 offs in
  let a := u16 (MAX (Z.quot PAGE_SIZE (MIN band_8 band_16)) a) in
  if nv12_rejects n wd ht align offs then Returned s
  else
    let '(r, (w, h, band, a, o), s) := do_analize TILFMT_8BIT wd ht a o s in
    if negb (r =? 0) then Returned s
    else
      let '(found, s) := do_get_gi gid s in
      if negb found then Returned s
      else nv12_loop fuel stack can_together n w h band a o 0 0 loc s.

(** *** reserve_blocks *)

(** "while (n_try > 1)": [res] is [u32] in this function, which is what
    the test [res >= 0] looks at.  [n_try] goes down by one on each
    round, so [fuel] is given as [n_try]. *)
Fixpoint blocks_try (fuel : nat) (fmt w h band a o : Z)
    (n_try res : Z) (s : world) : Z * world :=
  match fuel with
  | O => (res, s)
  | S fuel' =>
    if 1 <? n_try then
      let '(r, s) := do_lay_2d fmt n_try w h band a o L_gi s in
      let res := u32 r in
      if 0 <=? res then (res, s)
      else blocks_try fuel' fmt w h band a o (u16 (n_try - 1)) res s
    else (res, s)
  end.

(** "for (i = 0; i < n && res >= 0; i += res)": [i], [res] and [n] are
    all [u32] here. *)
Fixpoint blocks_loop (fuel : nat) (fmt n offs w h band a o e : Z)
    (i res : Z) (s : world) : outcome :=
  match fuel with
  | O => OutOfFuel
  | S fuel' =>
    if (i <? n) && (0 <=? res) then
      let n_try := u16 (MIN (u32 (n - i)) (width ops)) in
      match tiler_best2pack (width ops) (u16 offs) w e band n_try 0 with
      | None => Stuck s
      | Some (_, n_try, _) =>
        let '(res, s) :=
          blocks_try (Z.to_nat n_try) fmt w h band a o n_try (u32 (-1)) s in
        blocks_loop fuel' fmt n offs w h band a o e (u32 (i + res)) res s
      end
    else Returned (do_release_gi s)
  end.

(** The first test of [reserve_blocks]: [true] when the request is
    turned down before anything is asked of the allocator. *)
Definition blocks_rejects (n fmt wd ht align offs : Z) : bool :=
  (wd =? 0) || (ht =? 0) || (n =? 0)
  || (PAGE_SIZE <? align) || (align <=? offs)
  || (fmt <? TILFMT_8BIT) || (TILFMT_32BIT <? fmt).

Definition reserve_blocks (fuel : nat) (n fmt wd ht align offs gid : Z)
    (s : world) : outcome :=
  let o := u16 offs in
  let a := u16 align in
  if blocks_rejects n fmt wd ht align offs then Returned s
  else
    let '(_, bpp) := geom ops fmt in
    let s := log (Ev_geom fmt) s in
    if u32 (u32 (wd * bpp) * 2) <=? PAGE_SIZE then Returned s
    else
      let '(r, (w, h, band, a, o), s) := do_analize fmt wd ht a o s in
      if negb (r =? 0) then Returned s
      else
        let '(found, s) := do_get_gi gid s in
        if negb found then Returned s
        else
          let e := u16 (ALIGN w a) in
          blocks_loop fuel fmt n offs w h band a o e 0 0 s.

End Allocator.

Arguments Returned {St Blk} s.
Arguments Stuck {St Blk} s.
Arguments OutOfFuel {St Blk}.
Arguments Build_world {St Blk}.
Arguments Build_tiler_ops {St Blk}.
Arguments width {St Blk}.
Arguments height {St Blk}.
Arguments geom {St Blk}.
Arguments analize {St Blk}.
Arguments get_gi {St Blk}.
Arguments lay_2d {St Blk}.
Arguments lay_nv12 {St Blk}.
Arguments release {St Blk}.
Arguments release_gi {St Blk}.
Arguments alloc {St Blk}.
Arguments reserved {St Blk}.
Arguments gi_reserved {St Blk}.
Arguments trace {St Blk}.
Arguments log {St Blk}.
Arguments get_list {St Blk}.
Arguments set_list {St Blk}.
Arguments set_alloc {St Blk}.
Arguments do_analize {St Blk}.
Arguments do_get_gi {St Blk}.
Arguments do_lay_2d {St Blk}.
Arguments do_lay_nv12 {St Blk}.
Arguments do_release {St Blk}.
Arguments do_add_reserved {St Blk}.
Arguments do_release_gi {St Blk}.
Arguments separate_commit {St Blk}.
Arguments nv12_round {St Blk}.
Arguments nv12_loop {St Blk}.
Arguments nv12_rejects {St Blk}.
Arguments reserve_nv12 {St Blk}.
Arguments blocks_try {St Blk}.
Arguments blocks_loop {St Blk}.
Arguments reserve_blocks {St Blk}.

(** ** Runs of blocks

    The closed forms the loop of [tiler_best2pack] works with.  Block
    [k] of a run starts at [o + k * e].  Its stride is, in the words of
    the comment in the source, [align(o + k * e + w, b) - trim(o + k * e,
    b)]; the area of a run of [m] blocks is the aligned end of its last
    block, and [run_eff] is the value [eff] takes for it. *)

Definition block_stride (o w e b k : Z) : Z :=
  ALIGN (o + k * e + w) b - trim (o + k * e) b.

Definition block_ok (ops_width o w e b k : Z) : bool :=
  (o + k * e + w <=? ops_width)
  && (block_stride o w e b k =? ALIGN (o + w) b).

Definition valid_run (ops_width o w e b m : Z) : Prop :=
  forall k, 0 <= k < m -> block_ok ops_width o w e b k = true.

Definition valid_run_b (ops_width o w e b : Z) (m : nat) : bool :=
  forallb (fun k => block_ok ops_width o w e b (Z.of_nat k)) (seq 0 m).

Definition run_area (o w e b m : Z) : Z := ALIGN (o + (m - 1) * e + w) b.

Definition run_eff (o w e b m : Z) : Z :=
  Z.quot (m * w * 1024) (run_area o w e b m).

(** What the scan holds after [m] blocks, started with the count [n0]
    and the area [area0]: [best] bounds the efficiency of every run
    seen, and either nothing was stored or [n], [area] describe the
    first run that reaches [best]. *)
Definition best_so_far (o w e b n0 area0 m best n area : Z) : Prop :=
  (forall k, 1 <= k <= m -> run_eff o w e b k <= best) /\
  ((best = 0 /\ n = n0 /\ area = area0) \/
   (0 < best /\ 1 <= n <= m /\ best = run_eff o w e b n /\
    area = run_area o w e b n /\
    forall k, 1 <= k < n -> run_eff o w e b k < best)).

(** The row stride of a run of [m] blocks in the words of the spec,
    [align(o + (m - 1) * e + w, b)]: it is the area of the run. *)
Definition row_stride (o w e b m : Z) : Z := ALIGN (o + (m - 1) * e + w) b.

(** [m] is the first run length, among the valid ones from 1 to the
    bound [n], whose efficiency is the greatest. *)
Definition first_best (ops_width o w e b n m : Z) : Prop :=
  1 <= m <= n /\ valid_run ops_width o w e b m
  /\ forall k, 1 <= k <= n -> valid_run ops_width o w e b k ->
       run_eff o w e b k <= run_eff o w e b m
       /\ (run_eff o w e b k = run_eff o w e b m -> m <= k).

(** The count a scan bounded by [n] leaves in [*n], for an offset below
    a band of at most 512 slots (a first block that fits then has a
    nonzero efficiency): the first best run length when the first
    block fits the container, the bound itself when it does not. *)
Definition scan_keeps (ops_width o w e b n m : Z) : Prop :=
  if o + w <=? ops_width then first_best ops_width o w e b n m else m = n.

(** ** The selection rule of [nv12_together], stated on its own

    A candidate is a count, an area and the buffer that holds its
    packing (none for generator D). *)

Definition candidate : Type := Z * Z * option (list Z).

Definition cand_count (c : candidate) : Z := fst (fst c).
Definition cand_area (c : candidate) : Z := snd (fst c).
Definition cand_buffer (c : candidate) : option (list Z) := snd c.

(** The candidate a generator result stands for. *)
Definition generated (stack : list Z) (r : Z * Z * list Z) : candidate :=
  (u16 (fst (fst r)), snd (fst r), Some (local_array stack (snd r))).

(** Among the generators a later candidate is looked at only while the
    count is short of [n], and it replaces the incumbent only when it
    places strictly more pairs. *)
Definition better (n : Z) (cur cand : candidate) : candidate :=
  if (cand_count cur <? n) && (cand_count cur <? cand_count cand)
  then cand else cur.

(** The table of special packings as records. *)
Record special : Type := {
  sp_n : Z; sp_o : Z; sp_w : Z; sp_a : Z; sp_area : Z; sp_pairs : list Z
}.

Definition specials : list special :=
  [ {| sp_n := 9; sp_o := 2; sp_w := 4; sp_a := 4; sp_area := 64;
       sp_pairs := [2; 33; 6; 35; 10; 37; 14; 39; 18; 41;
                    46; 23; 50; 25; 54; 27; 58; 29] |};
    {| sp_n := 3; sp_o := 0; sp_w := 12; sp_a := 4; sp_area := 64;
       sp_pairs := [0; 32; 12; 38; 48; 24] |} ].

Definition compatible (o w a : Z) (sp : special) : bool :=
  (a <=? sp_a sp) && (o + w + ALIGN (sp_o sp - o) a <=? sp_o sp + sp_w sp).

(** The entries are looked at in order while their count is not below
    the incumbent's; the first compatible one replaces the incumbent,
    also on a tie, with its count capped at [n]. *)
Fixpoint table_pick (o w a n : Z) (sps : list special) (cur : candidate)
    : candidate :=
  match sps with
  | [] => cur
  | sp :: sps' =>
    if sp_n sp <? cand_count cur then cur
    else if compatible o w a sp
    then (Z.min (sp_n sp) n, sp_area sp, Some (sp_pairs sp))
    else table_pick o w a n sps' cur
  end.

(** What is returned for the candidate left after the table: generator
    D is consulted only when the count is zero, and its packing is not
    copied out. *)
Definition together_result (packing : list Z) (cur : candidate)
    (rD : Z * Z * list Z) : Z * Z * list Z :=
  if cand_count cur =? 0 then (u16 (fst (fst rD)), snd (fst rD), packing)
  else
    match cand_buffer cur with
    | Some src =>
      (cand_count cur, cand_area cur, memcpy packing src (cand_count cur * 2))
    | None => (cand_count cur, cand_area cur, packing)
    end.

(** ** Containment of a packing

    Every pair of the packing [p] (8-bit offset, 16-bit offset) lies
    inside the area: the 8-bit block of width [w] and the 16-bit block
    of width [(w + 1) >> 1] start at or after 0 and end at or before
    [area]. *)
Fixpoint pairs_ok (area w : Z) (p : list Z) : bool :=
  match p with
  | [] => true
  | x :: l :: p' =>
    (0 <=? x) && (x + w <=? area)
    && (0 <=? l) && (l + Z.shiftr (w + 1) 1 <=? area)
    && pairs_ok area w p'
  | _ => false
  end.

(** ** Termination, and an allocator to run the entry points on *)




(** A small allocator for concrete runs: a container of 256 by 128
    slots, 64 pixels of one byte per slot; [analize] answers with the
    given slot values; every lay request of [n] blocks is answered by
    [lay n], and yields that many blocks (labelled by the request)
    when the answer is positive. *)
Definition demo_ops (slots : Z * Z * Z * Z * Z) (lay : Z -> Z)
    : tiler_ops unit Z :=
  {| width := 256;
     height := 128;
     geom := fun _ => (64, 1);
     analize := fun _ _ _ _ _ st => (0, slots, st);
     get_gi := fun _ st => (true, st);
     lay_2d := fun _ n _ _ _ _ _ st => (lay n, repeat n (Z.to_nat (lay n)), st);
     lay_nv12 := fun n _ _ _ _ st => (lay n, repeat n (Z.to_nat (lay n)), st);
     release := fun _ st => st;
     release_gi := fun st => st |}.

Definition empty_world : world unit Z :=
  {| alloc := tt; reserved := []; gi_reserved := []; trace := [] |}.

Definition no_locals : nv12_locals :=
  {| area_s := 0; area_t := 0; packing := [] |}.

(** The invariant the spec gives for a request: width, height and
    count positive, offset below the alignment, alignment at most the
    page size. *)
Definition request_invariant (n wd ht align offs : Z) : bool :=
  (0 <? wd) && (0 <? ht) && (0 <? n) && (0 <=? offs) && (offs <? align)
  && (align <=? PAGE_SIZE).

(** What a step leaves of the world it started from: [gi->reserved]
    only grows at its head, and the trace only grows at its end. *)
Definition extends (St Blk : Type) (s s' : world St Blk) : Prop :=
  (exists l, gi_reserved s' = l ++ gi_reserved s)
  /\ (exists t, trace s' = trace s ++ t).



(** ** The ranking of [nv12_eff] in closed form

    A pair of blocks of width [w] takes [w + (w + 1) / 2] slots, which
    is [(w * 3 + 1) >> 1]; a request of [n_need] pairs packed [n] to an
    area needs [DIV_ROUND_UP (n_need, n)] areas. *)

Definition pair_width (w : Z) : Z := Z.shiftr (w * 3 + 1) 1.

Definition total_area (n area n_need : Z) : Z :=
  Z.quot (n_need + n - 1) n * area.

Definition eff_term (n w area : Z) : Z :=
  Z.quot (1024 * n * pair_width w) area.

(** ** The range of the candidates of [nv12_together]

    What every candidate of the selection satisfies, for a request of
    [n] pairs: a count from zero to one above [n] (the count of
    generator C can be one above) and an area of 64 slots. *)
Definition in_range (n : Z) (c : candidate) : Prop :=
  0 <= cand_count c <= n + 1 /\ cand_area c = 64.

(** ** unreserve_blocks *)

Definition unreserve_blocks {St Blk : Type} (ops : tiler_ops St Blk)
    (gid : Z) (s : world St Blk) : world St Blk :=
  let '(found, s) := do_get_gi ops gid s in
  if negb found then s
  else do_release_gi ops (do_release ops L_gi s).

(** ** What the entry points ask of the allocator

    The calls a loop of [reserve_nv12] may make, for a request of [n]
    pairs: a [lay_2d] for the local list with a count from 1 to [n], a
    [lay_nv12] with a nonzero count when packing together is allowed,
    the release of the local list, and its merge into [gi->reserved]. *)
Definition nv12_event (can_together : bool) (n : Z) (ev : event) : bool :=
  match ev with
  | Ev_lay_2d _ k _ _ _ _ _ L_reserved _ => (1 <=? k) && (k <=? n)
  | Ev_lay_nv12 k _ _ _ _ _ => can_together && negb (k =? 0)
  | Ev_release L_reserved => true
  | Ev_add_reserved => true
  | _ => false
  end.

(** The calls the loop of [reserve_blocks] may make: a [lay_2d] of the
    requested format for [gi->reserved], with a count from 2 to the
    width of the container. *)
Definition blocks_event (fmt ops_width : Z) (ev : event) : bool :=
  match ev with
  | Ev_lay_2d f k _ _ _ _ _ L_gi _ =>
    (f =? fmt) && (2 <=? k) && (k <=? ops_width)
  | _ => false
  end.

(** A lay request. *)
Definition is_lay (ev : event) : bool :=
  match ev with
  | Ev_lay_2d _ _ _ _ _ _ _ _ _ => true
  | Ev_lay_nv12 _ _ _ _ _ _ => true
  | _ => false
  end.

(** ** The slots a packing takes

    In a packing the 8-bit block of a pair takes the slots from its
    offset [x] up to [x + w], its 16-bit block those from its offset
    [l] up to [l + ((w + 1) >> 1)]; [blocks] lists them as half-open
    intervals.  Two blocks are apart when one ends where or before the
    other begins. *)

Fixpoint blocks (w : Z) (p : list Z) : list (Z * Z) :=
  match p with
  | x :: l :: p' => (x, x + w) :: (l, l + Z.shiftr (w + 1) 1) :: blocks w p'
  | _ => []
  end.

Definition apart (b1 b2 : Z * Z) : bool :=
  (snd b1 <=? fst b2) || (snd b2 <=? fst b1).

Fixpoint no_overlap (bs : list (Z * Z)) : bool :=
  match bs with
  | [] => true
  | b :: bs' => forallb (apart b) bs' && no_overlap bs'
  end.

(** The 8-bit offsets and the 16-bit offsets of a packing, and the
    blocks of each kind. *)
Fixpoint offsets_8 (p : list Z) : list Z :=
  match p with
  | x :: _ :: p' => x :: offsets_8 p'
  | _ => []
  end.

Fixpoint offsets_16 (p : list Z) : list Z :=
  match p with
  | _ :: l :: p' => l :: offsets_16 p'
  | _ => []
  end.

Definition blocks_8 (w : Z) (p : list Z) : list (Z * Z) :=
  map (fun x => (x, x + w)) (offsets_8 p).

Definition blocks_16 (w : Z) (p : list Z) : list (Z * Z) :=
  map (fun l => (l, l + Z.shiftr (w + 1) 1)) (offsets_16 p).

(** Every 8-bit block starts at the offset [o] within the alignment
    [a]. *)
Definition aligned_at (o a : Z) (p : list Z) : bool :=
  forallb (fun x => (x - o) mod a =? 0) (offsets_8 p).

(** What generator A keeps between the rounds of its outer loop, at
    the lower bound [x]: the bound is at the offset [o] within the
    alignment, every 8-bit block stored is, no two blocks stored
    overlap, and every block ends at or before [x]. *)
Definition layout_A (o w a x : Z) (p : list Z) : Prop :=
  (x - o) mod a = 0
  /\ aligned_at o a p = true
  /\ no_overlap (blocks w p) = true
  /\ Forall (fun b => snd b <= x) (blocks w p).

(** What it keeps inside a round with the upper bound [u]: [x] is the
    next 8-bit offset and [l] the next 16-bit offset; the blocks stored
    end at or before [x], or lie between [u] and [l]. *)
Definition layout_A_round (o w a u x l : Z) (p : list Z) : Prop :=
  (x - o) mod a = 0
  /\ x <= ALIGN (l - o) a + o
  /\ l + (w + 1) / 2 <= (64 + x + w + 1) / 2
  /\ aligned_at o a p = true
  /\ no_overlap (blocks w p) = true
  /\ Forall (fun b => snd b <= x \/ (u <= fst b /\ snd b <= l)) (blocks w p).

(** The reflection of a block in an area of 64 slots. *)
Definition reflect (b : Z * Z) : Z * Z := (64 - snd b, 64 - fst b).

(** What generator B keeps in its loop, at the next 8-bit offset [x]:
    the 8-bit blocks stored end at or before [x], the 16-bit blocks at
    or before [x / 2], and within each kind no two blocks overlap. *)
Definition layout_B (o w a x : Z) (p : list Z) : Prop :=
  (x - o) mod a = 0
  /\ aligned_at o a p = true
  /\ no_overlap (blocks_8 w p) = true
  /\ no_overlap (blocks_16 w p) = true
  /\ Forall (fun b => snd b <= x) (blocks_8 w p)
  /\ Forall (fun b => snd b <= x / 2) (blocks_16 w p).

(** Where generator C puts its blocks, for the pitch [e], the end [o2]
    of the last possible block and the room [dm] its count is computed
    from: 8-bit blocks from the left up to [o + dm] and from the right
    down to [o2 - dm], the 16-bit blocks of the latter below slot 32
    and those of the former from slot 32 on.  [iA] and [iB] count the
    blocks stored from the left and from the right. *)
Definition layout_C (o w e o2 dm iA iB : Z) (b : Z * Z) : Prop :=
  (0 <= fst b /\ snd b <= o + iA * e /\ snd b <= o + dm)
  \/ (o + dm <= fst b
      /\ (o2 - iB * e - w) / 2 + (w + 1) / 2 <= fst b /\ snd b <= 32)
  \/ (32 <= fst b /\ snd b <= (o + iA * e + 64) / 2 /\ snd b <= o2 - dm)
  \/ (o2 - dm <= fst b /\ o2 - iB * e <= fst b /\ snd b <= 64).

(** ** tiler_reserve_init

    The function keeps the table [tiler] in [ops], enters the three
    entry points of this file in it, and sets the two bands from the
    geometry of the 8-bit and the 16-bit format; [geom] gives the slot
    width in pixels and the bytes per pixel of a format, as it does in
    [tiler_ops].  The model returns the two bands, [band_8] and
    [band_16]; [None]: a division by zero. *)
Definition tiler_reserve_init (geom : Z -> Z * Z) : option (Z * Z) :=
  b8 <- idiv PAGE_SIZE (fst (geom TILFMT_8BIT)) ;;
  q16 <- idiv PAGE_SIZE (fst (geom TILFMT_16BIT)) ;;
  b16 <- idiv q16 (snd (geom TILFMT_16BIT)) ;;
  Some (s32 b8, s32 b16).

(** ** The local arrays of [nv12_together]

    The sizes, in pairs, of the arrays the generators store into
    ("#define MAX_A 21" and so on); [packing] in [reserve_nv12] has
    room for 21 pairs. *)
Definition MAX_A : Z := 21.
Definition MAX_B : Z := 8.
Definition MAX_C : Z := 20.
Definition MAX_D : Z := 1.

(** Generator A, allowed 22 pairs, stops at 21 or before: the check for
    one alignment, offset and width, and for every alignment from 2 to
    64, every offset below it and every width from 1 to 63. *)
Definition nv12_A_within (a o w : Z) : bool :=
  match nv12_A o w a 22 with
  | Some (m, _, _) => m <=? MAX_A
  | None => false
  end.

Definition upto (k : nat) : list Z := map Z.of_nat (seq 0 k).

Definition nv12_A_within_all : bool :=
  forallb (fun j =>
    forallb (fun o =>
      forallb (fun w => nv12_A_within (2 ^ j) o (w + 1)) (upto 63))
      (upto (Z.to_nat (2 ^ j))))
    [1; 2; 3; 4; 5; 6].

(** The test of generator B before its loop. *)
Definition nv12_B_test (o w a : Z) : bool :=
  let e := u16 (Z.rem (o + w) a) in
  let o1 := u16 (Z.rem (Z.shiftr o 1) a) in
  let e1 := u16 (Z.rem (Z.shiftr (o + w + 1) 1) a) in
  let o2 := u16 (o1 + Z.shiftr a 2) in
  let e2 := u16 (e1 + Z.shiftr a 2) in
  (w <? a) && (o <? e) && (e1 <=? o) && ((e2 <=? o) || (e <=? o2)).

(** A candidate of [nv12_together] that can be copied out: its count is
    within the room of [packing], and its buffer holds that many
    pairs. *)
Definition within_packing (c : candidate) : Prop :=
  0 <= cand_count c <= MAX_A
  /\ match cand_buffer c with
     | Some src => 2 * cand_count c <= Z.of_nat (length src)
     | None => True
     end.

(** * Properties *)

(** ** Conversions and [ALIGN] *)

Lemma u8_small (x : Z) : 0 <= x < 256 -> u8 x = x.
Proof. intros H. unfold u8. apply Z.mod_small. exact H. Qed.

Lemma u16_small (x : Z) : 0 <= x < 65536 -> u16 x = x.
Proof. intros H. unfold u16. apply Z.mod_small. exact H. Qed.

Lemma u32_small (x : Z) : 0 <= x < 4294967296 -> u32 x = x.
Proof. intros H. unfold u32. apply Z.mod_small. exact H. Qed.

Lemma s32_small (x : Z) : -2147483648 <= x < 2147483648 -> s32 x = x.
Proof. intros H. unfold s32. rewrite Z.mod_small; lia. Qed.

Lemma u16_range (x : Z) : 0 <= u16 x < 65536.
Proof. unfold u16. apply Z.mod_pos_bound. lia. Qed.

Lemma u32_range (x : Z) : 0 <= u32 x < 4294967296.
Proof. unfold u32. apply Z.mod_pos_bound. lia. Qed.

Lemma u32_negative (x : Z) :
  -4294967296 <= x < 0 -> u32 x = x + 4294967296.
Proof.
  intros H. unfold u32. symmetry.
  apply (Z.mod_unique_pos _ _ (-1)); lia.
Qed.


Lemma iadd_small (x y : Z) :
  -2147483648 <= x + y < 2147483648 -> iadd x y = x + y.
Proof. apply s32_small. Qed.

Lemma isub_small (x y : Z) :
  -2147483648 <= x - y < 2147483648 -> isub x y = x - y.
Proof. apply s32_small. Qed.

Lemma imul_small (x y : Z) :
  -2147483648 <= x * y < 2147483648 -> imul x y = x * y.
Proof. apply s32_small. Qed.

Lemma trim_pow2 (x j : Z) : 0 <= j -> trim x (2 ^ j) = 2 ^ j * (x / 2 ^ j).
Proof.
  intros Hj. unfold trim.
  rewrite <- Z.ldiff_land.
  replace (2 ^ j - 1) with (Z.ones j) by (rewrite Z.ones_equiv; lia).
  rewrite Z.ldiff_ones_r by exact Hj.
  rewrite Z.shiftl_mul_pow2, Z.shiftr_div_pow2 by exact Hj.
  lia.
Qed.

Lemma ALIGN_pow2 (x j : Z) :
  0 <= j -> ALIGN x (2 ^ j) = 2 ^ j * ((x + (2 ^ j - 1)) / 2 ^ j).
Proof. intros Hj. exact (trim_pow2 (x + (2 ^ j - 1)) j Hj). Qed.

Section PowerOfTwo.

Variables b j : Z.
Hypothesis Hj : 0 <= j.
Hypothesis Hb : b = 2 ^ j.

Lemma pow2_pos : 0 < b.
Proof. subst b. apply Z.pow_pos_nonneg; lia. Qed.

Lemma trim_mult (x : Z) : trim x b = b * (x / b).
Proof. subst b. apply trim_pow2. exact Hj. Qed.

Lemma ALIGN_mult (x : Z) : ALIGN x b = b * ((x + (b - 1)) / b).
Proof. subst b. apply ALIGN_pow2. exact Hj. Qed.

Lemma trim_bounds (x : Z) : x - b < trim x b <= x.
Proof.
  rewrite trim_mult. pose proof pow2_pos as Hp.
  pose proof (Z.mul_div_le x b Hp).
  pose proof (Z.mul_succ_div_gt x b Hp). lia.
Qed.

Lemma ALIGN_bounds (x : Z) : x <= ALIGN x b < x + b.
Proof.
  rewrite ALIGN_mult. pose proof pow2_pos as Hp.
  pose proof (Z.mul_div_le (x + (b - 1)) b Hp).
  pose proof (Z.mul_succ_div_gt (x + (b - 1)) b Hp). lia.
Qed.

(** An aligned end minus a start, aligned again, is the extent between
    the band boundaries around the block: the two forms of the block
    stride in the comment of [tiler_best2pack] agree. *)
Lemma ALIGN_sub_ALIGN (x y : Z) :
  ALIGN (ALIGN y b - x) b = ALIGN y b - trim x b.
Proof.
  pose proof pow2_pos as Hp.
  rewrite (ALIGN_mult (ALIGN y b - x)), trim_mult, (ALIGN_mult y).
  set (q := (y + (b - 1)) / b).
  replace (b * q - x + (b - 1)) with ((b - 1 - x) + q * b) by lia.
  rewrite Z.div_add by lia.
  assert (H : (b - 1 - x) / b = - (x / b)).
  { symmetry. apply (Z.div_unique_pos _ _ _ (b - 1 - x mod b)).
    - pose proof (Z.mod_pos_bound x b Hp). lia.
    - pose proof (Z.div_mod x b ltac:(lia)). lia. }
  rewrite H. lia.
Qed.

Lemma ALIGN_multiple (k : Z) : ALIGN (b * k) b = b * k.
Proof.
  pose proof pow2_pos as Hp. rewrite ALIGN_mult.
  replace (b * k + (b - 1)) with ((b - 1) + k * b) by lia.
  rewrite Z.div_add by lia. rewrite (Z.div_small (b - 1) b) by lia. lia.
Qed.

Lemma ALIGN_le_multiple (x k : Z) : x <= b * k -> ALIGN x b <= b * k.
Proof.
  intros H. pose proof pow2_pos as Hp. rewrite ALIGN_mult.
  apply Z.mul_le_mono_nonneg_l; [lia|].
  assert ((x + (b - 1)) / b <= (b * k + (b - 1)) / b)
    by (apply Z.div_le_mono; lia).
  replace (b * k + (b - 1)) with ((b - 1) + k * b) in H0 by lia.
  rewrite Z.div_add in H0 by lia.
  rewrite (Z.div_small (b - 1) b) in H0 by lia. lia.
Qed.

End PowerOfTwo.

(** ** The scan of [tiler_best2pack] *)

Section Best2pack.

Variables W o w e b j max_n n0 area0 : Z.
Hypothesis Hj : 0 <= j.
Hypothesis Hb : b = 2 ^ j.
Hypothesis Ho : 0 <= o < 65536.
Hypothesis Hw : 0 < w.
Hypothesis Hwe : w <= e.
Hypothesis He : e < 65536.
Hypothesis HW0 : 0 <= W.
Hypothesis HW : W + b <= 65536.
Hypothesis Hn : 0 <= max_n < 65536.

Let fits (k : Z) : Prop := o + k * e + w <= W.

Lemma valid_run_fits (m k : Z) :
  valid_run W o w e b m -> 0 <= k < m -> fits k.
Proof.
  intros Hv Hk. specialize (Hv k Hk). unfold block_ok in Hv.
  apply andb_prop in Hv. destruct Hv as [Hv _]. unfold fits. lia.
Qed.

Lemma valid_run_step (m : Z) :
  0 <= m -> valid_run W o w e b m -> block_ok W o w e b m = true ->
  valid_run W o w e b (m + 1).
Proof.
  intros Hm Hv Hok k Hk.
  destruct (Z.eq_dec k m) as [->|Hne]; [exact Hok|apply Hv; lia].
Qed.

(** Below the width of the container nothing wraps. *)
Lemma pitch_bound (m : Z) :
  0 <= m -> valid_run W o w e b m -> 0 <= m * e <= W + e.
Proof.
  intros Hm Hv. destruct (Z.eq_dec m 0) as [->|Hne]; [lia|].
  assert (Hf : fits (m - 1)) by (apply (valid_run_fits m); [exact Hv|lia]).
  unfold fits in Hf. nia.
Qed.

Lemma fits_area (m : Z) :
  0 <= m -> fits m ->
  u16 (ALIGN (o + m * e + w) b) = ALIGN (o + m * e + w) b
  /\ 0 < ALIGN (o + m * e + w) b.
Proof.
  intros Hm Hf. unfold fits in Hf.
  pose proof (ALIGN_bounds b j Hj Hb (o + m * e + w)).
  assert (0 <= m * e) by nia.
  split; [apply u16_small|]; lia.
Qed.

Lemma fits_first (m : Z) : 0 <= m -> fits m -> fits 0.
Proof. unfold fits. intros Hm Hf. nia. Qed.

(** The third test of the loop is the per-block stride test. *)
Lemma guard_is_block_ok (m : Z) :
  0 <= m -> valid_run W o w e b m ->
  (iadd (iadd o (imul m e)) w <=? W)
  && (u16 (ALIGN (o + w) b) =?
      ALIGN (isub (isub (u16 (ALIGN (o + m * e + w) b)) o) (imul m e)) b)
  = block_ok W o w e b m.
Proof.
  intros Hm Hv. pose proof (pitch_bound m Hm Hv) as Hp.
  rewrite imul_small by lia.
  rewrite (iadd_small o (m * e)) by lia. rewrite iadd_small by lia.
  unfold block_ok.
  destruct (Z.leb_spec (o + m * e + w) W) as [Hf|Hf]; [|reflexivity].
  cbn [andb].
  destruct (fits_area m Hm Hf) as [Ha Hpos]. rewrite Ha.
  assert (Hf0 : fits 0) by (apply (fits_first m); assumption).
  destruct (fits_area 0 ltac:(lia) Hf0) as [Ha0 _].
  replace (o + 0 * e + w) with (o + w) in Ha0 by lia. rewrite Ha0.
  pose proof (ALIGN_bounds b j Hj Hb (o + m * e + w)).
  rewrite (isub_small (ALIGN (o + m * e + w) b) o) by lia.
  rewrite isub_small by lia.
  replace (ALIGN (o + m * e + w) b - o - m * e)
    with (ALIGN (o + m * e + w) b - (o + m * e)) by lia.
  rewrite (ALIGN_sub_ALIGN b j Hj Hb).
  unfold block_stride. apply Z.eqb_sym.
Qed.

Lemma eff_value (m : Z) :
  0 <= m -> valid_run W o w e b m -> fits m -> m < max_n ->
  let ar := u16 (ALIGN (o + m * e + w) b) in
  idiv (imul (imul (u16 (m + 1)) w) 1024) ar
    = Some (run_eff o w e b (m + 1))
  /\ u32 (run_eff o w e b (m + 1)) = run_eff o w e b (m + 1)
  /\ 0 <= run_eff o w e b (m + 1).
Proof.
  intros Hm Hv Hf Hlt ar. subst ar.
  destruct (fits_area m Hm Hf) as [Ha Hpos]. rewrite Ha.
  pose proof (pitch_bound m Hm Hv) as Hp.
  unfold fits in Hf.
  assert (Hmw : 0 <= (m + 1) * w <= W).
  { assert (m * w <= m * e) by (apply Z.mul_le_mono_nonneg_l; lia).
    assert (0 <= m * w) by (apply Z.mul_nonneg_nonneg; lia).
    lia. }
  rewrite u16_small by lia.
  rewrite (imul_small (m + 1) w) by lia. rewrite imul_small by lia.
  unfold run_eff, run_area. replace (m + 1 - 1) with m by lia.
  unfold idiv.
  destruct (Z.eqb_spec (ALIGN (o + m * e + w) b) 0) as [E|_]; [lia|].
  assert (Hq : 0 <= Z.quot ((m + 1) * w * 1024) (ALIGN (o + m * e + w) b))
    by (apply Z.quot_pos; lia).
  assert (Hq2 : Z.quot ((m + 1) * w * 1024) (ALIGN (o + m * e + w) b)
                <= (m + 1) * w * 1024).
  { apply Z.quot_le_upper_bound; [lia|].
    set (X := (m + 1) * w * 1024) in *.
    assert (1 * X <= ALIGN (o + m * e + w) b * X)
      by (apply Z.mul_le_mono_nonneg_r; lia).
    lia. }
  repeat split; [apply u32_small; lia|exact Hq].
Qed.

Lemma best_so_far_step (m best n area : Z) :
  0 <= m -> 0 <= best -> best_so_far o w e b n0 area0 m best n area ->
  0 <= run_eff o w e b (m + 1) ->
  let eff := run_eff o w e b (m + 1) in
  let '(best', n', area') :=
    if best <? eff then (eff, m + 1, run_area o w e b (m + 1))
    else (best, n, area) in
  best_so_far o w e b n0 area0 (m + 1) best' n' area' /\ 0 <= best'.
Proof.
  intros Hm Hbest [Hmax Hsel] Heff eff. subst eff.
  destruct (Z.ltb_spec best (run_eff o w e b (m + 1))) as [Hlt|Hge].
  - split; [|lia]. split.
    + intros k Hk. destruct (Z.eq_dec k (m + 1)) as [->|Hne]; [lia|].
      specialize (Hmax k ltac:(lia)). lia.
    + right. repeat split; try lia.
      intros k Hk. specialize (Hmax k ltac:(lia)). lia.
  - split; [|lia]. split.
    + intros k Hk. destruct (Z.eq_dec k (m + 1)) as [->|Hne]; [lia|].
      apply Hmax. lia.
    + destruct Hsel as [Hz|(Hp & Hr & He' & Ha & Hfirst)]; [left; exact Hz|].
      right. repeat split; try lia. exact Hfirst.
Qed.

Lemma best2pack_loop_spec (fuel : nat) :
  forall m best n area,
    Z.of_nat fuel = max_n - m -> 0 <= m -> 0 <= best ->
    valid_run W o w e b m -> best_so_far o w e b n0 area0 m best n area ->
    exists M best' n' area',
      best2pack_loop W fuel o w e b max_n (u16 (ALIGN (o + w) b))
        m (u16 (ALIGN (o + m * e + w) b)) best n area
        = Some (best', n', area')
      /\ m <= M <= max_n
      /\ valid_run W o w e b M
      /\ (M < max_n -> block_ok W o w e b M = false)
      /\ best_so_far o w e b n0 area0 M best' n' area'.
Proof.
  induction fuel as [|fuel IH]; intros m best n area Hfuel Hm Hbest Hv Hinv.
  - exists m, best, n, area. cbn [best2pack_loop].
    split; [reflexivity|]. split; [lia|]. split; [exact Hv|].
    split; [intros; lia|exact Hinv].
  - cbn [best2pack_loop].
    assert (Hlt : m < max_n) by lia.
    destruct (Z.ltb_spec m max_n) as [_|]; [|lia]. cbn [andb].
    rewrite (guard_is_block_ok m Hm Hv).
    destruct (block_ok W o w e b m) eqn:Hok.
    + assert (Hf : fits m).
      { unfold block_ok in Hok. apply andb_prop in Hok.
        destruct Hok as [Hok _]. unfold fits. lia. }
      destruct (eff_value m Hm Hv Hf Hlt) as (Hdiv & Hu32 & Hpos).
      cbv zeta in Hdiv. rewrite Hdiv. cbn [bind]. rewrite Hu32.
      rewrite (u16_small (m + 1)) by lia.
      destruct (fits_area m Hm Hf) as [Ha _]. rewrite Ha.
      pose proof (best_so_far_step m best n area Hm Hbest Hinv Hpos) as Hstep.
      cbv zeta in Hstep. unfold run_area at 1 in Hstep.
      replace (m + 1 - 1) with m in Hstep by lia.
      destruct (best <? run_eff o w e b (m + 1));
        destruct Hstep as [Hinv' Hbest'].
      * pose proof (valid_run_step m Hm Hv Hok) as Hv'.
        pose proof (pitch_bound (m + 1) ltac:(lia) Hv') as Hp.
        rewrite imul_small by lia.
        rewrite (iadd_small o ((m + 1) * e)) by lia.
        rewrite iadd_small by lia.
        destruct (IH (m + 1) _ _ _ ltac:(lia) ltac:(lia) Hbest' Hv' Hinv')
          as (M & b' & n' & a' & Hrun & HM & HvM & Hstop & HinvM).
        exists M, b', n', a'.
        split; [exact Hrun|]. split; [lia|]. split; [exact HvM|].
        split; [exact Hstop|exact HinvM].
      * pose proof (valid_run_step m Hm Hv Hok) as Hv'.
        pose proof (pitch_bound (m + 1) ltac:(lia) Hv') as Hp.
        rewrite imul_small by lia.
        rewrite (iadd_small o ((m + 1) * e)) by lia.
        rewrite iadd_small by lia.
        destruct (IH (m + 1) _ _ _ ltac:(lia) ltac:(lia) Hbest' Hv' Hinv')
          as (M & b' & n' & a' & Hrun & HM & HvM & Hstop & HinvM).
        exists M, b', n', a'.
        split; [exact Hrun|]. split; [lia|]. split; [exact HvM|].
        split; [exact Hstop|exact HinvM].
    + exists m, best, n, area.
      split; [reflexivity|]. split; [lia|]. split; [exact Hv|].
      split; [intros _; exact Hok|exact Hinv].
Qed.

End Best2pack.

Section Best2packResult.

Variables W o w e b j n area : Z.
Hypothesis Hj : 0 <= j.
Hypothesis Hb : b = 2 ^ j.
Hypothesis Ho : 0 <= o < 65536.
Hypothesis Hw : 0 < w.
Hypothesis Hwe : w <= e.
Hypothesis He : e < 65536.
Hypothesis HW0 : 0 <= W.
Hypothesis HW : W + b <= 65536.
Hypothesis Hn : 0 <= n < 65536.

(** The whole scan: it stops at the longest valid run [M] within the
    bound, and holds the first best efficiency among the runs up to
    [M]. *)
Lemma tiler_best2pack_scan :
  exists M r n' area',
    tiler_best2pack W o w e b n area = Some (r, n', area')
    /\ 0 <= M <= n /\ 0 <= r
    /\ valid_run W o w e b M
    /\ (forall m, 0 <= m <= n -> valid_run W o w e b m -> m <= M)
    /\ best_so_far o w e b n area M r n' area'.
Proof.
  unfold tiler_best2pack.
  assert (Hinit : best_so_far o w e b n area 0 0 n area).
  { split; [intros k Hk; lia|left; repeat split]. }
  assert (Hv0 : valid_run W o w e b 0) by (intros k Hk; lia).
  destruct (best2pack_loop_spec W o w e b j n n area Hj Hb Ho Hw Hwe He
              HW0 HW Hn (Z.to_nat n) 0 0 n area
              ltac:(lia) ltac:(lia) ltac:(lia) Hv0 Hinit)
    as (M & r & n' & area' & Hrun & HM & HvM & Hstop & Hbest).
  replace (o + 0 * e + w) with (o + w) in Hrun by lia.
  exists M, r, n', area'.
  split; [exact Hrun|]. split; [lia|].
  split.
  { destruct Hbest as [_ [(-> & _)|(Hpos & _)]]; lia. }
  split; [exact HvM|]. split; [|exact Hbest].
  intros m Hm Hvm.
  destruct (Z.le_gt_cases m M) as [|Hgt]; [assumption|].
  specialize (Hstop ltac:(lia)). specialize (Hvm M ltac:(lia)). congruence.
Qed.

(** When the first block fits under a band of at most 512 slots, its
    efficiency is not zero, so a count is stored. *)
Lemma first_block_counts :
  o < b -> b <= 512 -> o + w <= W ->
  block_ok W o w e b 0 = true /\ 0 < run_eff o w e b 1.
Proof.
  intros Hob Hb512 Hfit.
  pose proof (ALIGN_bounds b j Hj Hb (o + w)) as Ha.
  pose proof (trim_bounds b j Hj Hb o) as Ht.
  pose proof (pow2_pos b j Hj Hb) as Hp.
  assert (Htrim : trim o b = 0).
  { rewrite (trim_mult b j Hj Hb). rewrite Z.div_small by lia. lia. }
  split.
  - unfold block_ok, block_stride.
    replace (o + 0 * e + w) with (o + w) by lia.
    replace (o + 0 * e) with o by lia. rewrite Htrim.
    apply andb_true_intro. split; [apply Z.leb_le; lia|apply Z.eqb_eq; lia].
  - unfold run_eff, run_area. replace (o + (1 - 1) * e + w) with (o + w) by lia.
    apply Z.quot_str_pos. lia.
Qed.

End Best2packResult.
(** C2 (as amended).  [tiler_best2pack] returns a result.  The value
    it returns is the greatest integer efficiency [m * w * 1024 / area]
    among the valid runs within the bound (zero when there is none):
    no valid run has a greater one.  When it is not zero, the count
    stored is the first run length that reaches it, together with the
    area of that run; when no block fits, or no run has a nonzero
    efficiency, it returns zero and leaves the count and the area as
    they were. *)
Theorem tiler_best2pack_first_best_eff (W o w e b j n area : Z) :
  0 <= j -> b = 2 ^ j -> 0 <= o < 65536 -> 0 < w -> w <= e -> e < 65536 ->
  0 <= W -> W + b <= 65536 -> 0 <= n < 65536 ->
  exists r n' area',
    tiler_best2pack W o w e b n area = Some (r, n', area')
    /\ 0 <= r
    /\ (forall m, 1 <= m <= n -> valid_run W o w e b m ->
          run_eff o w e b m <= r)
    /\ (W < o + w -> r = 0)
    /\ (r = 0 -> n' = n /\ area' = area)
    /\ (r <> 0 ->
        1 <= n' <= n /\ valid_run W o w e b n'
        /\ area' = run_area o w e b n' /\ r = run_eff o w e b n'
        /\ forall m, 1 <= m <= n -> valid_run W o w e b m ->
             run_eff o w e b m <= r /\ (run_eff o w e b m = r -> n' <= m)).
Proof.
  intros Hj Hb Ho Hw Hwe He HW0 HW Hn.
  destruct (tiler_best2pack_scan W o w e b j n area Hj Hb Ho Hw Hwe He
              HW0 HW Hn)
    as (M & r & n' & area' & Hrun & HM & Hr & HvM & Hmax & Hup & Hsel).
  exists r, n', area'. split; [exact Hrun|]. split; [exact Hr|].
  split; [intros m Hm Hvm; apply Hup; specialize (Hmax m ltac:(lia) Hvm); lia|].
  split; [|split].
  - intros Hnofit.
    destruct Hsel as [(-> & _)|(Hpos & Hn' & _)]; [reflexivity|].
    specialize (HvM 0 ltac:(lia)). unfold block_ok in HvM.
    apply andb_prop in HvM. destruct HvM as [HvM _]. lia.
  - intros ->. destruct Hsel as [(_ & -> & ->)|(Hpos & _)]; [split; reflexivity|lia].
  - intros Hne.
    destruct Hsel as [(-> & _)|(Hpos & Hn' & Heq & Har & Hfirst)]; [lia|].
    split; [lia|]. split; [intros k Hk; apply HvM; lia|].
    split; [exact Har|]. split; [exact Heq|].
    intros m Hm Hvm. specialize (Hmax m ltac:(lia) Hvm).
    split; [apply Hup; lia|].
    intros Hsame. destruct (Z.le_gt_cases n' m) as [|Hgt]; [assumption|].
    specialize (Hfirst m ltac:(lia)). lia.
Qed.

Lemma tiler_best2pack_first_best_eff_witness :
  exists r n' area',
    tiler_best2pack 512 1 82 82 2 6 0 = Some (r, n', area')
    /\ 0 <= r
    /\ (forall m, 1 <= m <= 6 -> valid_run 512 1 82 82 2 m ->
          run_eff 1 82 82 2 m <= r)
    /\ (512 < 1 + 82 -> r = 0)
    /\ (r = 0 -> n' = 6 /\ area' = 0)
    /\ (r <> 0 ->
        1 <= n' <= 6 /\ valid_run 512 1 82 82 2 n'
        /\ area' = run_area 1 82 82 2 n' /\ r = run_eff 1 82 82 2 n'
        /\ forall m, 1 <= m <= 6 -> valid_run 512 1 82 82 2 m ->
             run_eff 1 82 82 2 m <= r
             /\ (run_eff 1 82 82 2 m = r -> n' <= m)).
Proof.
  apply (tiler_best2pack_first_best_eff 512 1 82 82 2 1 6 0);
    first [reflexivity|lia].
Defined.

(** C2, counterexample.  In a container of width 512, with [o = 1],
    [w = e = 82], [b = 2] and a bound of 6, the scan keeps the count 5
    (area 412) although the run of 6 blocks is valid and denser:
    [6 / 494 > 5 / 412].  Both runs have the integer efficiency 1019. *)
Lemma tiler_best2pack_not_densest :
  tiler_best2pack 512 1 82 82 2 6 0 = Some (1019, 5, 412)
  /\ valid_run_b 512 1 82 82 2 6 = true
  /\ run_area 1 82 82 2 6 = 494
  /\ 5 * 82 * 494 < 6 * 82 * 412.
Proof. repeat split; vm_compute; reflexivity. Qed.

(** C3 (as amended).  Every block of the run [tiler_best2pack] claims
    (a nonzero return value and the count it stored) fits in the
    container and has the stride of a single block, [ALIGN (o + w) b],
    the stride of block [k] being what the loop tests: the aligned end
    of the block less its start rounded down to the band; and a first
    block that fits under a band of at most 512 slots does give a
    run. *)
Theorem tiler_best2pack_uniform_stride (W o w e b j n area : Z) :
  0 <= j -> b = 2 ^ j -> 0 <= o < 65536 -> 0 < w -> w <= e -> e < 65536 ->
  0 <= W -> W + b <= 65536 -> 0 <= n < 65536 ->
  exists r n' area',
    tiler_best2pack W o w e b n area = Some (r, n', area')
    /\ (r = 0 -> n' = n)
    /\ (o < b -> b <= 512 -> o + w <= W -> 1 <= n -> r <> 0)
    /\ (r <> 0 ->
        1 <= n' <= n /\
        forall k, 0 <= k < n' ->
          o + k * e + w <= W /\ block_stride o w e b k = ALIGN (o + w) b).
Proof.
  intros Hj Hb Ho Hw Hwe He HW0 HW Hn.
  destruct (tiler_best2pack_scan W o w e b j n area Hj Hb Ho Hw Hwe He
              HW0 HW Hn)
    as (M & r & n' & area' & Hrun & HM & Hr & HvM & Hmax & Hup & Hsel).
  exists r, n', area'. split; [exact Hrun|]. split; [|split].
  - intros ->. destruct Hsel as [(_ & -> & _)|(Hpos & _)]; [reflexivity|lia].
  - intros Hob Hb512 Hfit Hn1.
    destruct (first_block_counts W o w e b j Hj Hb Ho Hw Hob Hb512 Hfit)
      as [Hok Heff].
    assert (H1 : 1 <= M).
    { apply Hmax; [lia|]. intros k Hk. replace k with 0 by lia. exact Hok. }
    specialize (Hup 1 ltac:(lia)). lia.
  - intros Hne.
    destruct Hsel as [(-> & _)|(Hpos & Hn' & _)]; [lia|].
    split; [lia|]. intros k Hk. specialize (HvM k ltac:(lia)).
    unfold block_ok in HvM. apply andb_prop in HvM.
    destruct HvM as [Hfit Hst]. split; [lia|]. apply Z.eqb_eq. exact Hst.
Qed.

Lemma tiler_best2pack_uniform_stride_witness :
  exists r n' area',
    tiler_best2pack 256 60 8 64 64 2 0 = Some (r, n', area')
    /\ (r = 0 -> n' = 2)
    /\ (60 < 64 -> 64 <= 512 -> 60 + 8 <= 256 -> 1 <= 2 -> r <> 0)
    /\ (r <> 0 ->
        1 <= n' <= 2 /\
        forall k, 0 <= k < n' ->
          60 + k * 64 + 8 <= 256
          /\ block_stride 60 8 64 64 k = ALIGN (60 + 8) 64).
Proof.
  apply (tiler_best2pack_uniform_stride 256 60 8 64 64 6 2 0);
    first [reflexivity|lia].
Defined.

(** C3, counterexample.  With the row stride as the spec defines it,
    [align(o + (m - 1) * e + w, b)], the claim fails: in a container
    of width 256, for [o = 60], [w = 8], [e = 64] and [b = 64], the
    scan claims a run of two blocks, both valid, whose row stride is
    192, while the row stride of a single block, [align(o + w, b)], is
    128.  What stays at 128 is the stride of each block as the loop
    tests it. *)
Lemma tiler_best2pack_area_grows :
  tiler_best2pack 256 60 8 64 64 2 0 = Some (85, 2, 192)
  /\ valid_run_b 256 60 8 64 64 2 = true
  /\ row_stride 60 8 64 64 2 = 192
  /\ row_stride 60 8 64 64 1 = 128
  /\ ALIGN (60 + 8) 64 = 128
  /\ block_stride 60 8 64 64 1 = 128.
Proof. repeat split; vm_compute; reflexivity. Qed.

(** ** [nv12_separate] *)

(** A scan whose first block fits stores the length of a valid run. *)
Lemma tiler_best2pack_run (W o w e b j n area : Z) :
  0 <= j -> b = 2 ^ j -> 0 <= o < 65536 -> 0 < w -> w <= e -> e < 65536 ->
  0 <= W -> W + b <= 65536 -> 0 <= n < 65536 ->
  o < b -> b <= 512 -> o + w <= W -> 1 <= n ->
  exists r n' area',
    tiler_best2pack W o w e b n area = Some (r, n', area')
    /\ 1 <= n' <= n /\ valid_run W o w e b n'.
Proof.
  intros Hj Hb Ho Hw Hwe He HW0 HW Hn Hob Hb512 Hfit Hn1.
  destruct (tiler_best2pack_scan W o w e b j n area Hj Hb Ho Hw Hwe He
              HW0 HW Hn)
    as (M & r & n' & area' & Hrun & HM & Hr & HvM & Hmax & Hup & Hsel).
  destruct (first_block_counts W o w e b j Hj Hb Ho Hw Hob Hb512 Hfit)
    as [Hok Heff].
  assert (H1 : 1 <= M).
  { apply Hmax; [lia|]. intros k Hk. replace k with 0 by lia. exact Hok. }
  specialize (Hup 1 ltac:(lia)).
  exists r, n', area'. split; [exact Hrun|].
  destruct Hsel as [(-> & _)|(Hpos & Hn' & _)]; [lia|].
  split; [lia|]. intros k Hk. apply HvM. lia.
Qed.

Lemma half_pitch (w a j : Z) :
  1 <= j -> a = 2 ^ j -> 0 < w ->
  0 < Z.quot (w + 1) 2 <= Z.quot (ALIGN w a) 2
  /\ w <= ALIGN w a < w + a.
Proof.
  intros Hj Ha Hw.
  pose proof (ALIGN_bounds a j ltac:(lia) Ha w) as Hb.
  pose proof (ALIGN_mult a j ltac:(lia) Ha w) as Hm.
  assert (Ha2 : a = 2 * 2 ^ (j - 1)).
  { rewrite Ha. replace j with (1 + (j - 1)) at 1 by lia.
    rewrite Z.pow_add_r by lia. reflexivity. }
  set (q := (w + (a - 1)) / a) in Hm.
  rewrite !Z.quot_div_nonneg by lia.
  split; [|lia]. split.
  - apply Z.div_str_pos. lia.
  - assert (He : ALIGN w a = 2 * (2 ^ (j - 1) * q)) by (rewrite Hm; nia).
    assert (Hlt : (w + 1) / 2 < 2 ^ (j - 1) * q + 1)
      by (apply Z.div_lt_upper_bound; lia).
    rewrite He. rewrite (Z.mul_comm 2), Z.div_mul by lia. lia.
Qed.

(** What a scan leaves in [*n], for an offset below a band of at most
    512 slots and a bound of at least one. *)
Lemma tiler_best2pack_keeps (W o w e b j n area : Z) :
  0 <= j -> b = 2 ^ j -> 0 <= o < 65536 -> 0 < w -> w <= e -> e < 65536 ->
  0 <= W -> W + b <= 65536 -> 1 <= n < 65536 ->
  o < b -> b <= 512 ->
  exists r n' area',
    tiler_best2pack W o w e b n area = Some (r, n', area')
    /\ scan_keeps W o w e b n n' /\ 1 <= n' <= n.
Proof.
  intros Hj Hb Ho Hw Hwe He HW0 HW Hn Hob Hb512.
  destruct (tiler_best2pack_scan W o w e b j n area Hj Hb Ho Hw Hwe He
              HW0 HW ltac:(lia))
    as (M & r & n' & area' & Hrun & HM & Hr & HvM & Hmax & Hup & Hsel).
  exists r, n', area'. split; [exact Hrun|]. unfold scan_keeps.
  destruct (Z.leb_spec (o + w) W) as [Hfit|Hnofit].
  - destruct (first_block_counts W o w e b j Hj Hb Ho Hw Hob Hb512 Hfit)
      as [Hok Heff].
    assert (H1 : 1 <= M).
    { apply Hmax; [lia|]. intros k Hk. replace k with 0 by lia. exact Hok. }
    pose proof (Hup 1 ltac:(lia)) as Hup1.
    destruct Hsel as [(-> & _)|(Hpos & Hn' & Heq & _ & Hfirst)]; [lia|].
    split; [|lia]. split; [lia|]. split; [intros k Hk; apply HvM; lia|].
    intros k Hk Hvk. specialize (Hmax k ltac:(lia) Hvk).
    rewrite <- Heq. split; [apply Hup; lia|].
    intros Hsame. destruct (Z.le_gt_cases n' k) as [|Hgt]; [assumption|].
    specialize (Hfirst k ltac:(lia)). lia.
  - destruct Hsel as [(_ & -> & _)|(Hpos & Hn' & _)]; [split; [reflexivity|lia]|].
    specialize (HvM 0 ltac:(lia)). unfold block_ok in HvM.
    apply andb_prop in HvM. destruct HvM as [HvM _]. lia.
Qed.

(** C4 (as amended).  For a valid request [nv12_separate] returns a
    count between 1 and [n]: the count [c] the 16-bit scan keeps when
    it is bounded by the count [n8] the 8-bit scan keeps for [n].  A
    scan keeps the first run length of greatest efficiency among its
    valid runs within its bound when its first block fits the
    container, and its bound unchanged when it does not
    ([scan_keeps]).  When the first 8-bit block fits, both planes have
    a valid run of the count returned. *)
Theorem nv12_separate_common_count (W o w a j n area : Z) :
  1 <= j <= 6 -> a = 2 ^ j -> 0 <= o < a -> 0 < w -> w + 64 <= 65536 ->
  1 <= n < 65536 -> 0 <= W -> W + 64 <= 65536 ->
  exists n8 c area',
    nv12_separate W o w a n area = Some (c, area')
    /\ scan_keeps W o w (ALIGN w a) band_8 n n8
    /\ scan_keeps W (Z.quot o 2) (Z.quot (w + 1) 2)
         (Z.quot (ALIGN w a) 2) band_16 n8 c
    /\ 1 <= c <= n8 /\ n8 <= n
    /\ (o + w <= W ->
        valid_run W o w (ALIGN w a) band_8 c
        /\ valid_run W (Z.quot o 2) (Z.quot (w + 1) 2)
             (Z.quot (ALIGN w a) 2) band_16 c).
Proof.
  intros Hj Ha Ho Hw Hw16 Hn HW0 HW.
  destruct (half_pitch w a j ltac:(lia) Ha Hw) as [Hhalf He].
  assert (Ha64 : a <= 64).
  { rewrite Ha. change 64 with (2 ^ 6). apply Z.pow_le_mono_r; lia. }
  unfold nv12_separate.
  change (u16 band_8) with 64. change (u16 band_16) with 32.
  change band_8 with 64. change band_16 with 32.
  rewrite (u16_small (ALIGN w a)) by lia.
  destruct (tiler_best2pack_keeps W o w (ALIGN w a) 64 6 n area)
    as (r1 & n1 & area1 & Hrun1 & Hk1 & Hn1); try lia; try reflexivity.
  rewrite Hrun1. cbn [bind].
  assert (Hq : 0 <= Z.quot (ALIGN w a) 2 <= ALIGN w a).
  { rewrite Z.quot_div_nonneg by lia. split; [apply Z.div_pos; lia|].
    apply Z.div_le_upper_bound; lia. }
  rewrite (u16_small (Z.quot (ALIGN w a) 2)) by lia.
  assert (Ho2 : 0 <= Z.quot o 2 /\ 2 * Z.quot o 2 <= o).
  { rewrite Z.quot_div_nonneg by lia. split; [apply Z.div_pos; lia|].
    apply Z.mul_div_le. lia. }
  assert (Hw2 : 2 * Z.quot (w + 1) 2 <= w + 1).
  { rewrite Z.quot_div_nonneg by lia. apply Z.mul_div_le. lia. }
  destruct (tiler_best2pack_keeps W (Z.quot o 2) (Z.quot (w + 1) 2)
              (Z.quot (ALIGN w a) 2) 32 5 n1 area1)
    as (r2 & n2 & area2 & Hrun2 & Hk2 & Hn2); try lia; try reflexivity.
  rewrite Hrun2. cbn [bind].
  exists n1, n2, (u16 (area2 * 3)). split; [reflexivity|].
  split; [exact Hk1|]. split; [exact Hk2|]. split; [lia|]. split; [lia|].
  intros Hfit. unfold scan_keeps in Hk1, Hk2.
  destruct (Z.leb_spec (o + w) W) as [_|]; [|lia].
  destruct (Z.leb_spec (Z.quot o 2 + Z.quot (w + 1) 2) W) as [_|]; [|lia].
  destruct Hk1 as (_ & Hv1 & _). destruct Hk2 as (_ & Hv2 & _).
  split; [|exact Hv2]. intros k Hk. apply Hv1. lia.
Qed.

Lemma nv12_separate_common_count_witness :
  exists n8 c area',
    nv12_separate 256 2 30 4 3 0 = Some (c, area')
    /\ scan_keeps 256 2 30 (ALIGN 30 4) band_8 3 n8
    /\ scan_keeps 256 (Z.quot 2 2) (Z.quot (30 + 1) 2)
         (Z.quot (ALIGN 30 4) 2) band_16 n8 c
    /\ 1 <= c <= n8 /\ n8 <= 3
    /\ (2 + 30 <= 256 ->
        valid_run 256 2 30 (ALIGN 30 4) band_8 c
        /\ valid_run 256 (Z.quot 2 2) (Z.quot (30 + 1) 2)
             (Z.quot (ALIGN 30 4) 2) band_16 c).
Proof.
  apply (nv12_separate_common_count 256 2 30 4 2 3 0);
    first [reflexivity|lia].
Defined.

(** C4, counterexample.  In a container of width 256, for [o = 2],
    [w = 256], [a = 4] and a request of 3 the 8-bit block does not fit,
    yet [nv12_separate] returns the count 1 (found by the 16-bit scan
    alone), not zero.  And the count is not the minimum of what the two
    planes keep: in a container of width 1024, for [o = 62], [w = 3],
    [a = 64] and a request of 12, the 8-bit scan keeps 11 and the
    16-bit scan, on its own, 12, yet [nv12_separate] returns 10, what
    the 16-bit scan keeps within 11. *)
Lemma nv12_separate_count_not_common :
  (nv12_separate 256 2 256 4 3 0 = Some (1, 480)
   /\ block_ok 256 2 256 (ALIGN 256 4) band_8 0 = false)
  /\ (nv12_separate 1024 62 3 64 12 0 = Some (10, 1056)
      /\ tiler_best2pack 1024 62 3 (ALIGN 3 64) band_8 12 0
         = Some (44, 11, 768)
      /\ tiler_best2pack 1024 (Z.quot 62 2) (Z.quot (3 + 1) 2)
           (Z.quot (ALIGN 3 64) 2) band_16 12 0 = Some (59, 12, 416)
      /\ valid_run_b 1024 62 3 (ALIGN 3 64) band_8 11 = true
      /\ valid_run_b 1024 (Z.quot 62 2) (Z.quot (3 + 1) 2)
           (Z.quot (ALIGN 3 64) 2) band_16 11 = true).
Proof. repeat split; vm_compute; reflexivity. Qed.

(** ** Generators A, reverse-A, B and D keep their pairs in the area *)

Lemma pairs_ok_app (area w : Z) (q : list Z) :
  pairs_ok area w q = true ->
  forall p, pairs_ok area w p = true -> pairs_ok area w (p ++ q) = true.
Proof.
  intros Hq.
  assert (H : forall p,
             (pairs_ok area w p = true -> pairs_ok area w (p ++ q) = true)
             /\ (forall z, pairs_ok area w (z :: p) = true ->
                           pairs_ok area w ((z :: p) ++ q) = true)).
  { induction p as [|y p [IH1 IH2]].
    - split; [intros _; exact Hq|intros z Hz; discriminate Hz].
    - split; [apply IH2|].
      intros z Hz. cbn [pairs_ok app] in Hz |- *.
      apply andb_prop in Hz. destruct Hz as [Hz Hp].
      rewrite Hz, (IH1 Hp). reflexivity. }
  intros p. exact (proj1 (H p)).
Qed.

Lemma pairs_ok_pair (area w x l : Z) :
  0 <= x -> x + w <= area -> 0 <= l -> l + Z.shiftr (w + 1) 1 <= area ->
  pairs_ok area w [x; l] = true.
Proof.
  intros H1 H2 H3 H4. cbn [pairs_ok].
  rewrite (proj2 (Z.leb_le 0 x) H1), (proj2 (Z.leb_le _ _) H2),
    (proj2 (Z.leb_le 0 l) H3), (proj2 (Z.leb_le _ _) H4).
  reflexivity.
Qed.

Lemma half_sum (x y : Z) : x / 2 + y / 2 <= (x + y) / 2.
Proof.
  pose proof (Z.div_mod x 2 ltac:(lia)). pose proof (Z.div_mod y 2 ltac:(lia)).
  pose proof (Z.mod_pos_bound x 2 ltac:(lia)).
  pose proof (Z.mod_pos_bound y 2 ltac:(lia)).
  apply Z.div_le_lower_bound; lia.
Qed.

Lemma shiftr1 (x : Z) : Z.shiftr x 1 = x / 2.
Proof. rewrite Z.shiftr_div_pow2 by lia. reflexivity. Qed.

Section GeneratorA.

Variables o w a j n : Z.
Hypothesis Hj : 0 <= j <= 15.
Hypothesis Ha : a = 2 ^ j.
Hypothesis Ho : 0 <= o < 65536.
Hypothesis Hw : 0 < w.
Hypothesis Hn : 0 <= n < 65536.

Lemma a_range : 0 < a <= 32768.
Proof.
  split; [exact (pow2_pos a j (proj1 Hj) Ha)|].
  rewrite Ha. change 32768 with (2 ^ 15). apply Z.pow_le_mono_r; lia.
Qed.

(** The inner loop: [xs] is the lower bound the round started from and
    [u] its upper bound; the 16-bit offset [l] is fit for the next pair
    whenever there is room for its 8-bit block. *)
Lemma nv12_A_pack_ok (xs u : Z) :
  0 <= xs -> xs + w < 64 -> u = (64 + xs) / 2 ->
  forall fuel x l m p,
    xs <= x -> x < 65536 -> u <= l <= 64 ->
    (x + w <= u -> l + (w + 1) / 2 <= 64) ->
    0 <= m <= n ->
    pairs_ok 64 w p = true -> Z.of_nat (length p) = 2 * m ->
    exists x' l' m' p',
      nv12_A_pack fuel o w a 64 u n x l m p = (x', l', m', p')
      /\ xs <= x' < 65536 /\ u <= l' <= 64 /\ m <= m' <= n
      /\ pairs_ok 64 w p' = true /\ Z.of_nat (length p') = 2 * m'.
Proof.
  intros Hxs Hroom Hu. pose proof a_range as Har.
  assert (Hu63 : 0 <= u <= 63).
  { subst u. split; [apply Z.div_pos; lia|].
    apply Z.div_le_upper_bound; lia. }
  induction fuel as [|fuel IH]; intros x l m p Hx Hx16 Hl Hfit Hm Hp Hlen;
    cbn [nv12_A_pack].
  - exists x, l, m, p. repeat split; try lia; assumption.
  - destruct (Z.leb_spec (x + w) u) as [Hplace|Hfull]; cbn [andb];
      [|exists x, l, m, p; repeat split; try lia; assumption].
    destruct (Z.ltb_spec m n) as [Hmn|Hmn];
      [|exists x, l, m, p; repeat split; try lia; assumption].
    specialize (Hfit Hplace).
    rewrite (u8_small x), (u8_small l) by lia.
    rewrite shiftr1.
    pose proof (ALIGN_bounds a j (proj1 Hj) Ha (x + w - o)) as Hal.
    assert (Hl' : u <= (64 + x + w + 1) / 2 <= 64).
    { split.
      - subst u. apply Z.div_le_mono; lia.
      - apply Z.div_le_upper_bound; lia. }
    rewrite (u16_small ((64 + x + w + 1) / 2)) by lia.
    rewrite (u16_small (ALIGN (x + w - o) a + o)) by lia.
    rewrite (u16_small (m + 1)) by lia.
    destruct (IH (ALIGN (x + w - o) a + o) ((64 + x + w + 1) / 2) (m + 1)
                (p ++ [x; l]))
      as (x' & l' & m' & p' & Hrun & Hx' & Hl'' & Hm' & Hp' & Hlen');
      try lia.
    + intros Hnext.
      pose proof (half_sum (64 + x + w + 1) (w + 1)) as Hh.
      assert ((64 + x + w + 1 + (w + 1)) / 2 < 65)
        by (apply Z.div_lt_upper_bound; lia).
      lia.
    + apply pairs_ok_app; [|exact Hp].
      apply pairs_ok_pair; try lia. rewrite shiftr1. exact Hfit.
    + rewrite length_app. cbn [length]. lia.
    + exists x', l', m', p'. repeat split; try lia; assumption.
Qed.

(** The outer loop ends: each round moves its lower bound up. *)
Lemma nv12_A_loop_ok (fuel : nat) :
  forall x m p,
    0 <= x < 65536 -> 64 - x < Z.of_nat fuel -> (0 < fuel)%nat ->
    0 <= m <= n ->
    pairs_ok 64 w p = true -> Z.of_nat (length p) = 2 * m ->
    exists m' p',
      nv12_A_loop fuel o w a 64 n x m p = Some (m', p')
      /\ m <= m' <= n
      /\ pairs_ok 64 w p' = true /\ Z.of_nat (length p') = 2 * m'.
Proof.
  pose proof a_range as Har.
  induction fuel as [|fuel IH]; intros x m p Hx Hfuel Hpos Hm Hp Hlen;
    [lia|].
  cbn [nv12_A_loop].
  destruct (Z.ltb_spec (x + w) 64) as [Hroom|Hfull]; cbn [andb];
    [|exists m, p; repeat split; try lia; assumption].
  destruct (Z.ltb_spec m n) as [Hmn|Hmn];
    [|exists m, p; repeat split; try lia; assumption].
  rewrite shiftr1.
  assert (Hu : 0 <= (64 + x) / 2 <= 63 /\ x + 1 <= (64 + x) / 2).
  { split; [split; [apply Z.div_pos; lia|apply Z.div_le_upper_bound; lia]|].
    apply Z.div_le_lower_bound; lia. }
  rewrite (u16_small ((64 + x) / 2)) by lia.
  destruct (nv12_A_pack_ok x ((64 + x) / 2) ltac:(lia) Hroom eq_refl
              (Z.to_nat n) x ((64 + x) / 2) m p)
    as (x' & l' & m' & p' & Hrun & Hx' & Hl' & Hm' & Hp' & Hlen');
    try lia; try assumption.
  { intros _. pose proof (half_sum (64 + x) (w + 1)) as Hh.
    assert ((64 + x + (w + 1)) / 2 <= 64)
      by (apply Z.div_le_upper_bound; lia).
    lia. }
  rewrite Hrun.
  pose proof (ALIGN_bounds a j (proj1 Hj) Ha (l' - o)) as Hal.
  rewrite (u16_small (ALIGN (l' - o) a + o)) by lia.
  destruct (IH (ALIGN (l' - o) a + o) m' p')
    as (m'' & p'' & Hloop & Hm'' & Hp'' & Hlen''); try lia; try assumption.
  exists m'', p''. repeat split; try lia; assumption.
Qed.

Lemma nv12_A_contained :
  exists m p,
    nv12_A o w a n = Some (m, 64, p)
    /\ 0 <= m <= n
    /\ pairs_ok 64 w p = true /\ Z.of_nat (length p) = 2 * m.
Proof.
  unfold nv12_A. change (u16 band_8) with 64.
  destruct (nv12_A_loop_ok (S (Z.to_nat 64)) o 0 [])
    as (m & p & Hloop & Hm & Hp & Hlen); try lia; try reflexivity.
  rewrite Hloop. cbn [bind]. exists m, p. repeat split; try lia; assumption.
Qed.

End GeneratorA.

Lemma u8_le (x : Z) : 0 <= x -> 0 <= u8 x <= x.
Proof.
  intros H. unfold u8. pose proof (Z.mod_pos_bound x 256 ltac:(lia)).
  pose proof (Z.mod_le x 256 H ltac:(lia)). lia.
Qed.

Lemma u16_le (x : Z) : 0 <= x -> 0 <= u16 x <= x.
Proof.
  intros H. unfold u16. pose proof (Z.mod_pos_bound x 65536 ltac:(lia)).
  pose proof (Z.mod_le x 65536 H ltac:(lia)). lia.
Qed.

Lemma rem_range (x y : Z) : 0 <= x -> 0 < y -> 0 <= Z.rem x y < y.
Proof.
  intros Hx Hy. rewrite Z.rem_mod_nonneg by lia. apply Z.mod_pos_bound. lia.
Qed.

(** Reflecting a packing that is in the area keeps it in the area. *)
Lemma reverse_packing_ok (w : Z) (fuel : nat) :
  0 < w ->
  forall p,
    pairs_ok 64 w p = true ->
    pairs_ok 64 w (reverse_packing fuel 64 w p) = true
    /\ length (reverse_packing fuel 64 w p) = length p.
Proof.
  intros Hw.
  assert (Hw1 : 0 <= Z.shiftr (w + 1) 1) by (apply Z.shiftr_nonneg; lia).
  induction fuel as [|fuel IH]; intros p Hp.
  - destruct p; split; first [exact Hp|reflexivity].
  - destruct p as [|x [|l p]]; [split; [exact Hp|reflexivity]|discriminate|].
    cbn [pairs_ok] in Hp.
    repeat (apply andb_prop in Hp; destruct Hp as [Hp ?]).
    rewrite Z.leb_le in *.
    destruct (IH p ltac:(assumption)) as [Hok Hlen].
    cbn [reverse_packing pairs_ok length].
    rewrite (u8_small (64 - x - w)), (u8_small (64 - l - Z.shiftr (w + 1) 1))
      by lia.
    rewrite Hok, Hlen. split; [|reflexivity].
    repeat (apply andb_true_intro; split); try reflexivity;
      apply Z.leb_le; lia.
Qed.

Section Generators.

Variables o w a j n : Z.
Hypothesis Hj : 0 <= j <= 15.
Hypothesis Ha : a = 2 ^ j.
Hypothesis Ho : 0 <= o < 65536.
Hypothesis Hw : 0 < w.
Hypothesis Hn : 0 <= n < 65536.

Lemma nv12_revA_contained :
  exists m p,
    nv12_revA o w a n = Some (m, 64, p)
    /\ 0 <= m <= n
    /\ pairs_ok 64 w p = true /\ Z.of_nat (length p) = 2 * m.
Proof.
  pose proof (a_range a j Hj Ha) as Har.
  unfold nv12_revA, irem.
  destruct (Z.eqb_spec a 0) as [E|_]; [lia|]. cbn [bind].
  pose proof (rem_range (o + w) a ltac:(lia) ltac:(lia)) as Hr1.
  pose proof (rem_range (a - Z.rem (o + w) a) a ltac:(lia) ltac:(lia)) as Hr2.
  rewrite (u16_small (Z.rem (a - Z.rem (o + w) a) a)) by lia.
  destruct (nv12_A_contained (Z.rem (a - Z.rem (o + w) a) a) w a j n
              Hj Ha ltac:(lia) Hw Hn)
    as (m & p & HA & Hm & Hp & Hlen).
  rewrite HA. cbn [bind]. rewrite (u16_small m) by lia.
  destruct (reverse_packing_ok w (Z.to_nat m) Hw p Hp) as [Hok Hl].
  exists m, (reverse_packing (Z.to_nat m) 64 w p).
  split; [reflexivity|]. split; [exact Hm|]. split; [exact Hok|].
  rewrite Hl. exact Hlen.
Qed.

Lemma nv12_B_loop_ok (fuel : nat) :
  forall x m p,
    0 <= x < 65536 -> 0 <= m <= n ->
    pairs_ok 64 w p = true -> Z.of_nat (length p) = 2 * m ->
    exists m' p',
      nv12_B_loop fuel w a 64 n x m p = (m', p')
      /\ m <= m' <= n
      /\ pairs_ok 64 w p' = true /\ Z.of_nat (length p') = 2 * m'.
Proof.
  induction fuel as [|fuel IH]; intros x m p Hx Hm Hp Hlen;
    cbn [nv12_B_loop].
  - exists m, p. repeat split; try lia; assumption.
  - destruct (Z.leb_spec (x + w) 64) as [Hroom|Hfull]; cbn [andb];
      [|exists m, p; repeat split; try lia; assumption].
    destruct (Z.ltb_spec m n) as [Hmn|Hmn];
      [|exists m, p; repeat split; try lia; assumption].
    rewrite (u16_small (m + 1)) by lia.
    assert (Hhalf : 0 <= x / 2 < 32).
    { split; [apply Z.div_pos; lia|apply Z.div_lt_upper_bound; lia]. }
    destruct (IH (u16 (x + a)) (m + 1) (p ++ [u8 x; u8 (Z.shiftr x 1)]))
      as (m' & p' & Hrun & Hm' & Hp' & Hlen'); try lia.
    + apply u16_range.
    + apply pairs_ok_app; [|exact Hp].
      rewrite shiftr1. rewrite (u8_small x), (u8_small (x / 2)) by lia.
      apply pairs_ok_pair; try lia. rewrite shiftr1.
      pose proof (half_sum x (w + 1)) as Hh.
      assert ((x + (w + 1)) / 2 < 33) by (apply Z.div_lt_upper_bound; lia).
      lia.
    + rewrite length_app. cbn [length]. lia.
    + exists m', p'. repeat split; try lia; assumption.
Qed.

Lemma nv12_B_contained :
  exists m p,
    nv12_B o w a n = Some (m, 64, p)
    /\ 0 <= m <= n
    /\ pairs_ok 64 w p = true /\ Z.of_nat (length p) = 2 * m.
Proof.
  pose proof (a_range a j Hj Ha) as Har.
  unfold nv12_B, irem.
  destruct (Z.eqb_spec a 0) as [E|_]; [lia|]. cbn [bind].
  change (u16 band_8) with 64.
  match goal with
  | |- context [if ?c then _ else _] => destruct c
  end.
  - destruct (nv12_B_loop_ok (Z.to_nat n) o 0 [])
      as (m & p & Hrun & Hm & Hp & Hlen); try lia; try reflexivity.
    rewrite Hrun. exists m, p. repeat split; try lia; assumption.
  - exists 0, []. repeat split; try lia.
Qed.

(** The loop of [nv12_D] leaves after at most 64 rounds, with no pair
    or with one that is in the area. *)
Lemma nv12_D_loop_ok (area : Z) (fuel : nat) :
  0 <= area < o + w + 64 ->
  forall d,
    0 <= d -> 64 - d < Z.of_nat fuel -> (0 < fuel)%nat ->
    exists m p,
      nv12_D_loop fuel o w a area n d = Some (m, p)
      /\ 0 <= m <= 1 /\ (0 < n \/ m = 0)
      /\ pairs_ok area w p = true /\ Z.of_nat (length p) = 2 * m.
Proof.
  intros Harea. pose proof (a_range a j Hj Ha) as Har.
  induction fuel as [|fuel IH]; intros d Hd Hfuel Hpos; [lia|].
  cbn [nv12_D_loop].
  destruct (Z.ltb_spec 0 n) as [Hn0|Hn0]; cbn [andb];
    [|exists 0, []; repeat split; try lia].
  destruct (Z.leb_spec (d + o + w) area) as [Hroom|Hfull];
    [|exists 0, []; repeat split; try lia].
  rewrite !shiftr1. change band_8 with 64. change band_16 with 32.
  pose proof (rem_range (o + d) 64 ltac:(lia) ltac:(lia)) as Hrem.
  assert (Ho1 : 0 <= Z.rem (o + d) 64 / 2 < 32).
  { split; [apply Z.div_pos; lia|apply Z.div_lt_upper_bound; lia]. }
  set (o1 := Z.rem (o + d) 64 / 2) in *.
  pose proof (u8_le (o + d) ltac:(lia)) as H8x.
  pose proof (u8_le o1 ltac:(lia)) as H8l.
  destruct (Z.leb_spec (o1 + (w + 1) / 2) (o + d)) as [Hbefore|Hnot].
  - exists 1, [u8 (o + d); u8 o1]. split; [reflexivity|].
    split; [lia|]. split; [lia|]. split; [|reflexivity].
    apply pairs_ok_pair; try lia. rewrite shiftr1. lia.
  - pose proof (u16_range (o1 + ALIGN (d + o + w - o1) 32)) as Ho1'.
    set (o1' := u16 (o1 + ALIGN (d + o + w - o1) 32)) in *.
    pose proof (u8_le o ltac:(lia)) as H8o.
    pose proof (u8_le o1' ltac:(lia)) as H8l'.
    destruct (Z.leb_spec (o1' + (w + 1) / 2) area) as [Hafter|Hnot'].
    + exists 1, [u8 o; u8 o1']. split; [reflexivity|].
      split; [lia|]. split; [lia|]. split; [|reflexivity].
      apply pairs_ok_pair; try lia. rewrite shiftr1. lia.
    + rewrite (u16_small (d + a)) by lia.
      destruct (IH (d + a)) as (m & p & Hrun & Hm); try lia.
      exists m, p. split; [exact Hrun|exact Hm].
Qed.

Lemma nv12_D_contained :
  exists m area p,
    nv12_D o w a n = Some (m, area, p)
    /\ 0 <= m <= 1 /\ (0 < n \/ m = 0)
    /\ pairs_ok area w p = true /\ Z.of_nat (length p) = 2 * m.
Proof.
  unfold nv12_D. change band_8 with 64.
  pose proof (ALIGN_bounds 64 6 ltac:(lia) eq_refl (o + w)) as Hal.
  pose proof (u16_le (ALIGN (o + w) 64) ltac:(lia)) as Hu.
  destruct (nv12_D_loop_ok (u16 (ALIGN (o + w) 64)) (S (Z.to_nat 64))
              ltac:(lia) 0)
    as (m & p & Hrun & Hm); try lia.
  rewrite Hrun. cbn [bind].
  exists m, (u16 (ALIGN (o + w) 64)), p. split; [reflexivity|exact Hm].
Qed.

End Generators.

(** X1.  Generators A, reverse-A, B and D give a result for every valid
    request, return the number of pairs they stored, and keep every
    pair inside the area they report. *)
Theorem generators_contained (o w a j n : Z) :
  1 <= j <= 15 -> a = 2 ^ j -> 0 <= o < a -> 0 < w -> 0 <= n < 65536 ->
  (exists m p,
     nv12_A o w a n = Some (m, 64, p) /\ 0 <= m <= n
     /\ pairs_ok 64 w p = true /\ Z.of_nat (length p) = 2 * m)
  /\ (exists m p,
        nv12_revA o w a n = Some (m, 64, p) /\ 0 <= m <= n
        /\ pairs_ok 64 w p = true /\ Z.of_nat (length p) = 2 * m)
  /\ (exists m p,
        nv12_B o w a n = Some (m, 64, p) /\ 0 <= m <= n
        /\ pairs_ok 64 w p = true /\ Z.of_nat (length p) = 2 * m)
  /\ (exists m area p,
        nv12_D o w a n = Some (m, area, p) /\ 0 <= m <= 1
        /\ (0 < n \/ m = 0)
        /\ pairs_ok area w p = true /\ Z.of_nat (length p) = 2 * m).
Proof.
  intros Hj Ha Ho Hw Hn.
  pose proof (a_range a j ltac:(lia) Ha) as Har.
  split; [|split; [|split]].
  - apply (nv12_A_contained o w a j n); try assumption; lia.
  - apply (nv12_revA_contained o w a j n); try assumption; lia.
  - apply (nv12_B_contained o w a j n); try assumption; lia.
  - apply (nv12_D_contained o w a j n); try assumption; lia.
Qed.

Lemma generators_contained_witness :
  (exists m p,
     nv12_A 2 4 4 8 = Some (m, 64, p) /\ 0 <= m <= 8
     /\ pairs_ok 64 4 p = true /\ Z.of_nat (length p) = 2 * m)
  /\ (exists m p,
        nv12_revA 2 4 4 8 = Some (m, 64, p) /\ 0 <= m <= 8
        /\ pairs_ok 64 4 p = true /\ Z.of_nat (length p) = 2 * m)
  /\ (exists m p,
        nv12_B 2 4 4 8 = Some (m, 64, p) /\ 0 <= m <= 8
        /\ pairs_ok 64 4 p = true /\ Z.of_nat (length p) = 2 * m)
  /\ (exists m area p,
        nv12_D 2 4 4 8 = Some (m, area, p) /\ 0 <= m <= 1
        /\ (0 < 8 \/ m = 0)
        /\ pairs_ok area 4 p = true /\ Z.of_nat (length p) = 2 * m).
Proof.
  apply (generators_contained 2 4 4 2 8); first [reflexivity | lia].
Defined.


(** C6, the code at the failing input.  For a block of 62 slots at
    offset 4 with an alignment of 8 slots, [nv12_C] reports two pairs
    in an area of 64 slots, the first with its 8-bit block at 4, which
    ends at 66, the second with offsets that wrapped below zero; this
    is the packing [nv12_together] hands out.  For an odd request
    ([n = 3]) it returns a count one above the pairs it stored. *)
Theorem nv12_C_leaves_area :
  nv12_C 4 62 8 2 = Some (2, 64, [4; 34; 252; 254])
  /\ 64 < 4 + 62
  /\ nv12_together [] 4 62 8 2 0 [] = Some (2, 64, [4; 34; 252; 254])
  /\ nv12_C 0 4 4 3 = Some (4, 64, [0; 32; 60; 30; 4; 34]).
Proof. repeat split; vm_compute; reflexivity. Qed.

(** ** [nv12_together] *)

Lemma nv12_A_area (o w a n m ar : Z) (p : list Z) :
  nv12_A o w a n = Some (m, ar, p) -> ar = 64.
Proof.
  unfold nv12_A. destruct (nv12_A_loop _ _ _ _ _ _ _ _ _) as [[m' p']|];
    cbn [bind]; [|discriminate].
  intros H. inversion H. reflexivity.
Qed.

Lemma nv12_revA_area (o w a n m ar : Z) (p : list Z) :
  nv12_revA o w a n = Some (m, ar, p) -> ar = 64.
Proof.
  unfold nv12_revA.
  destruct (irem (o + w) a) as [r|]; cbn [bind]; [|discriminate].
  destruct (irem (a - r) a) as [r'|]; cbn [bind]; [|discriminate].
  destruct (nv12_A (u16 r') w a n) as [[[m' ar'] p']|] eqn:HA;
    cbn [bind]; [|discriminate].
  intros H. inversion H. subst. exact (nv12_A_area _ _ _ _ _ _ _ HA).
Qed.

Lemma nv12_B_area (o w a n m ar : Z) (p : list Z) :
  nv12_B o w a n = Some (m, ar, p) -> ar = 64.
Proof.
  unfold nv12_B.
  destruct (irem (o + w) a) as [r|]; cbn [bind]; [|discriminate].
  destruct (irem (Z.shiftr o 1) a) as [r1|]; cbn [bind]; [|discriminate].
  destruct (irem (Z.shiftr (o + w + 1) 1) a) as [r2|]; cbn [bind]; [|discriminate].
  match goal with |- context [if ?c then _ else _] => destruct c end.
  - destruct (nv12_B_loop _ _ _ _ _ _ _ _) as [m' p'].
    intros H. inversion H. reflexivity.
  - intros H. inversion H. reflexivity.
Qed.

Lemma nv12_C_area (o w a n m ar : Z) (p : list Z) :
  nv12_C o w a n = Some (m, ar, p) -> ar = 64.
Proof.
  unfold nv12_C.
  destruct (irem (o + w) a) as [r|]; cbn [bind]; [|discriminate].
  destruct (irem (a - r) a) as [r'|]; cbn [bind]; [|discriminate].
  destruct (idiv _ _) as [q|]; cbn [bind]; [|discriminate].
  destruct (nv12_C_loop _ _ _ _ _ _ _ _ _ _ _) as [j' p'].
  intros H. inversion H. reflexivity.
Qed.

(** One generator block of [nv12_together] follows the rule [better];
    the generator is consulted only while the count is short. *)
Lemma try_generator_better
    (gen : Z -> Z -> Z -> Z -> option (Z * Z * list Z))
    (stack : list Z) (o w a n : Z) (cur : candidate) (r : Z * Z * list Z) :
  (forall m ar p, gen o w a n = Some (m, ar, p) -> ar = 64) ->
  cand_area cur = 64 ->
  (cand_count cur < n -> gen o w a n = Some r) ->
  try_generator gen stack o w a n cur = Some (better n cur (generated stack r))
  /\ cand_area (better n cur (generated stack r)) = 64.
Proof.
  intros Harea Hcur Hgen. destruct cur as [[c ar] pb].
  unfold cand_area, cand_count in *. cbn [fst snd] in *. subst ar.
  unfold try_generator, better, cand_count. cbn [fst snd].
  destruct (Z.ltb_spec c n) as [Hlt|Hge]; cbn [andb].
  - rewrite (Hgen Hlt). destruct r as [[m ar] p]. cbn [bind fst snd generated].
    rewrite (Harea m ar p (Hgen Hlt)).
    destruct (c <? u16 m); split; reflexivity.
  - split; reflexivity.
Qed.

Lemma firstn_app_short (A : Type) (k : nat) (l1 l2 : list A) :
  (k <= length l1)%nat -> firstn k (l1 ++ l2) = firstn k l1.
Proof.
  intros H. rewrite firstn_app.
  replace (k - length l1)%nat with 0%nat by lia.
  cbn. apply app_nil_r.
Qed.

Lemma special_packings_entry (fuel : nat) (o w a n n2 o_ w_ a_ ar' : Z)
    (p'' : list Z) (c ar : Z) (pb : option (list Z)) :
  special_packings (S fuel) o w a n (n2 :: o_ :: w_ :: a_ :: ar' :: p'')
    c ar pb
  = if n2 =? 0 then (c, ar, pb)
    else if n2 <? c then (c, ar, pb)
    else if (a <=? a_) && (o + w + ALIGN (o_ - o) a <=? o_ + w_)
    then (Z.min n2 n, ar', Some p'')
    else special_packings fuel o w a n
           (skipn (Z.to_nat (1 + n2 * 2)) (ar' :: p'')) c ar pb.
Proof. reflexivity. Qed.

Lemma special_packings_end (fuel : nat) (o w a n c ar : Z)
    (pb : option (list Z)) :
  special_packings fuel o w a n [0] c ar pb = (c, ar, pb).
Proof. destruct fuel; reflexivity. Qed.

(** The walk over the flat table agrees with [table_pick] on the count,
    the area and the bytes that are copied out. *)
Lemma special_packings_table_pick (o w a n : Z) (cur : candidate)
    (packing : list Z) (rD : Z * Z * list Z) :
  0 <= n ->
  let t := special_packings (length packings) o w a n packings
             (cand_count cur) (cand_area cur) (cand_buffer cur) in
  let t' := table_pick o w a n specials cur in
  fst t = fst t'
  /\ together_result packing t rD = together_result packing t' rD.
Proof.
  intros Hn t t'. subst t t'. destruct cur as [[c ar] pb].
  unfold cand_count, cand_area, cand_buffer. cbn [fst snd].
  unfold packings, specials. cbn [length table_pick].
  unfold compatible, cand_count.
  cbn [fst snd sp_n sp_o sp_w sp_a sp_area sp_pairs].
  rewrite special_packings_entry.
  change (9 =? 0) with false. cbv iota.
  destruct (9 <? c); [split; reflexivity|].
  destruct ((a <=? 4) && (o + w + ALIGN (2 - o) a <=? 2 + 4)).
  - split; [reflexivity|].
    unfold together_result, cand_count, cand_buffer, cand_area, memcpy.
    cbn [fst snd].
    destruct (Z.min 9 n =? 0); [reflexivity|].
    f_equal. f_equal.
    change [2; 33; 6; 35; 10; 37; 14; 39; 18; 41; 46; 23; 50; 25; 54; 27;
            58; 29; 3; 0; 12; 4; 64; 0; 32; 12; 38; 48; 24; 0]
      with ([2; 33; 6; 35; 10; 37; 14; 39; 18; 41; 46; 23; 50; 25; 54; 27;
             58; 29] ++ [3; 0; 12; 4; 64; 0; 32; 12; 38; 48; 24; 0]).
    apply firstn_app_short. cbn [length]. lia.
  - match goal with
    | |- context [skipn ?k ?l] =>
      let t := eval vm_compute in (skipn k l) in change (skipn k l) with t
    end.
    rewrite special_packings_entry.
    change (3 =? 0) with false. cbv iota.
    destruct (3 <? c); [split; reflexivity|].
    destruct ((a <=? 4) && (o + w + ALIGN (0 - o) a <=? 0 + 12)).
    + split; [reflexivity|].
      unfold together_result, cand_count, cand_buffer, cand_area, memcpy.
      cbn [fst snd].
      destruct (Z.min 3 n =? 0); [reflexivity|].
      f_equal. f_equal.
      change [0; 32; 12; 38; 48; 24; 0] with ([0; 32; 12; 38; 48; 24] ++ [0]).
      apply firstn_app_short. cbn [length]. lia.
    + match goal with
      | |- context [skipn ?k ?l] =>
        let t := eval vm_compute in (skipn k l) in change (skipn k l) with t
      end.
      rewrite special_packings_end. split; reflexivity.
Qed.

(** The rule of [nv12_together] in terms of the results of the
    generators it consults: a generator has to give a result only when
    it is consulted, that is, while the count is short of [n] (and D
    only when the count is zero after the table). *)
Lemma nv12_together_rule (stack : list Z) (o w a n area : Z)
    (packing : list Z) (rA rRA rB rC rD : Z * Z * list Z) :
  0 <= n ->
  nv12_A o w a n = Some rA ->
  let c1 := generated stack rA in
  (cand_count c1 < n -> nv12_revA o w a n = Some rRA) ->
  let c2 := better n c1 (generated stack rRA) in
  (cand_count c2 < n -> nv12_B o w a n = Some rB) ->
  let c3 := better n c2 (generated stack rB) in
  (cand_count c3 < n -> nv12_C o w a n = Some rC) ->
  let c4 := better n c3 (generated stack rC) in
  let c5 := table_pick o w a n specials c4 in
  (cand_count c5 = 0 -> nv12_D o w a n = Some rD) ->
  nv12_together stack o w a n area packing
  = Some (together_result packing c5 rD).
Proof.
  intros Hn HA c1 HRA c2 HB c3 HC c4 c5 HD.
  unfold nv12_together. rewrite HA.
  assert (Ha1 : cand_area c1 = 64).
  { subst c1. destruct rA as [[m ar] p]. cbn.
    exact (nv12_A_area _ _ _ _ _ _ _ HA). }
  destruct rA as [[mA arA] pA]. cbn [bind].
  change (u16 mA, arA, Some (local_array stack pA)) with c1.
  destruct (try_generator_better nv12_revA stack o w a n c1 rRA
              (nv12_revA_area o w a n) Ha1 HRA) as [E2 Ha2].
  rewrite E2. cbn [bind]. fold c2 in Ha2 |- *.
  destruct (try_generator_better nv12_B stack o w a n c2 rB
              (nv12_B_area o w a n) Ha2 HB) as [E3 Ha3].
  rewrite E3. cbn [bind]. fold c3 in Ha3 |- *.
  destruct (try_generator_better nv12_C stack o w a n c3 rC
              (nv12_C_area o w a n) Ha3 HC) as [E4 Ha4].
  rewrite E4. cbn [bind]. fold c4 in Ha4 |- *.
  destruct (special_packings_table_pick o w a n c4 packing rD Hn)
    as [Hfst Hres].
  fold c5 in Hfst, Hres. rewrite <- Hres.
  assert (Hcount : cand_count c5
                   = cand_count (special_packings (length packings) o w a n
                       packings (cand_count c4) (cand_area c4)
                       (cand_buffer c4))).
  { exact (f_equal fst (eq_sym Hfst)). }
  clear Hfst Hres. revert Hcount.
  destruct c4 as [[n4 ar4] pb4].
  unfold cand_count at 3, cand_area, cand_buffer. cbn [fst snd].
  destruct (special_packings _ _ _ _ _ _ _ _ _) as [[nb ar] pb].
  unfold cand_count at 2. cbn [fst snd]. intros Hcount.
  unfold together_result, cand_count, cand_area, cand_buffer. cbn [fst snd].
  destruct (Z.eqb_spec nb 0) as [Hz|Hnz].
  - rewrite (HD ltac:(lia)). destruct rD as [[mD arD] pD]. cbn [bind fst snd].
    reflexivity.
  - cbn [bind]. destruct pb as [src|]; [|reflexivity].
    destruct (Z.eqb_spec nb 0); [contradiction|reflexivity].
Qed.

Lemma nv12_C_total (o w a j n : Z) :
  0 <= j <= 15 -> a = 2 ^ j -> 0 < w < 32768 ->
  exists r, nv12_C o w a n = Some r.
Proof.
  intros Hj Ha Hw. pose proof (a_range a j Hj Ha) as Har.
  pose proof (ALIGN_bounds a j (proj1 Hj) Ha w) as Hal.
  unfold nv12_C, irem, idiv.
  destruct (Z.eqb_spec a 0) as [E|_]; [lia|]. cbn [bind].
  rewrite (u16_small (ALIGN w a)) by lia.
  destruct (Z.eqb_spec (ALIGN w a) 0) as [E|_]; [lia|]. cbn [bind].
  destruct (nv12_C_loop _ _ _ _ _ _ _ _ _ _ _) as [jj p].
  eexists. reflexivity.
Qed.

(** C5 (as amended).  For a valid request every generator gives a
    result, and [nv12_together] returns what the following rule
    selects.  The generators count in the order A, reverse-A, B, C,
    each only while the count is short of [n], and among them a later
    candidate replaces the incumbent only when it places strictly more
    pairs ([better]).  A table entry that is compatible and whose
    count is not below the incumbent's replaces it even on a tie,
    capped at [n] ([table_pick]).  Generator D counts only when the
    count is then zero; the count returned is then D's, and no packing
    is copied out ([together_result]). *)
Theorem nv12_together_selection (stack : list Z) (o w a j n area : Z)
    (packing : list Z) :
  1 <= j <= 15 -> a = 2 ^ j -> 0 <= o < a -> 0 < w < 32768 ->
  0 <= n < 65536 ->
  exists rA rRA rB rC rD,
    nv12_A o w a n = Some rA /\ nv12_revA o w a n = Some rRA
    /\ nv12_B o w a n = Some rB /\ nv12_C o w a n = Some rC
    /\ nv12_D o w a n = Some rD
    /\ nv12_together stack o w a n area packing
       = Some (together_result packing
                 (table_pick o w a n specials
                    (better n
                       (better n
                          (better n (generated stack rA)
                             (generated stack rRA))
                          (generated stack rB))
                       (generated stack rC)))
                 rD).
Proof.
  intros Hj Ha Ho Hw Hn.
  pose proof (a_range a j ltac:(lia) Ha) as Har.
  destruct (nv12_A_contained o w a j n ltac:(lia) Ha ltac:(lia) ltac:(lia) Hn)
    as (mA & pA & HA & _).
  destruct (nv12_revA_contained o w a j n ltac:(lia) Ha ltac:(lia)
              ltac:(lia) Hn) as (mR & pR & HR & _).
  destruct (nv12_B_contained o w a j n ltac:(lia) Ha ltac:(lia) ltac:(lia) Hn)
    as (mB & pB & HB & _).
  destruct (nv12_C_total o w a j n ltac:(lia) Ha Hw) as (rC & HC).
  destruct (nv12_D_contained o w a j n ltac:(lia) Ha ltac:(lia) ltac:(lia))
    as (mD & arD & pD & HD & _).
  exists (mA, 64, pA), (mR, 64, pR), (mB, 64, pB), rC, (mD, arD, pD).
  repeat (split; [assumption|]).
  apply nv12_together_rule; try assumption; try lia; intros _; assumption.
Qed.

Lemma nv12_together_selection_witness :
  exists rA rRA rB rC rD,
    nv12_A 2 4 4 8 = Some rA /\ nv12_revA 2 4 4 8 = Some rRA
    /\ nv12_B 2 4 4 8 = Some rB /\ nv12_C 2 4 4 8 = Some rC
    /\ nv12_D 2 4 4 8 = Some rD
    /\ nv12_together [] 2 4 4 8 0 []
       = Some (together_result []
                 (table_pick 2 4 4 8 specials
                    (better 8
                       (better 8
                          (better 8 (generated [] rA) (generated [] rRA))
                          (generated [] rB))
                       (generated [] rC)))
                 rD).
Proof.
  apply (nv12_together_selection [] 2 4 4 2 8 0 []);
    first [reflexivity | lia].
Defined.

(** C5, counterexample.  For [o = 2], [w = 4], [a = 4] and [n = 8]
    generator A already places all 8 pairs, yet the packing that is
    copied out is the one of the first table entry: the later
    candidate replaces the incumbent on a tie. *)
Lemma nv12_together_tie_goes_to_table :
  nv12_A 2 4 4 8
  = Some (8, 64, [2; 33; 6; 35; 10; 37; 14; 39; 18; 41;
                  22; 43; 26; 45; 50; 57])
  /\ nv12_together [] 2 4 4 8 0 []
     = Some (8, 64, [2; 33; 6; 35; 10; 37; 14; 39; 18; 41;
                     46; 23; 50; 25; 54; 27]).
Proof. split; vm_compute; reflexivity. Qed.

(** ** The separate-path commit of [reserve_nv12] *)

Section SeparateCommit.

Variables St Blk : Type.
Variable ops : tiler_ops St Blk.

(** A [lay_2d] on the local list leaves [gi->reserved] alone and adds
    one event. *)
Lemma do_lay_2d_local (fmt n w h band a o : Z) (s : world St Blk) :
  let out := do_lay_2d ops fmt n w h band a o L_reserved s in
  gi_reserved (snd out) = gi_reserved s
  /\ trace (snd out)
     = trace s
       ++ [Ev_lay_2d fmt n w h band a o L_reserved (fst out)]
  /\ exists bs, reserved (snd out) = bs ++ reserved s.
Proof.
  unfold do_lay_2d. destruct (lay_2d ops fmt n w h band a o _)
    as [[r bs] st]. cbn. repeat split. exists bs. reflexivity.
Qed.

(** C1.  In the separate-path commit the 16-bit [lay_2d] is called only
    after the 8-bit one succeeded; when either fails or the two counts
    differ, the local list (with every block laid in the attempt) is
    handed to [release], the result is -1 and [gi->reserved] is as
    before; the local list is merged by [add_reserved] only when both
    calls succeeded with the same count. *)
Theorem separate_commit_all_or_nothing (n_s w h band a o : Z)
    (s : world St Blk) :
  let c8 := do_lay_2d ops TILFMT_8BIT n_s w h band a o L_reserved s in
  let c16 := do_lay_2d ops TILFMT_16BIT n_s (Z.quot (w + 1) 2) h
               (Z.quot band 2) (Z.quot a 2) (Z.quot o 2) L_reserved
               (snd c8) in
  let out := separate_commit ops n_s w h band a o s in
  let e8 := Ev_lay_2d TILFMT_8BIT n_s w h band a o L_reserved (fst c8) in
  let e16 := Ev_lay_2d TILFMT_16BIT n_s (Z.quot (w + 1) 2) h
               (Z.quot band 2) (Z.quot a 2) (Z.quot o 2) L_reserved
               (fst c16) in
  reserved (snd out) = []
  /\ (fst c8 < 0 ->
      fst out = -1
      /\ trace (snd out)
         = trace s ++ [e8; Ev_release L_reserved]
      /\ alloc (snd out)
         = release ops (reserved (snd c8))
             (alloc (snd c8))
      /\ gi_reserved (snd out) = gi_reserved s)
  /\ (0 <= fst c8 -> fst c16 < 0 \/ fst c16 <> fst c8 ->
      fst out = -1
      /\ trace (snd out)
         = trace s ++ [e8; e16; Ev_release L_reserved]
      /\ alloc (snd out)
         = release ops (reserved (snd c16))
             (alloc (snd c16))
      /\ gi_reserved (snd out) = gi_reserved s)
  /\ (0 <= fst c8 -> 0 <= fst c16 -> fst c16 = fst c8 ->
      fst out = fst c8
      /\ trace (snd out)
         = trace s ++ [e8; e16; Ev_add_reserved]
      /\ gi_reserved (snd out)
         = reserved (snd c16) ++ gi_reserved s).
Proof.
  intros c8 c16 out e8 e16. subst c8 c16 out e8 e16.
  unfold separate_commit, do_lay_2d.
  destruct (lay_2d ops TILFMT_8BIT n_s w h band a o (alloc s))
    as [[r1 bs1] st1]. cbn.
  destruct (Z.ltb_spec r1 0) as [Hneg|Hpos].
  - rewrite (proj2 (Z.ltb_lt r1 0) Hneg). cbn.
    rewrite <- !app_assoc. cbn.
    repeat split; try lia; try reflexivity.
  - destruct (lay_2d ops TILFMT_16BIT n_s (Z.quot (w + 1) 2) h
                (Z.quot band 2) (Z.quot a 2) (Z.quot o 2) st1)
      as [[r2 bs2] st2]. cbn.
    destruct (Z.ltb_spec r2 0) as [Hneg2|Hpos2]; cbn.
    + rewrite <- !app_assoc. cbn.
      repeat split; try lia; try reflexivity.
    + destruct (Z.eqb_spec r1 r2) as [Heq|Hne]; cbn;
        rewrite <- !app_assoc; cbn;
        repeat split; try lia; try reflexivity.
Qed.

End SeparateCommit.

(** ** The loop of [reserve_nv12] *)

Section Nv12Loop.

Variables St Blk : Type.
Variable ops : tiler_ops St Blk.

Lemma extends_refl (s : world St Blk) : extends St Blk s s.
Proof.
  split; [exists []; reflexivity|exists []; symmetry; apply app_nil_r].
Qed.

Lemma extends_trans (s1 s2 s3 : world St Blk) :
  extends St Blk s1 s2 -> extends St Blk s2 s3 -> extends St Blk s1 s3.
Proof.
  intros [[l1 H1] [t1 T1]] [[l2 H2] [t2 T2]]. split.
  - exists (l2 ++ l1). rewrite H2, H1. apply app_assoc.
  - exists (t1 ++ t2). rewrite T2, T1. symmetry. apply app_assoc.
Qed.

Lemma extends_log (ev : event) (s : world St Blk) : extends St Blk s (log ev s).
Proof. split; [exists []; reflexivity|exists [ev]; reflexivity]. Qed.

Lemma do_analize_extends (fmt wd ht a o : Z) (s : world St Blk) :
  extends St Blk s (snd (do_analize ops fmt wd ht a o s))
  /\ trace (snd (do_analize ops fmt wd ht a o s))
     = trace s ++ [Ev_analize fmt wd ht a o].
Proof.
  unfold do_analize. destruct (analize ops fmt wd ht a o (alloc s))
    as [[r out] st]. cbn.
  split; [split; [exists []|eexists]; reflexivity|reflexivity].
Qed.

Lemma do_get_gi_extends (gid : Z) (s : world St Blk) :
  extends St Blk s (snd (do_get_gi ops gid s)).
Proof.
  unfold do_get_gi. destruct (get_gi ops gid (alloc s)) as [found st]. cbn.
  split; [exists []|eexists]; reflexivity.
Qed.

Lemma do_release_gi_extends (s : world St Blk) :
  extends St Blk s (do_release_gi ops s).
Proof. split; [exists []|eexists]; reflexivity. Qed.

Lemma do_lay_2d_gi_extends (fmt n w h band a o : Z) (s : world St Blk) :
  extends St Blk s (snd (do_lay_2d ops fmt n w h band a o L_gi s)).
Proof.
  unfold do_lay_2d. destruct (lay_2d ops fmt n w h band a o (alloc s))
    as [[r bs] st]. cbn.
  split; [exists bs|eexists]; reflexivity.
Qed.

Lemma separate_commit_extends (n_s w h band a o : Z) (s : world St Blk) :
  extends St Blk s (snd (separate_commit ops n_s w h band a o s)).
Proof.
  unfold separate_commit, do_lay_2d.
  destruct (lay_2d ops TILFMT_8BIT n_s w h band a o (alloc s))
    as [[r1 bs1] st1]. cbn.
  destruct (Z.ltb_spec r1 0) as [Hneg|Hpos].
  - rewrite (proj2 (Z.ltb_lt r1 0) Hneg). cbn.
    split; [exists []|eexists]; cbn;
      [reflexivity|rewrite <- app_assoc; reflexivity].
  - destruct (lay_2d ops TILFMT_16BIT n_s (Z.quot (w + 1) 2) h
                (Z.quot band 2) (Z.quot a 2) (Z.quot o 2) st1)
      as [[r2 bs2] st2]. cbn.
    destruct ((r2 <? 0) || negb (r1 =? r2)); cbn;
      (split; [eexists|eexists]; cbn;
        [try reflexivity|rewrite <- !app_assoc; reflexivity]).
    exact (eq_refl : gi_reserved s = [] ++ gi_reserved s).
Qed.

Lemma do_lay_nv12_extends (n area w h : Z) (p : list Z) (s : world St Blk) :
  extends St Blk s (snd (do_lay_nv12 ops n area w h p s)).
Proof.
  unfold do_lay_nv12.
  destruct (lay_nv12 ops n area w h p (alloc s)) as [[r bs] st]. cbn.
  split; [exists bs|eexists]; reflexivity.
Qed.

Lemma nv12_round_extends (stack : list Z) (can : bool)
    (n i w h band a o : Z) (loc loc' : nv12_locals) (s s' : world St Blk)
    (res : Z) :
  nv12_round ops stack can n i w h band a o loc s = Some (res, loc', s') ->
  extends St Blk s s'.
Proof.
  unfold nv12_round.
  destruct (nv12_separate _ _ _ _ _ _) as [[n_s ar_s]|];
    cbn [bind]; [|discriminate].
  match goal with
  | |- context [bind ?x _] => destruct x as [[[n_t ar_t] pk]|]
  end; cbn [bind]; [|discriminate].
  match goal with
  | |- context [bind ?x _] => destruct x as [sep|]
  end; cbn [bind]; [|discriminate].
  pose proof (separate_commit_extends n_s w h band a o s) as Hsep.
  destruct sep.
  - destruct (separate_commit ops n_s w h band a o s) as [r1 s1].
    cbn [snd] in Hsep.
    destruct ((r1 <? 0) && can && negb (n_t =? 0)).
    + pose proof (do_lay_nv12_extends n_t ar_t w h pk s1) as Hl.
      destruct (do_lay_nv12 ops n_t ar_t w h pk s1) as [r2 s2].
      cbn [snd] in Hl. intros E. inversion E. subst.
      exact (extends_trans _ _ _ Hsep Hl).
    + intros E. inversion E. subst. exact Hsep.
  - destruct ((-1 <? 0) && can && negb (n_t =? 0)).
    + pose proof (do_lay_nv12_extends n_t ar_t w h pk s) as Hl.
      destruct (do_lay_nv12 ops n_t ar_t w h pk s) as [r2 s2].
      cbn [snd] in Hl. intros E. inversion E. subst. exact Hl.
    + intros E. inversion E. subst. apply extends_refl.
Qed.

(** Whatever the loop ends with extends St Blk the world it started from. *)
Lemma nv12_loop_extends (fuel : nat) (stack : list Z) (can : bool)
    (n w h band a o : Z) :
  forall i res loc s s',
    nv12_loop ops fuel stack can n w h band a o i res loc s = Returned s'
    \/ nv12_loop ops fuel stack can n w h band a o i res loc s = Stuck s' ->
    extends St Blk s s'.
Proof.
  induction fuel as [|fuel IH]; intros i res loc s s' Hend.
  - cbn in Hend. destruct Hend; discriminate.
  - cbn [nv12_loop] in Hend.
    destruct ((u32 i <? n) && (0 <=? res)).
    + destruct (nv12_round ops stack can n i w h band a o loc s)
        as [[[res' loc'] s1]|] eqn:Hround.
      * pose proof (nv12_round_extends _ _ _ _ _ _ _ _ _ _ _ _ _ _ Hround)
          as Hext.
        exact (extends_trans _ _ _ Hext (IH _ _ _ _ _ Hend)).
      * destruct Hend as [E|E]; inversion E. subst. apply extends_refl.
    + destruct Hend as [E|E]; inversion E. subst. apply do_release_gi_extends.
Qed.




End Nv12Loop.

(** ** The validation at the head of the entry points *)

Section Validation.

Variables St Blk : Type.
Variable ops : tiler_ops St Blk.

Lemma blocks_try_extends (fuel : nat) (fmt w h band a o : Z) :
  forall n_try res s,
    extends St Blk s (snd (blocks_try ops fuel fmt w h band a o n_try res s)).
Proof.
  induction fuel as [|fuel IH]; intros n_try res s; cbn [blocks_try].
  - apply extends_refl.
  - destruct (1 <? n_try); [|apply extends_refl].
    pose proof (do_lay_2d_gi_extends St Blk ops fmt n_try w h band a o s)
      as Hlay.
    destruct (do_lay_2d ops fmt n_try w h band a o L_gi s) as [r s1].
    cbn [snd] in Hlay.
    destruct (0 <=? u32 r); [exact Hlay|].
    exact (extends_trans _ _ _ _ _ Hlay (IH _ _ _)).
Qed.

Lemma blocks_loop_extends (fuel : nat) (fmt n offs w h band a o e : Z) :
  forall i res s s',
    blocks_loop ops fuel fmt n offs w h band a o e i res s = Returned s'
    \/ blocks_loop ops fuel fmt n offs w h band a o e i res s = Stuck s' ->
    extends St Blk s s'.
Proof.
  induction fuel as [|fuel IH]; intros i res s s' Hend.
  - cbn in Hend. destruct Hend; discriminate.
  - cbn [blocks_loop] in Hend.
    destruct ((i <? n) && (0 <=? res)).
    + destruct (tiler_best2pack _ _ _ _ _ _ _) as [[[r n_try] ar]|].
      * pose proof (blocks_try_extends (Z.to_nat n_try) fmt w h band a o
                      n_try (u32 (-1)) s) as Htry.
        destruct (blocks_try ops (Z.to_nat n_try) fmt w h band a o n_try
                    (u32 (-1)) s) as [res' s1].
        cbn [snd] in Htry.
        exact (extends_trans _ _ _ _ _ Htry (IH _ _ _ _ Hend)).
      * destruct Hend as [E|E]; inversion E. subst. apply extends_refl.
    + destruct Hend as [E|E]; inversion E. subst.
      apply do_release_gi_extends.
Qed.

Lemma trace_grew (s s1 s' : world St Blk) (ev : event) :
  trace s1 = trace s ++ [ev] -> extends St Blk s1 s' -> s' <> s.
Proof.
  intros H1 [_ [t Ht]] ->. rewrite H1 in Ht.
  apply (f_equal (@length event)) in Ht.
  rewrite !length_app in Ht. cbn in Ht. lia.
Qed.

Lemma reserve_nv12_at_once (fuel : nat) (stack : list Z) (loc : nv12_locals)
    (n wd ht align offs gid : Z) (can : bool) (s : world St Blk) :
  reserve_nv12 ops fuel stack loc n wd ht align offs gid can s = Returned s
  <-> nv12_rejects ops n wd ht align offs = true.
Proof.
  unfold reserve_nv12.
  destruct (nv12_rejects ops n wd ht align offs); [tauto|].
  split; [|discriminate]. intros Hend. exfalso.
  pose proof (do_analize_extends St Blk ops TILFMT_8BIT wd ht
                (u16 (MAX (Z.quot PAGE_SIZE (MIN band_8 band_16)) (u16 align)))
                (u16 offs) s) as [_ Htr].
  destruct (do_analize ops TILFMT_8BIT wd ht _ _ s)
    as [[r [[[[w h] band] a] o]] s1]. cbn [snd] in Htr.
  destruct (negb (r =? 0)).
  { inversion Hend as [E].
    exact (trace_grew s s1 s1 _ Htr (extends_refl _ _ s1) E). }
  pose proof (do_get_gi_extends St Blk ops gid s1) as Hgi.
  destruct (do_get_gi ops gid s1) as [found s2]. cbn [snd] in Hgi.
  destruct (negb found).
  { inversion Hend as [E]. exact (trace_grew s s1 s2 _ Htr Hgi E). }
  pose proof (nv12_loop_extends St Blk ops fuel stack can n w h band a o
                0 0 loc s2 s (or_introl Hend)) as Hloop.
  exact (trace_grew s s1 s _ Htr (extends_trans _ _ _ _ _ Hgi Hloop) eq_refl).
Qed.

Lemma reserve_blocks_at_once (fuel : nat) (n fmt wd ht align offs gid : Z)
    (s : world St Blk) :
  reserve_blocks ops fuel n fmt wd ht align offs gid s = Returned s
  <-> blocks_rejects n fmt wd ht align offs = true.
Proof.
  unfold reserve_blocks.
  destruct (blocks_rejects n fmt wd ht align offs); [tauto|].
  split; [|discriminate]. intros Hend. exfalso.
  destruct (geom ops fmt) as [slot_w bpp].
  assert (Htr : trace (log (Ev_geom fmt) s) = trace s ++ [Ev_geom fmt])
    by reflexivity.
  set (s0 := log (Ev_geom fmt) s) in *.
  destruct (u32 (u32 (wd * bpp) * 2) <=? PAGE_SIZE).
  { inversion Hend as [E].
    exact (trace_grew s s0 s0 _ Htr (extends_refl _ _ s0) E). }
  pose proof (do_analize_extends St Blk ops fmt wd ht (u16 align) (u16 offs)
                s0) as [Han _].
  destruct (do_analize ops fmt wd ht _ _ s0)
    as [[r [[[[w h] band] a] o]] s1]. cbn [snd] in Han.
  destruct (negb (r =? 0)).
  { inversion Hend as [E]. exact (trace_grew s s0 s1 _ Htr Han E). }
  pose proof (do_get_gi_extends St Blk ops gid s1) as Hgi.
  destruct (do_get_gi ops gid s1) as [found s2]. cbn [snd] in Hgi.
  destruct (negb found).
  { inversion Hend as [E].
    exact (trace_grew s s0 s2 _ Htr (extends_trans _ _ _ _ _ Han Hgi) E). }
  pose proof (blocks_loop_extends fuel fmt n offs w h band a o
                (u16 (ALIGN w a)) 0 0 s2 s (or_introl Hend)) as Hloop.
  exact (trace_grew s s0 s _ Htr
           (extends_trans _ _ _ _ _ Han (extends_trans _ _ _ _ _ Hgi Hloop))
           eq_refl).
Qed.

End Validation.

(** C9 (as amended).  [reserve_nv12] returns at once, with nothing
    asked of the allocator, exactly when the width, height or count is
    zero, the offset is not below the alignment, the offset is odd,
    the alignment is not below the page size, or the count exceeds
    half the slots of the container.  [reserve_blocks] does so exactly
    when the width, height or count is zero, the alignment exceeds the
    page size, the offset is not below the alignment, or the format is
    not one of the 8, 16 and 32-bit ones. *)
Theorem reserve_validation (St Blk : Type) (ops : tiler_ops St Blk)
    (fuel : nat) (stack : list Z) (loc : nv12_locals)
    (n fmt wd ht align offs gid : Z) (can : bool) (s : world St Blk) :
  (reserve_nv12 ops fuel stack loc n wd ht align offs gid can s = Returned s
   <-> (wd = 0 \/ ht = 0 \/ n = 0 \/ align <= offs \/ Z.land offs 1 <> 0
        \/ PAGE_SIZE <= align
        \/ Z.quot (u32 (width ops * height ops)) 2 < n))
  /\ (reserve_blocks ops fuel n fmt wd ht align offs gid s = Returned s
      <-> (wd = 0 \/ ht = 0 \/ n = 0 \/ PAGE_SIZE < align \/ align <= offs
           \/ fmt < TILFMT_8BIT \/ TILFMT_32BIT < fmt)).
Proof.
  split.
  - rewrite reserve_nv12_at_once. unfold nv12_rejects.
    rewrite !orb_true_iff, negb_true_iff, !Z.eqb_eq, Z.eqb_neq, !Z.leb_le,
      Z.ltb_lt.
    tauto.
  - rewrite reserve_blocks_at_once. unfold blocks_rejects.
    rewrite !orb_true_iff, !Z.eqb_eq, !Z.ltb_lt, Z.leb_le.
    tauto.
Qed.

(** C9, counterexample.  A request for one pair of 64 by 64 pixels with
    the alignment equal to the page size, and one with an odd offset,
    satisfy the invariant of the spec, yet [reserve_nv12] turns both
    down ([reserve_blocks] lets them through its first test). *)
Lemma reserve_nv12_rejects_valid_request :
  request_invariant 1 64 64 4096 0 = true
  /\ reserve_nv12 (demo_ops (2, 1, 64, 2, 0) (fun n => n)) 5 [] no_locals
       1 64 64 4096 0 0 false empty_world = Returned empty_world
  /\ request_invariant 1 64 64 256 65 = true
  /\ reserve_nv12 (demo_ops (2, 1, 64, 2, 0) (fun n => n)) 5 [] no_locals
       1 64 64 256 65 0 false empty_world = Returned empty_world
  /\ blocks_rejects 1 TILFMT_8BIT 64 64 4096 0 = false
  /\ blocks_rejects 1 TILFMT_8BIT 64 64 256 65 = false.
Proof. repeat split; vm_compute; reflexivity. Qed.

(** ** [reserve_blocks]: the retry with a smaller count *)

(** X3.  Since [res] is unsigned, the test [res >= 0] after [lay_2d] always
    holds: whatever the allocator answers, the inner loop ends after
    its first call. *)
Lemma blocks_try_single_call (St Blk : Type) (ops : tiler_ops St Blk)
    (fuel : nat) (fmt w h band a o n_try res : Z) (s : world St Blk) :
  blocks_try ops (S fuel) fmt w h band a o n_try res s
  = if 1 <? n_try
    then (u32 (fst (do_lay_2d ops fmt n_try w h band a o L_gi s)),
          snd (do_lay_2d ops fmt n_try w h band a o L_gi s))
    else (res, s).
Proof.
  cbn [blocks_try]. destruct (1 <? n_try); [|reflexivity].
  destruct (do_lay_2d ops fmt n_try w h band a o L_gi s) as [r s1].
  cbn [fst snd]. pose proof (u32_range r) as Hr.
  destruct (Z.leb_spec 0 (u32 r)); [reflexivity|lia].
Qed.

(** C8, the code at the failing input.  The allocator turns down a
    commit of 3 blocks and would accept 2.  [reserve_blocks], asked
    for 3 blocks, calls [lay_2d] once, with 3, and returns with nothing
    reserved: it does not try 2. *)
Theorem reserve_blocks_does_not_retry :
  let ops := demo_ops (42, 1, 64, 64, 0) (fun n => if n =? 3 then -12 else n) in
  fst (fst (lay_2d ops TILFMT_8BIT 3 42 1 64 64 0 tt)) = -12
  /\ fst (fst (lay_2d ops TILFMT_8BIT 2 42 1 64 64 0 tt)) = 2
  /\ reserve_blocks ops 5 3 TILFMT_8BIT 2560 64 4096 32 0 empty_world
     = Returned
         {| alloc := tt; reserved := []; gi_reserved := [];
            trace := [Ev_geom 0; Ev_analize 0 2560 64 4096 32; Ev_get_gi 0;
                      Ev_lay_2d 0 3 42 1 64 64 0 L_gi (-12);
                      Ev_release_gi] |}.
Proof. repeat split; vm_compute; reflexivity. Qed.

(** ** [nv12_eff] and a count of zero *)

Lemma best2pack_loop_count (W : Z) (fuel : nat) (o w e b max_n stride : Z) :
  max_n < 65536 ->
  forall m ar best n area r n' area',
    0 <= m -> 1 <= n <= max_n ->
    best2pack_loop W fuel o w e b max_n stride m ar best n area
      = Some (r, n', area') ->
    1 <= n' <= max_n.
Proof.
  intros Hmax. induction fuel as [|fuel IH];
    intros m ar best n area r n' area' Hm Hn; cbn [best2pack_loop].
  - intros E. inversion E. subst. exact Hn.
  - destruct (Z.ltb_spec m max_n) as [Hlt|Hge]; cbn [andb].
    + match goal with
      | |- context [if ?c then _ else _] => destruct c
      end.
      * destruct (idiv _ _) as [q|]; cbn [bind]; [|discriminate].
        rewrite (u16_small (m + 1)) by lia.
        destruct (best <? u32 q); apply IH; lia.
      * intros E. inversion E. subst. exact Hn.
    + intros E. inversion E. subst. exact Hn.
Qed.

(** X2.  For a request of at least one pair
    [nv12_separate] never returns a count of zero. *)
Lemma nv12_separate_count_positive (W o w a n area c area' : Z) :
  1 <= n < 65536 ->
  nv12_separate W o w a n area = Some (c, area') -> 1 <= c <= n.
Proof.
  intros Hn. unfold nv12_separate, tiler_best2pack.
  destruct (best2pack_loop W (Z.to_nat n) _ _ _ _ _ _ _ _ _ _ _)
    as [[[r1 n1] ar1]|] eqn:H1; cbn [bind]; [|discriminate].
  apply best2pack_loop_count in H1; try lia.
  destruct (best2pack_loop W (Z.to_nat n1) _ _ _ _ _ _ _ _ _ _ _)
    as [[[r2 n2] ar2]|] eqn:H2; cbn [bind]; [|discriminate].
  apply best2pack_loop_count in H2; try lia.
  intros E. inversion E. subst. lia.
Qed.

Lemma nv12_separate_count_positive_witness : 1 <= 1 <= 3.
Proof.
  apply (nv12_separate_count_positive 256 2 256 4 3 0 1 480);
    first [reflexivity | lia].
Defined.

(** C10, the code at the failing input.  For a block of 32 slots at
    offset 2 with an alignment of 32 slots no generator places a pair,
    so [nv12_together] returns zero; [reserve_nv12], allowed to pack
    together, then calls [nv12_eff] with that count and divides by
    it. *)
Theorem reserve_nv12_divides_by_zero :
  nv12_separate 256 2 32 32 1 0 = Some (1, 96)
  /\ nv12_together [] 2 32 32 1 0 [] = Some (0, 64, [])
  /\ nv12_eff 1 32 96 1 = Some 268432896
  /\ nv12_eff 0 32 64 1 = None
  /\ reserve_nv12 (demo_ops (32, 1, 64, 32, 2) (fun n => n)) 5 [] no_locals
       1 2048 16 2048 128 0 true empty_world
     = Stuck
         {| alloc := tt; reserved := []; gi_reserved := [];
            trace := [Ev_analize 0 2048 16 2048 128; Ev_get_gi 0] |}.
Proof. repeat split; vm_compute; reflexivity. Qed.

(** ** [nv12_eff]: the ranking *)

Lemma nv12_eff_value (n w area need : Z) :
  1 <= n -> 0 < w -> 0 <= need -> 0 < area <= 1024 ->
  n * pair_width w <= area ->
  total_area n area need <= 8388608 ->
  nv12_eff n w area need
  = Some (268435456 - total_area n area need * 32 + eff_term n w area)
  /\ 0 <= total_area n area need
  /\ 0 < eff_term n w area <= 1024.
Proof.
  intros Hn Hw Hneed Har Hfit Htot.
  unfold total_area, eff_term, pair_width in *.
  assert (Hpw : 1 <= Z.shiftr (w * 3 + 1) 1).
  { rewrite shiftr1. apply Z.div_le_lower_bound; lia. }
  set (pw := Z.shiftr (w * 3 + 1) 1) in *.
  assert (Hd : 0 <= Z.quot (need + n - 1) n).
  { rewrite Z.quot_div_nonneg by lia. apply Z.div_pos; lia. }
  set (d := Z.quot (need + n - 1) n) in *.
  assert (Hq : 0 < Z.quot (1024 * n * pw) area <= 1024).
  { rewrite Z.quot_div_nonneg by nia. split.
    - apply Z.div_str_pos. nia.
    - apply Z.div_le_upper_bound; nia. }
  set (q := Z.quot (1024 * n * pw) area) in *.
  split; [|split; [nia|exact Hq]].
  unfold nv12_eff, DIV_ROUND_UP, idiv.
  destruct (Z.eqb_spec n 0) as [E|_]; [lia|]. cbn [bind]. fold d. fold pw.
  assert (Hn1024 : 1024 * n <= 1048576) by nia.
  rewrite (imul_small 1024 n) by lia.
  rewrite (imul_small (1024 * n) pw) by nia.
  destruct (Z.eqb_spec area 0) as [E|_]; [lia|]. cbn [bind]. fold q.
  rewrite (imul_small d area) by nia.
  rewrite (imul_small (d * area) 32) by nia.
  rewrite (isub_small 268435456 (d * area * 32)) by nia.
  rewrite (iadd_small (268435456 - d * area * 32) q) by nia.
  rewrite u32_small by nia. reflexivity.
Qed.

(** X4.  "rank by total area needed first, then by efficiency": of two
    packings that fit their areas, with areas that are multiples of 32
    slots and at most 1024, the one that needs the smaller total area
    ranks strictly higher; with equal total areas the efficiency term
    decides. *)
Theorem nv12_eff_ranks (n1 n2 w area1 area2 need : Z) :
  1 <= n1 -> 1 <= n2 -> 0 < w -> 0 <= need ->
  0 < area1 <= 1024 -> 0 < area2 <= 1024 ->
  area1 mod 32 = 0 -> area2 mod 32 = 0 ->
  n1 * pair_width w <= area1 -> n2 * pair_width w <= area2 ->
  total_area n1 area1 need <= 8388608 ->
  total_area n2 area2 need <= 8388608 ->
  exists e1 e2,
    nv12_eff n1 w area1 need = Some e1
    /\ nv12_eff n2 w area2 need = Some e2
    /\ (total_area n1 area1 need < total_area n2 area2 need -> e2 < e1)
    /\ (total_area n1 area1 need = total_area n2 area2 need ->
        (e1 <= e2 <-> eff_term n1 w area1 <= eff_term n2 w area2)).
Proof.
  intros Hn1 Hn2 Hw Hneed Ha1 Ha2 Hm1 Hm2 Hf1 Hf2 Ht1 Ht2.
  destruct (nv12_eff_value n1 w area1 need Hn1 Hw Hneed Ha1 Hf1 Ht1)
    as (E1 & HT1 & Hq1).
  destruct (nv12_eff_value n2 w area2 need Hn2 Hw Hneed Ha2 Hf2 Ht2)
    as (E2 & HT2 & Hq2).
  rewrite E1, E2. eexists. eexists.
  split; [reflexivity|]. split; [reflexivity|]. split.
  - intros Hlt.
    assert (H32 : (total_area n2 area2 need - total_area n1 area1 need) mod 32
                  = 0).
    { unfold total_area.
      apply Z.mod_divide in Hm1; [|lia]. apply Z.mod_divide in Hm2; [|lia].
      apply Z.mod_divide; [lia|].
      apply Z.divide_sub_r; apply Z.divide_mul_r; assumption. }
    apply Z.mod_divide in H32; [|lia]. destruct H32 as [k Hk]. lia.
  - intros Heq. rewrite Heq. lia.
Qed.

Lemma nv12_eff_ranks_witness :
  exists e1 e2,
    nv12_eff 2 4 64 2 = Some e1
    /\ nv12_eff 1 4 64 2 = Some e2
    /\ (total_area 2 64 2 < total_area 1 64 2 -> e2 < e1)
    /\ (total_area 2 64 2 = total_area 1 64 2 ->
        (e1 <= e2 <-> eff_term 2 4 64 <= eff_term 1 4 64)).
Proof.
  apply (nv12_eff_ranks 2 1 4 64 64 2); vm_compute; try reflexivity;
    try (split; [reflexivity|]); intros H; discriminate H.
Defined.

(** ** [tiler_best2pack]: the area and the efficiency it reports *)

(** X5.  The efficiency [tiler_best2pack] returns is at most 1024 (a
    full area); when it is not zero, the area stored is a multiple of
    the band that holds the whole run, ends less than one band after
    its last block and less than one band after the container. *)
Theorem tiler_best2pack_area_bounds (W o w e b j n area : Z) :
  0 <= j -> b = 2 ^ j -> 0 <= o < 65536 -> 0 < w -> w <= e -> e < 65536 ->
  0 <= W -> W + b <= 65536 -> 0 <= n < 65536 ->
  exists r n' area',
    tiler_best2pack W o w e b n area = Some (r, n', area')
    /\ 0 <= r <= 1024
    /\ (r <> 0 ->
        n' * w <= o + (n' - 1) * e + w <= area'
        /\ area' < o + (n' - 1) * e + w + b
        /\ area' mod b = 0
        /\ area' < W + b).
Proof.
  intros Hj Hb Ho Hw Hwe He HW0 HW Hn.
  destruct (tiler_best2pack_scan W o w e b j n area Hj Hb Ho Hw Hwe He
              HW0 HW Hn)
    as (M & r & n' & area' & Hrun & HM & Hr & HvM & Hmax & Hup & Hsel).
  exists r, n', area'. split; [exact Hrun|].
  destruct Hsel as [(-> & _)|(Hpos & Hn' & Heq & Har & _)];
    [split; [lia|intros H; lia]|].
  pose proof (ALIGN_bounds b j Hj Hb (o + (n' - 1) * e + w)) as Hal.
  pose proof (ALIGN_mult b j Hj Hb (o + (n' - 1) * e + w)) as Hmul.
  pose proof (pow2_pos b j Hj Hb) as Hbp.
  fold (run_area o w e b n') in Hal, Hmul. rewrite <- Har in Hal, Hmul.
  assert (Hfit : o + (n' - 1) * e + w <= W).
  { specialize (HvM (n' - 1) ltac:(lia)). unfold block_ok in HvM.
    apply andb_prop in HvM. destruct HvM as [HvM _]. lia. }
  assert (Hnw : n' * w <= o + (n' - 1) * e + w).
  { assert ((n' - 1) * w <= (n' - 1) * e)
      by (apply Z.mul_le_mono_nonneg_l; lia).
    lia. }
  split.
  - split; [lia|]. rewrite Heq. unfold run_eff. rewrite <- Har.
    rewrite Z.quot_div_nonneg by nia. apply Z.div_le_upper_bound; nia.
  - intros _. split; [lia|]. split; [lia|]. split; [|lia].
    rewrite Hmul, Z.mul_comm. apply Z_mod_mult.
Qed.

Lemma tiler_best2pack_area_bounds_witness :
  exists r n' area',
    tiler_best2pack 256 0 30 32 64 3 0 = Some (r, n', area')
    /\ 0 <= r <= 1024
    /\ (r <> 0 ->
        n' * 30 <= 0 + (n' - 1) * 32 + 30 <= area'
        /\ area' < 0 + (n' - 1) * 32 + 30 + 64
        /\ area' mod 64 = 0
        /\ area' < 256 + 64).
Proof.
  apply (tiler_best2pack_area_bounds 256 0 30 32 64 6 3 0);
    first [reflexivity|lia].
Defined.

(** ** [nv12_separate]: the area it reports *)

(** A scan whose first block fits stores the area of the run it
    counts. *)
Lemma tiler_best2pack_run_area (W o w e b j n area : Z) :
  0 <= j -> b = 2 ^ j -> 0 <= o < 65536 -> 0 < w -> w <= e -> e < 65536 ->
  0 <= W -> W + b <= 65536 -> 0 <= n < 65536 ->
  o < b -> b <= 512 -> o + w <= W -> 1 <= n ->
  exists r n',
    tiler_best2pack W o w e b n area = Some (r, n', run_area o w e b n')
    /\ 1 <= n' <= n
    /\ n' * w <= run_area o w e b n' < W + b
    /\ run_area o w e b n' mod b = 0.
Proof.
  intros Hj Hb Ho Hw Hwe He HW0 HW Hn Hob Hb512 Hfit Hn1.
  destruct (tiler_best2pack_scan W o w e b j n area Hj Hb Ho Hw Hwe He
              HW0 HW Hn)
    as (M & r & n' & area' & Hrun & HM & Hr & HvM & Hmax & Hup & Hsel).
  destruct (first_block_counts W o w e b j Hj Hb Ho Hw Hob Hb512 Hfit)
    as [Hok Heff].
  assert (H1 : 1 <= M).
  { apply Hmax; [lia|]. intros k Hk. replace k with 0 by lia. exact Hok. }
  specialize (Hup 1 ltac:(lia)).
  destruct Hsel as [(-> & _)|(Hpos & Hn' & Heq & Har & _)]; [lia|].
  subst area'. exists r, n'. split; [exact Hrun|]. split; [lia|].
  pose proof (ALIGN_bounds b j Hj Hb (o + (n' - 1) * e + w)) as Hal.
  pose proof (ALIGN_mult b j Hj Hb (o + (n' - 1) * e + w)) as Hmul.
  fold (run_area o w e b n') in Hal, Hmul.
  assert (Hfit' : o + (n' - 1) * e + w <= W).
  { specialize (HvM (n' - 1) ltac:(lia)). unfold block_ok in HvM.
    apply andb_prop in HvM. destruct HvM as [HvM _]. lia. }
  assert (Hnw : (n' - 1) * w <= (n' - 1) * e)
    by (apply Z.mul_le_mono_nonneg_l; lia).
  split; [split; [lia|lia]|].
  rewrite Hmul, Z.mul_comm. apply Z_mod_mult.
Qed.

(** A scan whose first block does not fit leaves the count and the
    area as they were. *)
Lemma tiler_best2pack_no_fit (W o w e b j n area : Z) :
  0 <= j -> b = 2 ^ j -> 0 <= o < 65536 -> 0 < w -> w <= e -> e < 65536 ->
  0 <= W -> W + b <= 65536 -> 0 <= n < 65536 ->
  W < o + w ->
  tiler_best2pack W o w e b n area = Some (0, n, area).
Proof.
  intros Hj Hb Ho Hw Hwe He HW0 HW Hn Hnofit.
  destruct (tiler_best2pack_scan W o w e b j n area Hj Hb Ho Hw Hwe He
              HW0 HW Hn)
    as (M & r & n' & area' & Hrun & HM & Hr & HvM & Hmax & Hup & Hsel).
  destruct Hsel as [(-> & -> & ->)|(Hpos & Hn' & _)]; [exact Hrun|].
  specialize (HvM 0 ltac:(lia)). unfold block_ok in HvM.
  apply andb_prop in HvM. destruct HvM as [HvM _]. lia.
Qed.

(** A scan always gives a result, with a count of at least one when
    the bound is. *)
Lemma tiler_best2pack_total (W o w e b j n area : Z) :
  0 <= j -> b = 2 ^ j -> 0 <= o < 65536 -> 0 < w -> w <= e -> e < 65536 ->
  0 <= W -> W + b <= 65536 -> 1 <= n < 65536 ->
  exists r n' area',
    tiler_best2pack W o w e b n area = Some (r, n', area') /\ 1 <= n' <= n.
Proof.
  intros Hj Hb Ho Hw Hwe He HW0 HW Hn.
  destruct (tiler_best2pack_scan W o w e b j n area Hj Hb Ho Hw Hwe He
              HW0 HW ltac:(lia))
    as (M & r & n' & area' & Hrun & HM & Hr & HvM & Hmax & Hup & Hsel).
  exists r, n', area'. split; [exact Hrun|].
  destruct Hsel as [(_ & -> & _)|(_ & Hn' & _)]; lia.
Qed.

Section SeparateArea.

Variables W o w a j n area : Z.
Hypothesis Hj : 1 <= j <= 6.
Hypothesis Ha : a = 2 ^ j.
Hypothesis Ho : 0 <= o < a.
Hypothesis Hw : 0 < w < 32768.
Hypothesis Hn : 1 <= n < 65536.
Hypothesis HW : 0 <= W <= 16384.

Variables o1 w1 e1 : Z.
Hypothesis Ho1 : o1 = Z.quot o 2.
Hypothesis Hw1 : w1 = Z.quot (w + 1) 2.
Hypothesis He1 : e1 = Z.quot (ALIGN w a) 2.

Lemma separate_halves :
  a <= 64 /\ w <= ALIGN w a < w + a
  /\ 0 <= o1 < 32 /\ 0 < w1 <= e1 /\ e1 <= ALIGN w a
  /\ pair_width w <= 3 * w1.
Proof.
  destruct (half_pitch w a j ltac:(lia) Ha ltac:(lia)) as [Hhalf He].
  assert (Ha64 : a <= 64).
  { rewrite Ha. change 64 with (2 ^ 6). apply Z.pow_le_mono_r; lia. }
  subst o1 w1 e1. split; [exact Ha64|]. split; [exact He|].
  split.
  { rewrite Z.quot_div_nonneg by lia.
    split; [apply Z.div_pos; lia|apply Z.div_lt_upper_bound; lia]. }
  split; [exact Hhalf|]. split.
  { rewrite Z.quot_div_nonneg by lia. apply Z.div_le_upper_bound; lia. }
  unfold pair_width. rewrite shiftr1, Z.quot_div_nonneg by lia.
  pose proof (Z.div_mod (w + 1) 2 ltac:(lia)).
  pose proof (Z.mod_pos_bound (w + 1) 2 ltac:(lia)).
  assert ((w * 3 + 1) / 2 < 3 * ((w + 1) / 2) + 1)
    by (apply Z.div_lt_upper_bound; lia).
  lia.
Qed.

(** The first scan gives a result whatever fits. *)
Lemma separate_first_scan :
  exists r n1 area1,
    tiler_best2pack W o w (ALIGN w a) 64 n area = Some (r, n1, area1)
    /\ 1 <= n1 <= n
    /\ (W < o + w -> area1 = area /\ n1 = n).
Proof.
  destruct separate_halves as (Ha64 & He & _).
  destruct (tiler_best2pack_scan W o w (ALIGN w a) 64 6 n area)
    as (M & r & n' & area' & Hrun & HM & Hr & HvM & Hmax & Hup & Hsel);
    try lia; try reflexivity.
  exists r, n', area'. split; [exact Hrun|].
  destruct Hsel as [(_ & -> & ->)|(_ & Hn' & _)].
  - split; [lia|]. intros _. split; reflexivity.
  - split; [lia|]. intros Hnofit.
    specialize (HvM 0 ltac:(lia)). unfold block_ok in HvM.
    apply andb_prop in HvM. destruct HvM as [HvM _]. lia.
Qed.

Lemma nv12_separate_fits :
  o1 + w1 <= W ->
  exists c,
    nv12_separate W o w a n area
    = Some (c, 3 * run_area o1 w1 e1 band_16 c)
    /\ 1 <= c <= n
    /\ c * pair_width w <= 3 * run_area o1 w1 e1 band_16 c
    /\ 0 < 3 * run_area o1 w1 e1 band_16 c < 3 * (W + 32)
    /\ (3 * run_area o1 w1 e1 band_16 c) mod 96 = 0.
Proof.
  intros Hfit.
  destruct separate_halves as (Ha64 & He & Ho1' & Hw1' & He1' & Hpw).
  destruct separate_first_scan as (r1 & n1 & area1 & Hrun1 & Hn1 & _).
  unfold nv12_separate.
  change (u16 band_8) with 64. change (u16 band_16) with 32.
  change band_16 with 32.
  rewrite (u16_small (ALIGN w a)) by lia.
  rewrite Hrun1. cbn [bind].
  rewrite <- Ho1, <- Hw1, <- He1. rewrite (u16_small e1) by lia.
  destruct (tiler_best2pack_run_area W o1 w1 e1 32 5 n1 area1)
    as (r2 & n2 & Hrun2 & Hn2 & Hbound & Hmod); try lia; try reflexivity.
  rewrite Hrun2. cbn [bind].
  set (ar := run_area o1 w1 e1 32 n2) in *.
  rewrite (u16_small (ar * 3)) by lia.
  exists n2. replace (ar * 3) with (3 * ar) by lia.
  split; [reflexivity|]. split; [lia|]. split; [nia|]. split; [nia|].
  apply Z.mod_divide in Hmod; [|lia]. destruct Hmod as [k Hk].
  apply Z.mod_divide; [lia|]. exists k. lia.
Qed.

Lemma nv12_separate_no_fit :
  W < o1 + w1 ->
  nv12_separate W o w a n area = Some (n, u16 (area * 3)).
Proof.
  intros Hnofit.
  destruct separate_halves as (Ha64 & He & Ho1' & Hw1' & He1' & Hpw).
  assert (Hnofit8 : W < o + w).
  { rewrite Ho1, Hw1 in Hnofit.
    rewrite !Z.quot_div_nonneg in Hnofit by lia.
    pose proof (Z.mul_div_le o 2 ltac:(lia)).
    pose proof (Z.mul_div_le (w + 1) 2 ltac:(lia)).
    lia. }
  destruct separate_first_scan as (r1 & n1 & area1 & Hrun1 & Hn1 & Hsame).
  destruct (Hsame Hnofit8) as [-> ->].
  unfold nv12_separate.
  change (u16 band_8) with 64. change (u16 band_16) with 32.
  rewrite (u16_small (ALIGN w a)) by lia.
  rewrite Hrun1. cbn [bind].
  rewrite <- Ho1, <- Hw1, <- He1. rewrite (u16_small e1) by lia.
  rewrite (tiler_best2pack_no_fit W o1 w1 e1 32 5 n area);
    try lia; try reflexivity.
Qed.

End SeparateArea.

(** X6.  When a 16-bit block fits the container, the area
    [nv12_separate] reports is three times the area of the 16-bit run
    of the count it returns, whatever [*area] held on entry: a
    multiple of 96 slots that holds the pairs.  When not even one
    16-bit block fits, it returns the requested count and three times
    the value [*area] held on entry. *)
Theorem nv12_separate_area (W o w a j n area : Z) :
  1 <= j <= 6 -> a = 2 ^ j -> 0 <= o < a -> 0 < w < 32768 ->
  1 <= n < 65536 -> 0 <= W <= 16384 ->
  let o1 := Z.quot o 2 in
  let w1 := Z.quot (w + 1) 2 in
  let e1 := Z.quot (ALIGN w a) 2 in
  (o1 + w1 <= W ->
   exists c,
     nv12_separate W o w a n area
     = Some (c, 3 * run_area o1 w1 e1 band_16 c)
     /\ 1 <= c <= n
     /\ c * pair_width w <= 3 * run_area o1 w1 e1 band_16 c
     /\ 0 < 3 * run_area o1 w1 e1 band_16 c < 3 * (W + 32)
     /\ (3 * run_area o1 w1 e1 band_16 c) mod 96 = 0)
  /\ (W < o1 + w1 ->
      nv12_separate W o w a n area = Some (n, u16 (area * 3))).
Proof.
  intros Hj Ha Ho Hw Hn HW o1 w1 e1. split.
  - apply (nv12_separate_fits W o w a j n area); first [assumption|reflexivity].
  - apply (nv12_separate_no_fit W o w a j n area) with (e1 := e1);
      first [assumption|reflexivity].
Qed.

Lemma nv12_separate_area_witness :
  let o1 := Z.quot 2 2 in
  let w1 := Z.quot (30 + 1) 2 in
  let e1 := Z.quot (ALIGN 30 4) 2 in
  (o1 + w1 <= 256 ->
   exists c,
     nv12_separate 256 2 30 4 3 7
     = Some (c, 3 * run_area o1 w1 e1 band_16 c)
     /\ 1 <= c <= 3
     /\ c * pair_width 30 <= 3 * run_area o1 w1 e1 band_16 c
     /\ 0 < 3 * run_area o1 w1 e1 band_16 c < 3 * (256 + 32)
     /\ (3 * run_area o1 w1 e1 band_16 c) mod 96 = 0)
  /\ (256 < o1 + w1 ->
      nv12_separate 256 2 30 4 3 7 = Some (3, u16 (7 * 3))).
Proof.
  apply (nv12_separate_area 256 2 30 4 2 3 7); first [reflexivity|lia].
Defined.

(** ** [nv12_together]: an empty request, and the range of the result *)

(** A generator is not consulted once the count is reached. *)
Lemma try_generator_full
    (gen : Z -> Z -> Z -> Z -> option (Z * Z * list Z))
    (stack : list Z) (o w a n c ar : Z) (pb : option (list Z)) :
  n <= c -> try_generator gen stack o w a n (c, ar, pb) = Some (c, ar, pb).
Proof.
  intros H. unfold try_generator.
  destruct (Z.ltb_spec c n); [lia|reflexivity].
Qed.

(** X7.  Asked for no pair, [nv12_together] returns zero, reports the
    area of generator D and leaves [packing] alone, whatever the other
    arguments are. *)
Theorem nv12_together_zero_request (stack : list Z) (o w a area : Z)
    (packing : list Z) :
  nv12_together stack o w a 0 area packing
  = Some (0, u16 (ALIGN (o + w) band_8), packing).
Proof.
  unfold nv12_together, nv12_A. cbn [nv12_A_loop].
  change (0 <? 0) with false. rewrite andb_false_r. cbn [bind].
  change (u16 0) with 0.
  repeat (rewrite try_generator_full by lia; cbn [bind]). cbv beta iota.
  unfold packings. cbn [length]. rewrite special_packings_entry.
  change (9 =? 0) with false. change (9 <? 0) with false. cbv iota.
  assert (HD : nv12_D o w a 0 = Some (0, u16 (ALIGN (o + w) band_8), [])).
  { unfold nv12_D. cbn [nv12_D_loop]. change (0 <? 0) with false.
    cbn [andb bind]. reflexivity. }
  destruct ((a <=? 4) && (o + w + ALIGN (2 - o) a <=? 2 + 4)).
  { change (Z.min 9 0 =? 0) with true. cbv iota. rewrite HD. reflexivity. }
  match goal with
  | |- context [skipn ?k ?l] =>
    let t := eval vm_compute in (skipn k l) in change (skipn k l) with t
  end.
  rewrite special_packings_entry.
  change (3 =? 0) with false. change (3 <? 0) with false. cbv iota.
  destruct ((a <=? 4) && (o + w + ALIGN (0 - o) a <=? 0 + 12)).
  { change (Z.min 3 0 =? 0) with true. cbv iota. rewrite HD. reflexivity. }
  match goal with
  | |- context [skipn ?k ?l] =>
    let t := eval vm_compute in (skipn k l) in change (skipn k l) with t
  end.
  rewrite special_packings_end.
  change (0 =? 0) with true. cbv iota. rewrite HD. reflexivity.
Qed.

Lemma nv12_D_area (o w a n m ar : Z) (p : list Z) :
  nv12_D o w a n = Some (m, ar, p) -> ar = u16 (ALIGN (o + w) band_8).
Proof.
  unfold nv12_D. destruct (nv12_D_loop _ _ _ _ _ _ _) as [[m' p']|];
    cbn [bind]; [|discriminate].
  intros H. inversion H. reflexivity.
Qed.

(** [nv12_C] counts two pairs a round: its count is at most one above
    the request. *)
Lemma nv12_C_loop_count (o w e area o2 n m : Z) (fuel : nat) :
  0 <= n < 65535 ->
  forall i j p,
    0 <= j <= n + 1 ->
    0 <= fst (nv12_C_loop fuel o w e area o2 n m i j p) <= n + 1.
Proof.
  intros Hn. induction fuel as [|fuel IH]; intros i j p Hj;
    cbn [nv12_C_loop]; [exact Hj|].
  destruct (i <? m); cbn [andb]; [|exact Hj].
  destruct (Z.ltb_spec j n) as [Hlt|Hge]; [|exact Hj].
  rewrite (u16_small (j + 1)) by lia.
  apply IH. rewrite u16_small by lia. lia.
Qed.

Lemma nv12_C_count (o w a n c ar : Z) (p : list Z) :
  0 <= n < 65535 ->
  nv12_C o w a n = Some (c, ar, p) -> 0 <= c <= n + 1.
Proof.
  intros Hn. unfold nv12_C.
  destruct (irem (o + w) a) as [r|]; cbn [bind]; [|discriminate].
  destruct (irem (a - r) a) as [r'|]; cbn [bind]; [|discriminate].
  destruct (idiv _ _) as [q|]; cbn [bind]; [|discriminate].
  match goal with
  | |- context [nv12_C_loop ?f ?o ?w ?e ?ar ?o2 ?n ?m ?i ?j ?p] =>
    pose proof (nv12_C_loop_count o w e ar o2 n m f Hn i j p ltac:(lia)) as H;
    destruct (nv12_C_loop f o w e ar o2 n m i j p) as [j' p']
  end.
  cbn [fst] in H. intros E. inversion E. subst. exact H.
Qed.

Section TogetherBounds.

Variables o w a j n : Z.
Hypothesis Hj : 1 <= j <= 6.
Hypothesis Ha : a = 2 ^ j.
Hypothesis Ho : 0 <= o < a.
Hypothesis Hw : 0 < w < 32768.
Hypothesis Hn : 0 <= n < 65535.

Lemma better_in_range (cur cand : candidate) :
  in_range n cur -> in_range n cand -> in_range n (better n cur cand).
Proof.
  intros H1 H2. unfold better.
  destruct ((cand_count cur <? n) && (cand_count cur <? cand_count cand));
    assumption.
Qed.

Lemma table_pick_in_range (cur : candidate) :
  in_range n cur -> in_range n (table_pick o w a n specials cur).
Proof.
  intros H. unfold specials. cbn [table_pick sp_n sp_area sp_pairs].
  destruct (9 <? cand_count cur); [exact H|].
  destruct (compatible o w a _); [split; cbn; lia|].
  destruct (3 <? cand_count cur); [exact H|].
  destruct (compatible o w a _); [split; cbn; lia|].
  exact H.
Qed.

Lemma generated_in_range (stack : list Z) (m : Z) (p : list Z) :
  0 <= m <= n + 1 -> in_range n (generated stack (m, 64, p)).
Proof.
  intros Hm. unfold in_range, generated, cand_count, cand_area.
  cbn [fst snd]. rewrite u16_small by lia. split; [exact Hm|reflexivity].
Qed.

Lemma nv12_together_range (stack : list Z) (area : Z) (packing : list Z) :
  exists c ar pk,
    nv12_together stack o w a n area packing = Some (c, ar, pk)
    /\ 0 <= c <= n + 1
    /\ (ar = 64 \/ (c <= 1 /\ ar = ALIGN (o + w) 64))
    /\ 64 <= ar /\ ar mod 64 = 0
    /\ (c = 0 -> pk = packing).
Proof.
  assert (Hj15 : 0 <= j <= 15) by lia.
  assert (Ha64 : a <= 64).
  { rewrite Ha. change 64 with (2 ^ 6). apply Z.pow_le_mono_r; lia. }
  destruct (nv12_A_contained o w a j n Hj15 Ha ltac:(lia) ltac:(lia)
              ltac:(lia)) as (mA & pA & HA & HmA & _).
  destruct (nv12_revA_contained o w a j n Hj15 Ha ltac:(lia) ltac:(lia)
              ltac:(lia)) as (mR & pR & HR & HmR & _).
  destruct (nv12_B_contained o w a j n Hj15 Ha ltac:(lia) ltac:(lia)
              ltac:(lia)) as (mB & pB & HB & HmB & _).
  destruct (nv12_C_total o w a j n Hj15 Ha Hw) as ([[mC arC] pC] & HC).
  pose proof (nv12_C_area _ _ _ _ _ _ _ HC) as HarC. subst arC.
  pose proof (nv12_C_count _ _ _ _ _ _ _ Hn HC) as HmC.
  destruct (nv12_D_contained o w a j n Hj15 Ha ltac:(lia) ltac:(lia))
    as (mD & arD & pD & HD & HmD & _).
  pose proof (nv12_D_area _ _ _ _ _ _ _ HD) as HarD.
  rewrite (nv12_together_rule stack o w a n area packing
             (mA, 64, pA) (mR, 64, pR) (mB, 64, pB) (mC, 64, pC)
             (mD, arD, pD)); try assumption; try lia;
    try (intros _; assumption).
  set (c5 := table_pick o w a n specials _).
  assert (H5 : in_range n c5).
  { apply table_pick_in_range. repeat apply better_in_range;
      apply generated_in_range; lia. }
  destruct H5 as [Hc5 Ha5].
  pose proof (ALIGN_bounds 64 6 ltac:(lia) eq_refl (o + w)) as Hal.
  pose proof (ALIGN_mult 64 6 ltac:(lia) eq_refl (o + w)) as Hmul.
  change band_8 with 64 in HarD. rewrite u16_small in HarD by lia.
  unfold together_result. cbn [fst snd].
  destruct (Z.eqb_spec (cand_count c5) 0) as [Hz|Hnz].
  - exists (u16 mD), arD, packing. rewrite (u16_small mD) by lia.
    split; [reflexivity|]. split; [lia|]. subst arD.
    split; [right; split; [lia|reflexivity]|]. split; [|split].
    + assert (0 < (o + w + (64 - 1)) / 64) by (apply Z.div_str_pos; lia).
      lia.
    + rewrite Hmul, Z.mul_comm. apply Z_mod_mult.
    + reflexivity.
  - destruct (cand_buffer c5) as [src|];
      eexists; eexists; eexists; (split; [reflexivity|]);
      rewrite Ha5; (split; [lia|]); (split; [left; reflexivity|]);
      (split; [lia|]); (split; [reflexivity|]); intros Hc; lia.
Qed.

End TogetherBounds.

(** X8.  For a valid request [nv12_together] returns a count between
    zero and one above the request, and an area that is a nonzero
    multiple of 64 slots: 64, or the area of generator D with a count
    of at most one.  With a count of zero [packing] is left alone. *)
Theorem nv12_together_bounds (stack : list Z) (o w a j n area : Z)
    (packing : list Z) :
  1 <= j <= 6 -> a = 2 ^ j -> 0 <= o < a -> 0 < w < 32768 ->
  0 <= n < 65535 ->
  exists c ar pk,
    nv12_together stack o w a n area packing = Some (c, ar, pk)
    /\ 0 <= c <= n + 1
    /\ (ar = 64 \/ (c <= 1 /\ ar = ALIGN (o + w) 64))
    /\ 64 <= ar /\ ar mod 64 = 0
    /\ (c = 0 -> pk = packing).
Proof.
  intros Hj Ha Ho Hw Hn.
  apply (nv12_together_range o w a j n); assumption.
Qed.

Lemma nv12_together_bounds_witness :
  exists c ar pk,
    nv12_together [] 0 33 2 1 0 [] = Some (c, ar, pk)
    /\ 0 <= c <= 1 + 1
    /\ (ar = 64 \/ (c <= 1 /\ ar = ALIGN (0 + 33) 64))
    /\ 64 <= ar /\ ar mod 64 = 0
    /\ (c = 0 -> pk = []).
Proof.
  apply (nv12_together_bounds [] 0 33 2 1 1 0 []); first [reflexivity|lia].
Defined.

(** The count can indeed exceed the request: one pair is asked for,
    two are reported (the count of generator C). *)
Remark nv12_together_over_request :
  nv12_together [] 0 33 2 1 0 [] = Some (2, 64, [0; 32]).
Proof. vm_compute. reflexivity. Qed.

(** ** Packings: lists of pairs *)

Lemma pairs_ind (P : list Z -> Prop) :
  P [] -> (forall x l p, P p -> P (x :: l :: p)) ->
  forall (k : nat) p, length p = (2 * k)%nat -> P p.
Proof.
  intros H0 Hstep. induction k as [|k IH]; intros p Hlen.
  - destruct p; [exact H0|discriminate].
  - destruct p as [|x [|l p]]; cbn in Hlen; try lia.
    apply Hstep, IH. lia.
Qed.

Lemma even_length (p : list Z) (m : Z) :
  Z.of_nat (length p) = 2 * m -> length p = (2 * Z.to_nat m)%nat.
Proof. lia. Qed.

Lemma blocks_app (w : Z) (p q : list Z) (m : Z) :
  Z.of_nat (length p) = 2 * m ->
  blocks w (p ++ q) = blocks w p ++ blocks w q.
Proof.
  intros Hlen. apply even_length in Hlen. revert Hlen.
  apply (pairs_ind (fun p => blocks w (p ++ q) = blocks w p ++ blocks w q)).
  - reflexivity.
  - intros x l p' IH. cbn [app blocks]. rewrite IH. reflexivity.
Qed.

Lemma offsets_8_app (p q : list Z) (m : Z) :
  Z.of_nat (length p) = 2 * m ->
  offsets_8 (p ++ q) = offsets_8 p ++ offsets_8 q.
Proof.
  intros Hlen. apply even_length in Hlen. revert Hlen.
  apply (pairs_ind (fun p => offsets_8 (p ++ q) = offsets_8 p ++ offsets_8 q)).
  - reflexivity.
  - intros x l p' IH. cbn [app offsets_8]. rewrite IH. reflexivity.
Qed.

Lemma offsets_16_app (p q : list Z) (m : Z) :
  Z.of_nat (length p) = 2 * m ->
  offsets_16 (p ++ q) = offsets_16 p ++ offsets_16 q.
Proof.
  intros Hlen. apply even_length in Hlen. revert Hlen.
  apply (pairs_ind
           (fun p => offsets_16 (p ++ q) = offsets_16 p ++ offsets_16 q)).
  - reflexivity.
  - intros x l p' IH. cbn [app offsets_16]. rewrite IH. reflexivity.
Qed.

Lemma aligned_at_app (o a : Z) (p q : list Z) (m : Z) :
  Z.of_nat (length p) = 2 * m ->
  aligned_at o a p = true -> aligned_at o a q = true ->
  aligned_at o a (p ++ q) = true.
Proof.
  intros Hlen Hp Hq. unfold aligned_at in *.
  rewrite (offsets_8_app p q m Hlen), forallb_app, Hp, Hq. reflexivity.
Qed.

Lemma aligned_at_pair (o a x l : Z) :
  (x - o) mod a = 0 -> aligned_at o a [x; l] = true.
Proof.
  intros H. unfold aligned_at. cbn [offsets_8 forallb].
  rewrite H. reflexivity.
Qed.

Lemma apart_sym (b c : Z * Z) : apart b c = apart c b.
Proof. unfold apart. apply orb_comm. Qed.

(** Appending blocks that are apart from all the others. *)
Lemma no_overlap_app (bs cs : list (Z * Z)) :
  no_overlap bs = true -> no_overlap cs = true ->
  Forall (fun b => forallb (apart b) cs = true) bs ->
  no_overlap (bs ++ cs) = true.
Proof.
  induction bs as [|b bs IH]; intros Hb Hc Hall; [exact Hc|].
  cbn [app no_overlap] in *.
  apply andb_prop in Hb. destruct Hb as [Hb1 Hb2].
  inversion Hall as [|? ? Hb3 Hall']. subst.
  rewrite forallb_app, Hb1, Hb3, (IH Hb2 Hc Hall'). reflexivity.
Qed.

Lemma no_overlap_pair (w x l : Z) :
  x + w <= l \/ l + Z.shiftr (w + 1) 1 <= x ->
  no_overlap (blocks w [x; l]) = true.
Proof.
  intros H. cbn [blocks no_overlap forallb]. unfold apart. cbn [fst snd].
  destruct H as [H|H].
  - rewrite (proj2 (Z.leb_le _ _) H). reflexivity.
  - rewrite (proj2 (Z.leb_le _ _) H), orb_true_r. reflexivity.
Qed.

(** Appending one pair to a packing. *)
Lemma no_overlap_snoc (w : Z) (p : list Z) (m x l : Z) :
  Z.of_nat (length p) = 2 * m ->
  no_overlap (blocks w p) = true ->
  x + w <= l \/ l + Z.shiftr (w + 1) 1 <= x ->
  Forall (fun b =>
            (snd b <= x \/ x + w <= fst b)
            /\ (snd b <= l \/ l + Z.shiftr (w + 1) 1 <= fst b))
         (blocks w p) ->
  no_overlap (blocks w (p ++ [x; l])) = true.
Proof.
  intros Hlen Hp Hxl Hall. rewrite (blocks_app w p [x; l] m Hlen).
  apply no_overlap_app; [exact Hp|apply no_overlap_pair; exact Hxl|].
  eapply Forall_impl; [|exact Hall].
  intros [s t] [H8 H16]. cbn [fst snd] in *.
  cbn [blocks forallb]. unfold apart. cbn [fst snd].
  assert (E8 : (t <=? x) || (x + w <=? s) = true).
  { apply orb_true_iff. rewrite !Z.leb_le. exact H8. }
  assert (E16 : (t <=? l) || (l + Z.shiftr (w + 1) 1 <=? s) = true).
  { apply orb_true_iff. rewrite !Z.leb_le. exact H16. }
  rewrite E8, E16. reflexivity.
Qed.

Lemma Forall_blocks_snoc (P : Z * Z -> Prop) (w : Z) (p : list Z) (m x l : Z) :
  Z.of_nat (length p) = 2 * m ->
  Forall P (blocks w p) -> P (x, x + w) -> P (l, l + Z.shiftr (w + 1) 1) ->
  Forall P (blocks w (p ++ [x; l])).
Proof.
  intros Hlen Hp Hx Hl. rewrite (blocks_app w p [x; l] m Hlen).
  apply Forall_app. split; [exact Hp|].
  cbn [blocks]. repeat constructor; assumption.
Qed.

Lemma ALIGN_mono (b j x y : Z) :
  0 <= j -> b = 2 ^ j -> x <= y -> ALIGN x b <= ALIGN y b.
Proof.
  intros Hj Hb Hxy.
  rewrite (ALIGN_mult b j Hj Hb x), (ALIGN_mult b j Hj Hb y).
  pose proof (pow2_pos b j Hj Hb) as Hp.
  apply Z.mul_le_mono_nonneg_l; [lia|].
  apply Z.div_le_mono; lia.
Qed.

Lemma ALIGN_mod (b j x : Z) :
  0 <= j -> b = 2 ^ j -> ALIGN x b mod b = 0.
Proof.
  intros Hj Hb. rewrite (ALIGN_mult b j Hj Hb x), Z.mul_comm.
  apply Z_mod_mult.
Qed.

Lemma pow2_even (a j : Z) : 1 <= j -> a = 2 ^ j -> a = 2 * 2 ^ (j - 1).
Proof.
  intros Hj Ha. rewrite Ha. replace j with (1 + (j - 1)) at 1 by lia.
  rewrite Z.pow_add_r by lia. reflexivity.
Qed.

(** ** Generator A: a rule for its loops *)

Section GeneratorARule.

Variables o w a j n : Z.
Hypothesis Hj : 0 <= j <= 15.
Hypothesis Ha : a = 2 ^ j.
Hypothesis Ho : 0 <= o < 65536.
Hypothesis Hw : 0 < w.
Hypothesis Hn : 0 <= n < 65536.

(** [Q u x l p] is what holds inside a round with the upper bound [u];
    [P x p] is what holds between the rounds. *)
Variable Q : Z -> Z -> Z -> list Z -> Prop.
Variable P : Z -> list Z -> Prop.

Hypothesis Qstep :
  forall u x l m p,
    0 <= x -> x + w <= u -> u <= l -> l + (w + 1) / 2 <= 64 -> u <= 63 ->
    Z.of_nat (length p) = 2 * m ->
    Q u x l p ->
    Q u (ALIGN (x + w - o) a + o) ((64 + x + w + 1) / 2) (p ++ [x; l]).

Hypothesis Penter :
  forall x m p,
    0 <= x -> x + w < 64 -> Z.of_nat (length p) = 2 * m ->
    P x p -> Q ((64 + x) / 2) x ((64 + x) / 2) p.

Hypothesis Pleave :
  forall u x l m p,
    0 <= x -> 0 <= u <= l -> l <= 64 -> Z.of_nat (length p) = 2 * m ->
    Q u x l p -> P (ALIGN (l - o) a + o) p.

Lemma nv12_A_pack_rule (xs u : Z) :
  0 <= xs -> xs + w < 64 -> u = (64 + xs) / 2 ->
  forall fuel x l m p,
    xs <= x -> x < 65536 -> u <= l <= 64 ->
    (x + w <= u -> l + (w + 1) / 2 <= 64) ->
    0 <= m <= n -> Z.of_nat (length p) = 2 * m ->
    Q u x l p ->
    exists x' l' m' p',
      nv12_A_pack fuel o w a 64 u n x l m p = (x', l', m', p')
      /\ xs <= x' < 65536 /\ u <= l' <= 64 /\ m <= m' <= n
      /\ Z.of_nat (length p') = 2 * m' /\ Q u x' l' p'.
Proof.
  intros Hxs Hroom Hu. pose proof (a_range a j Hj Ha) as Har.
  assert (Hu63 : 0 <= u <= 63).
  { subst u. split; [apply Z.div_pos; lia|].
    apply Z.div_le_upper_bound; lia. }
  induction fuel as [|fuel IH]; intros x l m p Hx Hx16 Hl Hfit Hm Hlen HQ;
    cbn [nv12_A_pack].
  - exists x, l, m, p. repeat split; try lia; assumption.
  - destruct (Z.leb_spec (x + w) u) as [Hplace|Hfull]; cbn [andb];
      [|exists x, l, m, p; repeat split; try lia; assumption].
    destruct (Z.ltb_spec m n) as [Hmn|Hmn];
      [|exists x, l, m, p; repeat split; try lia; assumption].
    specialize (Hfit Hplace).
    rewrite (u8_small x), (u8_small l) by lia.
    rewrite shiftr1.
    pose proof (ALIGN_bounds a j (proj1 Hj) Ha (x + w - o)) as Hal.
    assert (Hl' : u <= (64 + x + w + 1) / 2 <= 64).
    { split.
      - subst u. apply Z.div_le_mono; lia.
      - apply Z.div_le_upper_bound; lia. }
    rewrite (u16_small ((64 + x + w + 1) / 2)) by lia.
    rewrite (u16_small (ALIGN (x + w - o) a + o)) by lia.
    rewrite (u16_small (m + 1)) by lia.
    destruct (IH (ALIGN (x + w - o) a + o) ((64 + x + w + 1) / 2) (m + 1)
                (p ++ [x; l]))
      as (x' & l' & m' & p' & Hrun & Hx' & Hl'' & Hm' & Hlen' & HQ');
      try lia.
    + intros Hnext.
      pose proof (half_sum (64 + x + w + 1) (w + 1)) as Hh.
      assert ((64 + x + w + 1 + (w + 1)) / 2 < 65)
        by (apply Z.div_lt_upper_bound; lia).
      lia.
    + rewrite length_app. cbn [length]. lia.
    + apply (Qstep u x l m p); try lia; assumption.
    + exists x', l', m', p'. repeat split; try lia; assumption.
Qed.

Lemma nv12_A_loop_rule (fuel : nat) :
  forall x m p,
    0 <= x < 65536 -> 64 - x < Z.of_nat fuel -> (0 < fuel)%nat ->
    0 <= m <= n -> Z.of_nat (length p) = 2 * m ->
    P x p ->
    exists m' p' x',
      nv12_A_loop fuel o w a 64 n x m p = Some (m', p')
      /\ m <= m' <= n /\ Z.of_nat (length p') = 2 * m' /\ P x' p'.
Proof.
  pose proof (a_range a j Hj Ha) as Har.
  induction fuel as [|fuel IH]; intros x m p Hx Hfuel Hpos Hm Hlen HP;
    [lia|].
  cbn [nv12_A_loop].
  destruct (Z.ltb_spec (x + w) 64) as [Hroom|Hfull]; cbn [andb];
    [|exists m, p, x; repeat split; try lia; assumption].
  destruct (Z.ltb_spec m n) as [Hmn|Hmn];
    [|exists m, p, x; repeat split; try lia; assumption].
  rewrite shiftr1.
  assert (Hu : 0 <= (64 + x) / 2 <= 63 /\ x + 1 <= (64 + x) / 2).
  { split; [split; [apply Z.div_pos; lia|apply Z.div_le_upper_bound; lia]|].
    apply Z.div_le_lower_bound; lia. }
  rewrite (u16_small ((64 + x) / 2)) by lia.
  destruct (nv12_A_pack_rule x ((64 + x) / 2) ltac:(lia) Hroom eq_refl
              (Z.to_nat n) x ((64 + x) / 2) m p)
    as (x' & l' & m' & p' & Hrun & Hx' & Hl' & Hm' & Hlen' & HQ');
    try lia; try assumption.
  { intros _. pose proof (half_sum (64 + x) (w + 1)) as Hh.
    assert ((64 + x + (w + 1)) / 2 <= 64)
      by (apply Z.div_le_upper_bound; lia).
    lia. }
  { apply (Penter x m p); try lia; assumption. }
  rewrite Hrun.
  pose proof (ALIGN_bounds a j (proj1 Hj) Ha (l' - o)) as Hal.
  rewrite (u16_small (ALIGN (l' - o) a + o)) by lia.
  destruct (IH (ALIGN (l' - o) a + o) m' p')
    as (m'' & p'' & x'' & Hloop & Hm'' & Hlen'' & HP'');
    try lia; try assumption.
  { apply (Pleave ((64 + x) / 2) x' l' m' p'); try lia; assumption. }
  exists m'', p'', x''. repeat split; try lia; assumption.
Qed.

Lemma nv12_A_rule :
  P o [] ->
  exists m p x,
    nv12_A o w a n = Some (m, 64, p)
    /\ 0 <= m <= n /\ Z.of_nat (length p) = 2 * m /\ P x p.
Proof.
  intros HP. unfold nv12_A. change (u16 band_8) with 64.
  destruct (nv12_A_loop_rule (S (Z.to_nat 64)) o 0 [])
    as (m & p & x & Hloop & Hm & Hlen & HP'); try lia; try reflexivity;
    try assumption.
  rewrite Hloop. cbn [bind]. exists m, p, x.
  repeat split; try lia; assumption.
Qed.

End GeneratorARule.

(** ** Generator A: alignment and overlap *)

Section GeneratorALayout.

Variables o w a j n : Z.
Hypothesis Hj : 1 <= j <= 15.
Hypothesis Ha : a = 2 ^ j.
Hypothesis Ho : 0 <= o < 65536.
Hypothesis Hw : 0 < w.
Hypothesis Hn : 0 <= n < 65536.

Lemma layout_A_step (u x l m : Z) (p : list Z) :
  0 <= x -> x + w <= u -> u <= l -> l + (w + 1) / 2 <= 64 -> u <= 63 ->
  Z.of_nat (length p) = 2 * m ->
  layout_A_round o w a u x l p ->
  layout_A_round o w a u (ALIGN (x + w - o) a + o) ((64 + x + w + 1) / 2)
    (p ++ [x; l]).
Proof.
  intros Hx Hplace Hul Hfit Hu Hlen (Hmod & Hxl & HR & Hal & Hno & Hall).
  assert (Hj0 : 0 <= j) by lia.
  pose proof (ALIGN_bounds a j Hj0 Ha (x + w - o)) as Hb.
  pose proof (ALIGN_mod a j (x + w - o) Hj0 Ha) as Hm.
  pose proof (pow2_even a j ltac:(lia) Ha) as Heven.
  pose proof (pow2_pos a j Hj0 Ha) as Hpos.
  assert (Hw1 : 0 <= (w + 1) / 2) by (apply Z.div_pos; lia).
  assert (Hl' : x + w <= (64 + x + w + 1) / 2)
    by (apply Z.div_le_lower_bound; lia).
  unfold layout_A_round. split; [|split; [|split; [|split; [|split]]]].
  - replace (ALIGN (x + w - o) a + o - o) with (ALIGN (x + w - o) a) by lia.
    exact Hm.
  - pose proof (ALIGN_mono a j (x + w - o) ((64 + x + w + 1) / 2 - o)
                  Hj0 Ha ltac:(lia)).
    lia.
  - set (h := 2 ^ (j - 1)) in *.
    assert (Hk : exists k, x - o = 2 * (h * k)).
    { exists ((x - o) / a). pose proof (Z.div_mod (x - o) a ltac:(lia)).
      rewrite Hmod in *. rewrite Heven in *. lia. }
    assert (Hk' : exists k, ALIGN (x + w - o) a = 2 * (h * k)).
    { exists (ALIGN (x + w - o) a / a).
      pose proof (Z.div_mod (ALIGN (x + w - o) a) a ltac:(lia)).
      rewrite Hm in *. rewrite Heven in *. lia. }
    destruct Hk as [k Hk]. destruct Hk' as [k' Hk'].
    set (t := h * k) in *. set (t' := h * k') in *.
    replace (ALIGN (x + w - o) a + o) with (o + 2 * t') by lia.
    assert (Hge : x + w <= o + 2 * t') by lia.
    clear Hb Hm Hmod Hxl HR Hall Hno Hal.
    Z.div_mod_to_equations. lia.
  - apply (aligned_at_app o a p [x; l] m Hlen Hal).
    apply aligned_at_pair. exact Hmod.
  - apply (no_overlap_snoc w p m x l Hlen Hno); [left; lia|].
    eapply Forall_impl; [|exact Hall].
    intros [s t] Hst. cbn [fst snd] in *. rewrite shiftr1.
    destruct Hst as [Hst|[Hs Ht]]; split; lia.
  - apply (Forall_blocks_snoc _ w p m x l Hlen).
    + eapply Forall_impl; [|exact Hall].
      intros [s t] Hst. cbn [fst snd] in *.
      destruct Hst as [Hst|[Hs Ht]]; [left; lia|right; lia].
    + cbn [fst snd]. left. lia.
    + cbn [fst snd]. rewrite shiftr1. right. lia.
Qed.

Lemma layout_A_enter (x m : Z) (p : list Z) :
  0 <= x -> x + w < 64 -> Z.of_nat (length p) = 2 * m ->
  layout_A o w a x p ->
  layout_A_round o w a ((64 + x) / 2) x ((64 + x) / 2) p.
Proof.
  intros Hx Hroom Hlen (Hmod & Hal & Hno & Hall).
  assert (Hj0 : 0 <= j) by lia.
  pose proof (ALIGN_bounds a j Hj0 Ha ((64 + x) / 2 - o)) as Hb.
  assert (Hu : x <= (64 + x) / 2) by (apply Z.div_le_lower_bound; lia).
  unfold layout_A_round. split; [exact Hmod|]. split; [lia|].
  split; [Z.div_mod_to_equations; lia|]. split; [exact Hal|].
  split; [exact Hno|].
  eapply Forall_impl; [|exact Hall]. intros b Hb'. left. exact Hb'.
Qed.

Lemma layout_A_leave (u x l m : Z) (p : list Z) :
  0 <= x -> 0 <= u <= l -> l <= 64 -> Z.of_nat (length p) = 2 * m ->
  layout_A_round o w a u x l p -> layout_A o w a (ALIGN (l - o) a + o) p.
Proof.
  intros Hx Hu Hl Hlen (Hmod & Hxl & HR & Hal & Hno & Hall).
  assert (Hj0 : 0 <= j) by lia.
  pose proof (ALIGN_bounds a j Hj0 Ha (l - o)) as Hb.
  unfold layout_A. split; [|split; [exact Hal|split; [exact Hno|]]].
  - replace (ALIGN (l - o) a + o - o) with (ALIGN (l - o) a) by lia.
    apply (ALIGN_mod a j (l - o) Hj0 Ha).
  - eapply Forall_impl; [|exact Hall].
    intros [s t] Hst. cbn [fst snd] in *. destruct Hst as [Hst|[Hs Ht]]; lia.
Qed.

Lemma nv12_A_layout :
  exists m p,
    nv12_A o w a n = Some (m, 64, p)
    /\ 0 <= m <= n /\ Z.of_nat (length p) = 2 * m
    /\ aligned_at o a p = true /\ no_overlap (blocks w p) = true.
Proof.
  destruct (nv12_A_rule o w a j n ltac:(lia) Ha Ho Hw Hn
              (layout_A_round o w a) (layout_A o w a)
              layout_A_step layout_A_enter layout_A_leave)
    as (m & p & x & Hrun & Hm & Hlen & (_ & Hal & Hno & _)).
  { unfold layout_A. rewrite Z.sub_diag, Z.mod_0_l.
    - repeat split; constructor.
    - pose proof (pow2_pos a j ltac:(lia) Ha). lia. }
  exists m, p. repeat split; try lia; assumption.
Qed.

End GeneratorALayout.

(** ** Generator reverse-A: the reflection *)

Lemma apart_reflect (b c : Z * Z) : apart (reflect b) (reflect c) = apart b c.
Proof.
  destruct b as [s t], c as [s' t']. unfold apart, reflect. cbn [fst snd].
  destruct (Z.leb_spec (64 - s) (64 - t')), (Z.leb_spec (64 - s') (64 - t)),
    (Z.leb_spec t s'), (Z.leb_spec t' s); cbn; try reflexivity; lia.
Qed.

Lemma no_overlap_reflect (bs : list (Z * Z)) :
  no_overlap (map reflect bs) = no_overlap bs.
Proof.
  induction bs as [|b bs IH]; [reflexivity|].
  cbn [map no_overlap]. rewrite IH. f_equal.
  clear IH. induction bs as [|c bs IH]; [reflexivity|].
  cbn [map forallb]. rewrite apart_reflect, IH. reflexivity.
Qed.

Lemma reverse_packing_blocks (w : Z) :
  0 < w ->
  forall (k : nat) p,
    length p = (2 * k)%nat -> pairs_ok 64 w p = true ->
    blocks w (reverse_packing k 64 w p) = map reflect (blocks w p)
    /\ offsets_8 (reverse_packing k 64 w p)
       = map (fun x => 64 - x - w) (offsets_8 p).
Proof.
  intros Hw.
  assert (Hw1 : 0 <= Z.shiftr (w + 1) 1) by (apply Z.shiftr_nonneg; lia).
  induction k as [|k IH]; intros p Hlen Hp.
  - destruct p; [split; reflexivity|discriminate].
  - destruct p as [|x [|l p]]; cbn in Hlen; try lia.
    cbn [pairs_ok] in Hp.
    repeat (apply andb_prop in Hp; destruct Hp as [Hp ?]).
    rewrite Z.leb_le in *.
    destruct (IH p ltac:(lia) ltac:(assumption)) as [Hb Ho8].
    cbn [reverse_packing blocks offsets_8 map].
    rewrite (u8_small (64 - x - w)), (u8_small (64 - l - Z.shiftr (w + 1) 1))
      by lia.
    rewrite Hb, Ho8.
    change (reflect (x, x + w)) with (64 - (x + w), 64 - x).
    change (reflect (l, l + Z.shiftr (w + 1) 1))
      with (64 - (l + Z.shiftr (w + 1) 1), 64 - l).
    split; [|reflexivity]. f_equal; [f_equal; lia|]. f_equal. f_equal; lia.
Qed.

(** The offset reverse-A starts generator A from is the opposite of
    the end offset: reflected, the blocks are at the offset [o]. *)
Lemma reflect_aligned (o w a j x : Z) :
  1 <= j <= 6 -> a = 2 ^ j -> 0 <= o -> 0 < w ->
  (x - Z.rem (a - Z.rem (o + w) a) a) mod a = 0 ->
  (64 - x - w - o) mod a = 0.
Proof.
  intros Hj Ha Ho Hw Hx.
  pose proof (pow2_pos a j ltac:(lia) Ha) as Hpos.
  pose proof (rem_range (o + w) a ltac:(lia) Hpos) as Hr1.
  rewrite (Z.rem_mod_nonneg (a - Z.rem (o + w) a) a) in Hx by lia.
  rewrite (Z.rem_mod_nonneg (o + w) a) in Hx, Hr1 by lia.
  apply Z.mod_divide; [lia|]. apply Z.mod_divide in Hx; [|lia].
  assert (H64 : (a | 64)).
  { exists (2 ^ (6 - j)). rewrite Ha, <- Z.pow_add_r by lia.
    replace (6 - j + j) with 6 by lia. reflexivity. }
  assert (Hopp : (a | (a - (o + w) mod a) mod a + (o + w))).
  { exists (1 + (o + w) / a - (a - (o + w) mod a) / a).
    pose proof (Z.div_mod (o + w) a ltac:(lia)).
    pose proof (Z.div_mod (a - (o + w) mod a) a ltac:(lia)).
    lia. }
  replace (64 - x - w - o)
    with (64 - (x - (a - (o + w) mod a) mod a)
          - ((a - (o + w) mod a) mod a + (o + w))) by lia.
  apply Z.divide_sub_r; [apply Z.divide_sub_r|]; assumption.
Qed.

Lemma nv12_revA_layout (o w a j n : Z) :
  1 <= j <= 6 -> a = 2 ^ j -> 0 <= o < 65536 -> 0 < w -> 0 <= n < 65536 ->
  exists m p,
    nv12_revA o w a n = Some (m, 64, p)
    /\ 0 <= m <= n /\ Z.of_nat (length p) = 2 * m
    /\ aligned_at o a p = true /\ no_overlap (blocks w p) = true.
Proof.
  intros Hj Ha Ho Hw Hn.
  pose proof (a_range a j ltac:(lia) Ha) as Har.
  unfold nv12_revA, irem.
  destruct (Z.eqb_spec a 0) as [E|_]; [lia|]. cbn [bind].
  pose proof (rem_range (o + w) a ltac:(lia) ltac:(lia)) as Hr1.
  pose proof (rem_range (a - Z.rem (o + w) a) a ltac:(lia) ltac:(lia)) as Hr2.
  rewrite (u16_small (Z.rem (a - Z.rem (o + w) a) a)) by lia.
  set (o' := Z.rem (a - Z.rem (o + w) a) a) in *.
  destruct (nv12_A_contained o' w a j n ltac:(lia) Ha ltac:(lia) Hw Hn)
    as (m & p & HA & Hm & Hp & Hlen).
  destruct (nv12_A_layout o' w a j n ltac:(lia) Ha ltac:(lia) Hw Hn)
    as (m' & p' & HA' & _ & _ & Hal & Hno).
  rewrite HA in HA'. inversion HA'. subst m' p'. clear HA'.
  rewrite HA. cbn [bind]. rewrite (u16_small m) by lia.
  destruct (reverse_packing_ok w (Z.to_nat m) Hw p Hp) as [_ Hl].
  destruct (reverse_packing_blocks w Hw (Z.to_nat m) p ltac:(lia) Hp)
    as [Hb Ho8].
  exists m, (reverse_packing (Z.to_nat m) 64 w p).
  split; [reflexivity|]. split; [exact Hm|]. split; [rewrite Hl; exact Hlen|].
  split.
  - unfold aligned_at in *. rewrite Ho8.
    clear Hb Ho8 Hl Hno Hp Hlen HA.
    induction (offsets_8 p) as [|x xs IH]; [reflexivity|].
    cbn [map forallb] in *. apply andb_prop in Hal. destruct Hal as [Hx Hxs].
    rewrite (IH Hxs), andb_true_r. apply Z.eqb_eq. apply Z.eqb_eq in Hx.
    exact (reflect_aligned o w a j x Hj Ha ltac:(lia) Hw Hx).
  - rewrite Hb, no_overlap_reflect. exact Hno.
Qed.

(** ** Generator B *)

Section GeneratorBRule.

Variables w a n : Z.
Hypothesis Har : 0 < a <= 32768.
Hypothesis Hn : 0 <= n < 65536.

Variable Q : Z -> list Z -> Prop.

Hypothesis Qstep :
  forall x m p,
    0 <= x -> x + w <= 64 -> Z.of_nat (length p) = 2 * m ->
    Q x p -> Q (x + a) (p ++ [x; x / 2]).

Lemma nv12_B_loop_rule (fuel : nat) :
  0 < w ->
  forall x m p,
    0 <= x < 65536 -> 0 <= m <= n -> Z.of_nat (length p) = 2 * m ->
    Q x p ->
    exists m' p' x',
      nv12_B_loop fuel w a 64 n x m p = (m', p')
      /\ m <= m' <= n /\ Z.of_nat (length p') = 2 * m' /\ Q x' p'.
Proof.
  intros Hw.
  induction fuel as [|fuel IH]; intros x m p Hx Hm Hlen HQ;
    cbn [nv12_B_loop].
  - exists m, p, x. repeat split; try lia; assumption.
  - destruct (Z.leb_spec (x + w) 64) as [Hroom|Hfull]; cbn [andb];
      [|exists m, p, x; repeat split; try lia; assumption].
    destruct (Z.ltb_spec m n) as [Hmn|Hmn];
      [|exists m, p, x; repeat split; try lia; assumption].
    rewrite (u16_small (m + 1)), (u16_small (x + a)) by lia.
    assert (Hhalf : 0 <= x / 2 < 32).
    { split; [apply Z.div_pos; lia|apply Z.div_lt_upper_bound; lia]. }
    rewrite shiftr1, (u8_small x), (u8_small (x / 2)) by lia.
    destruct (IH (x + a) (m + 1) (p ++ [x; x / 2]))
      as (m' & p' & x' & Hrun & Hm' & Hlen' & HQ'); try lia.
    + rewrite length_app. cbn [length]. lia.
    + apply (Qstep x m p); try lia; assumption.
    + exists m', p', x'. repeat split; try lia; assumption.
Qed.

End GeneratorBRule.

Lemma no_overlap_snoc1 (bs : list (Z * Z)) (c : Z * Z) :
  no_overlap bs = true -> Forall (fun b => snd b <= fst c) bs ->
  no_overlap (bs ++ [c]) = true.
Proof.
  intros Hb Hall. apply no_overlap_app; [exact Hb|reflexivity|].
  eapply Forall_impl; [|exact Hall].
  intros b Hbc. cbn [forallb]. unfold apart.
  rewrite (proj2 (Z.leb_le _ _) Hbc). reflexivity.
Qed.

Lemma layout_B_step (o w a j x m : Z) (p : list Z) :
  1 <= j <= 15 -> a = 2 ^ j -> 0 < w < a ->
  0 <= x -> x + w <= 64 -> Z.of_nat (length p) = 2 * m ->
  layout_B o w a x p -> layout_B o w a (x + a) (p ++ [x; x / 2]).
Proof.
  intros Hj Ha Hw Hx Hroom Hlen (Hmod & Hal & H8 & H16 & Ha8 & Ha16).
  pose proof (pow2_even a j ltac:(lia) Ha) as Heven.
  pose proof (pow2_pos a j ltac:(lia) Ha) as Hpos.
  set (h := 2 ^ (j - 1)) in *.
  assert (Hhalf : (x + a) / 2 = x / 2 + h).
  { rewrite Heven. replace (x + 2 * h) with (x + h * 2) by lia.
    apply Z.div_add. lia. }
  assert (Hw1 : 0 <= (w + 1) / 2 <= h).
  { split; [apply Z.div_pos; lia|apply Z.div_le_upper_bound; lia]. }
  unfold layout_B, blocks_8, blocks_16.
  rewrite (offsets_8_app p [x; x / 2] m Hlen),
    (offsets_16_app p [x; x / 2] m Hlen), !map_app.
  cbn [offsets_8 offsets_16 map]. fold (blocks_8 w p) (blocks_16 w p).
  split; [|split; [|split; [|split; [|split]]]].
  - replace (x + a - o) with (x - o + 1 * a) by lia.
    rewrite Z.mod_add by lia. exact Hmod.
  - apply (aligned_at_app o a p [x; x / 2] m Hlen Hal).
    apply aligned_at_pair. exact Hmod.
  - apply no_overlap_snoc1; assumption.
  - apply no_overlap_snoc1; [exact H16|].
    eapply Forall_impl; [|exact Ha16]. intros b Hb. cbn [fst]. exact Hb.
  - apply Forall_app. split.
    + eapply Forall_impl; [|exact Ha8]. intros b Hb. cbn beta in *. lia.
    + repeat constructor. cbn [snd]. lia.
  - apply Forall_app. split.
    + eapply Forall_impl; [|exact Ha16]. intros b Hb. cbn beta in *. lia.
    + repeat constructor. cbn [snd]. rewrite shiftr1. lia.
Qed.

Lemma nv12_B_layout (o w a j n : Z) :
  1 <= j <= 15 -> a = 2 ^ j -> 0 <= o < 65536 -> 0 < w -> 0 <= n < 65536 ->
  exists m p,
    nv12_B o w a n = Some (m, 64, p)
    /\ 0 <= m <= n /\ Z.of_nat (length p) = 2 * m
    /\ aligned_at o a p = true
    /\ no_overlap (blocks_8 w p) = true
    /\ no_overlap (blocks_16 w p) = true.
Proof.
  intros Hj Ha Ho Hw Hn.
  pose proof (a_range a j ltac:(lia) Ha) as Har.
  unfold nv12_B, irem.
  destruct (Z.eqb_spec a 0) as [E|_]; [lia|]. cbn [bind].
  change (u16 band_8) with 64.
  destruct (Z.ltb_spec w a) as [Hwa|Hwa]; cbn [andb].
  - match goal with
    | |- context [if ?c then _ else _] => destruct c
    end.
    + destruct (nv12_B_loop_rule w a n Har Hn (layout_B o w a)
                  (fun x m p => layout_B_step o w a j x m p Hj Ha
                                  (conj Hw Hwa))
                  (Z.to_nat n) Hw o 0 [])
        as (m & p & x & Hrun & Hm & Hlen & (_ & Hal & H8 & H16 & _));
        try lia; try reflexivity.
      { unfold layout_B. rewrite Z.sub_diag, Z.mod_0_l by lia.
        repeat split; constructor. }
      rewrite Hrun. exists m, p. repeat split; try lia; assumption.
    + exists 0, []. repeat split; lia.
  - exists 0, []. repeat split; lia.
Qed.

(** ** Generator D *)

Lemma nv12_D_loop_layout (o w a j n area : Z) (fuel : nat) :
  1 <= j <= 6 -> a = 2 ^ j -> 0 <= o < a -> 0 < w <= 256 ->
  0 <= area < o + w + 64 ->
  forall d,
    0 <= d -> d mod a = 0 ->
    forall m p,
      nv12_D_loop fuel o w a area n d = Some (m, p) ->
      aligned_at o a p = true /\ no_overlap (blocks w p) = true.
Proof.
  intros Hj Ha Ho Hw Harea.
  pose proof (a_range a j ltac:(lia) Ha) as Har.
  assert (Ha64 : a <= 64).
  { rewrite Ha. change 64 with (2 ^ 6). apply Z.pow_le_mono_r; lia. }
  induction fuel as [|fuel IH]; intros d Hd Hdm m p; cbn [nv12_D_loop];
    [discriminate|].
  destruct (0 <? n); cbn [andb];
    [|intros E; inversion E; split; reflexivity].
  destruct (Z.leb_spec (d + o + w) area) as [Hroom|Hfull];
    [|intros E; inversion E; split; reflexivity].
  rewrite !shiftr1. change band_8 with 64. change band_16 with 32.
  pose proof (rem_range (o + d) 64 ltac:(lia) ltac:(lia)) as Hrem.
  assert (Ho1 : 0 <= Z.rem (o + d) 64 / 2 < 32).
  { split; [apply Z.div_pos; lia|apply Z.div_lt_upper_bound; lia]. }
  set (o1 := Z.rem (o + d) 64 / 2) in *.
  assert (Hw1 : (w + 1) / 2 <= 128 /\ w <= 2 * ((w + 1) / 2)).
  { Z.div_mod_to_equations. lia. }
  destruct (Z.leb_spec (o1 + (w + 1) / 2) (o + d)) as [Hbefore|Hnot].
  - intros E. inversion E. subst.
    rewrite (u8_small (o + d)), (u8_small o1) by lia. split.
    + apply aligned_at_pair. replace (o + d - o) with d by lia. exact Hdm.
    + apply no_overlap_pair. right. rewrite shiftr1. exact Hbefore.
  - pose proof (ALIGN_bounds 32 5 ltac:(lia) eq_refl (d + o + w - o1)) as Hal.
    rewrite (u16_small (o1 + ALIGN (d + o + w - o1) 32)) by lia.
    set (o1' := o1 + ALIGN (d + o + w - o1) 32) in *.
    destruct (Z.leb_spec (o1' + (w + 1) / 2) area) as [Hafter|Hnot'].
    + intros E. inversion E. subst.
      rewrite (u8_small o), (u8_small o1') by lia. split.
      * apply aligned_at_pair. rewrite Z.sub_diag. apply Z.mod_0_l. lia.
      * apply no_overlap_pair. left. lia.
    + rewrite (u16_small (d + a)) by lia. apply IH; [lia|].
      replace (d + a) with (d + 1 * a) by lia.
      rewrite Z.mod_add by lia. exact Hdm.
Qed.

Lemma nv12_D_layout (o w a j n : Z) :
  1 <= j <= 6 -> a = 2 ^ j -> 0 <= o < a -> 0 < w <= 256 ->
  0 <= n < 65536 ->
  exists m area p,
    nv12_D o w a n = Some (m, area, p)
    /\ 0 <= m <= 1 /\ Z.of_nat (length p) = 2 * m
    /\ aligned_at o a p = true /\ no_overlap (blocks w p) = true.
Proof.
  intros Hj Ha Ho Hw Hn.
  pose proof (a_range a j ltac:(lia) Ha) as Har.
  destruct (nv12_D_contained o w a j n ltac:(lia) Ha ltac:(lia) ltac:(lia))
    as (m & area & p & HD & Hm & _ & _ & Hlen).
  exists m, area, p. split; [exact HD|]. split; [exact Hm|].
  split; [exact Hlen|].
  revert HD. unfold nv12_D. change band_8 with 64.
  pose proof (ALIGN_bounds 64 6 ltac:(lia) eq_refl (o + w)) as Hal.
  rewrite (u16_small (ALIGN (o + w) 64)) by lia.
  destruct (nv12_D_loop _ _ _ _ _ _ _) as [[m' p']|] eqn:Hloop;
    cbn [bind]; [|discriminate].
  intros E. inversion E. subst m' p'.
  apply (nv12_D_loop_layout o w a j n (ALIGN (o + w) 64) _ Hj Ha Ho Hw
           ltac:(lia) 0 ltac:(lia) (Z.mod_0_l a ltac:(lia)) m p Hloop).
Qed.

(** ** Generator C: the alignment *)

Lemma divide_u8 (a x : Z) : (a | 256) -> (a | u8 x - x).
Proof.
  intros [c Hc]. exists (- (x / 256) * c). unfold u8.
  rewrite Z.mod_eq by lia. set (q := x / 256). rewrite Hc. ring.
Qed.

Lemma divide_u16 (a x : Z) : (a | 65536) -> (a | u16 x - x).
Proof.
  intros [c Hc]. exists (- (x / 65536) * c). unfold u16.
  rewrite Z.mod_eq by lia. set (q := x / 65536). rewrite Hc. ring.
Qed.

Lemma divide_s32 (a x : Z) : (a | 4294967296) -> (a | s32 x - x).
Proof.
  intros [c Hc]. exists (- ((x + 2147483648) / 4294967296) * c). unfold s32.
  rewrite Z.mod_eq by lia. set (q := (x + 2147483648) / 4294967296). rewrite Hc. ring.
Qed.

Lemma pow2_divide (a j k : Z) : 0 <= j <= k -> a = 2 ^ j -> (a | 2 ^ k).
Proof.
  intros Hj Ha. exists (2 ^ (k - j)). rewrite Ha, <- Z.pow_add_r by lia.
  f_equal. lia.
Qed.

Section GeneratorCAligned.

Variables o w a j e o2 : Z.
Hypothesis Hj : 1 <= j <= 6.
Hypothesis Ha : a = 2 ^ j.
Hypothesis He : (a | e).
Hypothesis Ho2 : (a | o2 - (o + w)).

Lemma nv12_C_first_aligned (i : Z) :
  (u8 (iadd o (imul i e)) - o) mod a = 0.
Proof.
  pose proof (pow2_pos a j ltac:(lia) Ha) as Hpos.
  apply Z.mod_divide; [lia|].
  pose proof (divide_u8 a (iadd o (imul i e))
                (pow2_divide a j 8 ltac:(lia) Ha)) as H1.
  pose proof (divide_s32 a (o + imul i e)
                (pow2_divide a j 32 ltac:(lia) Ha)) as H2.
  pose proof (divide_s32 a (i * e) (pow2_divide a j 32 ltac:(lia) Ha)) as H3.
  pose proof (Z.divide_mul_r a i e He) as H4.
  unfold iadd, imul in *.
  replace (u8 (s32 (o + s32 (i * e))) - o)
    with ((u8 (s32 (o + s32 (i * e))) - s32 (o + s32 (i * e)))
          + (s32 (o + s32 (i * e)) - (o + s32 (i * e)))
          + (s32 (i * e) - i * e) + i * e) by lia.
  apply Z.divide_add_r; [apply Z.divide_add_r; [apply Z.divide_add_r|]|];
    assumption.
Qed.

Lemma nv12_C_second_aligned (i : Z) :
  (u8 (isub (isub o2 (imul i e)) w) - o) mod a = 0.
Proof.
  pose proof (pow2_pos a j ltac:(lia) Ha) as Hpos.
  apply Z.mod_divide; [lia|].
  set (y := isub (isub o2 (imul i e)) w).
  pose proof (divide_u8 a y (pow2_divide a j 8 ltac:(lia) Ha)) as H1.
  pose proof (divide_s32 a (isub o2 (imul i e) - w)
                (pow2_divide a j 32 ltac:(lia) Ha)) as H2.
  pose proof (divide_s32 a (o2 - imul i e)
                (pow2_divide a j 32 ltac:(lia) Ha)) as H3.
  pose proof (divide_s32 a (i * e) (pow2_divide a j 32 ltac:(lia) Ha)) as H4.
  pose proof (Z.divide_mul_r a i e He) as H5.
  unfold y, isub, imul in *.
  set (t := s32 (i * e)) in *. set (v := s32 (o2 - t)) in *.
  replace (u8 (s32 (v - w)) - o)
    with ((u8 (s32 (v - w)) - s32 (v - w)) + (s32 (v - w) - (v - w))
          + (v - (o2 - t)) - (t - i * e) - i * e + (o2 - (o + w))) by lia.
  apply Z.divide_add_r; [|assumption].
  apply Z.divide_sub_r; [|assumption].
  apply Z.divide_sub_r; [|assumption].
  apply Z.divide_add_r; [|assumption].
  apply Z.divide_add_r; assumption.
Qed.

Lemma nv12_C_loop_aligned (area n m : Z) (fuel : nat) :
  forall i jj p k,
    Z.of_nat (length p) = 2 * k -> aligned_at o a p = true ->
    aligned_at o a (snd (nv12_C_loop fuel o w e area o2 n m i jj p)) = true.
Proof.
  induction fuel as [|fuel IH]; intros i jj p k Hlen Hal;
    cbn [nv12_C_loop]; [exact Hal|].
  destruct ((i <? m) && (jj <? n)); [|exact Hal].
  assert (H1 : aligned_at o a
                 (p ++ [u8 (iadd o (imul i e));
                        u8 (Z.shiftr (iadd (iadd o (imul i e)) area) 1)])
               = true).
  { apply (aligned_at_app o a p _ k Hlen Hal).
    apply aligned_at_pair. apply nv12_C_first_aligned. }
  assert (Hlen1 : Z.of_nat
                    (length
                       (p ++ [u8 (iadd o (imul i e));
                              u8 (Z.shiftr (iadd (iadd o (imul i e)) area) 1)]))
                  = 2 * (k + 1)).
  { rewrite length_app. cbn [length]. lia. }
  destruct (u16 (jj + 1) <? n).
  - apply (IH _ _ _ (k + 2)).
    + rewrite length_app. cbn [length]. lia.
    + apply (aligned_at_app o a _ _ (k + 1) Hlen1 H1).
      apply aligned_at_pair. apply nv12_C_second_aligned.
  - apply (IH _ _ _ (k + 1)); assumption.
Qed.

End GeneratorCAligned.

Lemma nv12_C_aligned (o w a j n : Z) :
  1 <= j <= 6 -> a = 2 ^ j -> 0 <= o < a -> 0 < w < 32768 ->
  exists c p,
    nv12_C o w a n = Some (c, 64, p) /\ aligned_at o a p = true.
Proof.
  intros Hj Ha Ho Hw.
  pose proof (a_range a j ltac:(lia) Ha) as Har.
  pose proof (ALIGN_bounds a j ltac:(lia) Ha w) as Hal.
  pose proof (ALIGN_mod a j w ltac:(lia) Ha) as Hmod.
  unfold nv12_C, irem, idiv.
  destruct (Z.eqb_spec a 0) as [E|_]; [lia|]. cbn [bind].
  rewrite (u16_small (ALIGN w a)) by lia.
  destruct (Z.eqb_spec (ALIGN w a) 0) as [E|_]; [lia|]. cbn [bind].
  change (u16 band_8) with 64.
  pose proof (rem_range (o + w) a ltac:(lia) ltac:(lia)) as Hr1.
  pose proof (rem_range (a - Z.rem (o + w) a) a ltac:(lia) ltac:(lia)) as Hr2.
  set (r2 := Z.rem (a - Z.rem (o + w) a) a) in *.
  assert (Ha64 : a <= 64).
  { rewrite Ha. change 64 with (2 ^ 6). apply Z.pow_le_mono_r; lia. }
  rewrite (u16_small (64 - r2)) by lia.
  assert (Ho2 : (a | 64 - r2 - (o + w))).
  { pose proof (reflect_aligned o w a j 0 Hj Ha ltac:(lia) ltac:(lia)) as H.
    assert (H64 : (a | 64)) by (apply (pow2_divide a j 6); [lia|exact Ha]).
    assert (Hopp : (a | r2 + (o + w))).
    { subst r2. rewrite (Z.rem_mod_nonneg (a - Z.rem (o + w) a) a) by lia.
      rewrite (Z.rem_mod_nonneg (o + w) a) in * by lia.
      exists (1 + (o + w) / a - (a - (o + w) mod a) / a).
      pose proof (Z.div_mod (o + w) a ltac:(lia)).
      pose proof (Z.div_mod (a - (o + w) mod a) a ltac:(lia)).
      lia. }
    clear H.
    replace (64 - r2 - (o + w)) with (64 - 2 * r2 + (r2 - (o + w))) by lia.
    (* 64 - r2 - (o + w) = 64 - (r2 + (o + w)) *)
    replace (64 - 2 * r2 + (r2 - (o + w))) with (64 - (r2 + (o + w))) by lia.
    apply Z.divide_sub_r; assumption. }
  assert (He : (a | ALIGN w a)) by (apply Z.mod_divide; [lia|exact Hmod]).
  match goal with
  | |- context [nv12_C_loop ?f ?o ?w ?e ?ar ?o2 ?n ?m ?i ?jj ?p] =>
    pose proof (nv12_C_loop_aligned o w a j e o2 Hj Ha He Ho2 ar n m f
                  i jj p 0 eq_refl eq_refl) as H;
    destruct (nv12_C_loop f o w e ar o2 n m i jj p) as [c p']
  end.
  cbn [snd] in H. exists c, p'. split; [reflexivity|exact H].
Qed.

(** ** The generators honour the offset, and keep their blocks apart *)

(** X14.  For a valid request every generator gives a packing in which
    each 8-bit block starts at the requested offset within the
    alignment: its offset is [o] plus a multiple of [a]. *)
Theorem generators_aligned (o w a j n : Z) :
  1 <= j <= 6 -> a = 2 ^ j -> 0 <= o < a -> 0 < w <= 256 ->
  0 <= n < 65536 ->
  (exists m p, nv12_A o w a n = Some (m, 64, p) /\ aligned_at o a p = true)
  /\ (exists m p,
        nv12_revA o w a n = Some (m, 64, p) /\ aligned_at o a p = true)
  /\ (exists m p,
        nv12_B o w a n = Some (m, 64, p) /\ aligned_at o a p = true)
  /\ (exists m p,
        nv12_C o w a n = Some (m, 64, p) /\ aligned_at o a p = true)
  /\ (exists m area p,
        nv12_D o w a n = Some (m, area, p) /\ aligned_at o a p = true).
Proof.
  intros Hj Ha Ho Hw Hn.
  pose proof (a_range a j ltac:(lia) Ha) as Har.
  split; [|split; [|split; [|split]]].
  - destruct (nv12_A_layout o w a j n ltac:(lia) Ha ltac:(lia) ltac:(lia) Hn)
      as (m & p & H & _ & _ & Hal & _).
    exists m, p. split; assumption.
  - destruct (nv12_revA_layout o w a j n Hj Ha ltac:(lia) ltac:(lia) Hn)
      as (m & p & H & _ & _ & Hal & _).
    exists m, p. split; assumption.
  - destruct (nv12_B_layout o w a j n ltac:(lia) Ha ltac:(lia) ltac:(lia) Hn)
      as (m & p & H & _ & _ & Hal & _).
    exists m, p. split; assumption.
  - apply (nv12_C_aligned o w a j n); try assumption; lia.
  - destruct (nv12_D_layout o w a j n Hj Ha Ho Hw Hn)
      as (m & area & p & H & _ & _ & Hal & _).
    exists m, area, p. split; assumption.
Qed.

Lemma generators_aligned_witness :
  (exists m p, nv12_A 2 4 4 8 = Some (m, 64, p) /\ aligned_at 2 4 p = true)
  /\ (exists m p,
        nv12_revA 2 4 4 8 = Some (m, 64, p) /\ aligned_at 2 4 p = true)
  /\ (exists m p,
        nv12_B 2 4 4 8 = Some (m, 64, p) /\ aligned_at 2 4 p = true)
  /\ (exists m p,
        nv12_C 2 4 4 8 = Some (m, 64, p) /\ aligned_at 2 4 p = true)
  /\ (exists m area p,
        nv12_D 2 4 4 8 = Some (m, area, p) /\ aligned_at 2 4 p = true).
Proof.
  apply (generators_aligned 2 4 4 2 8); first [reflexivity|lia].
Defined.

(** X15.  For a valid request no two blocks of the packing of generator
    A, of reverse-A or of D overlap: 8-bit blocks and 16-bit blocks
    alike take slots of their own. *)
Theorem generators_no_overlap (o w a j n : Z) :
  1 <= j <= 6 -> a = 2 ^ j -> 0 <= o < a -> 0 < w <= 256 ->
  0 <= n < 65536 ->
  (exists m p,
     nv12_A o w a n = Some (m, 64, p) /\ no_overlap (blocks w p) = true)
  /\ (exists m p,
        nv12_revA o w a n = Some (m, 64, p)
        /\ no_overlap (blocks w p) = true)
  /\ (exists m area p,
        nv12_D o w a n = Some (m, area, p)
        /\ no_overlap (blocks w p) = true).
Proof.
  intros Hj Ha Ho Hw Hn.
  pose proof (a_range a j ltac:(lia) Ha) as Har.
  split; [|split].
  - destruct (nv12_A_layout o w a j n ltac:(lia) Ha ltac:(lia) ltac:(lia) Hn)
      as (m & p & H & _ & _ & _ & Hno).
    exists m, p. split; assumption.
  - destruct (nv12_revA_layout o w a j n Hj Ha ltac:(lia) ltac:(lia) Hn)
      as (m & p & H & _ & _ & _ & Hno).
    exists m, p. split; assumption.
  - destruct (nv12_D_layout o w a j n Hj Ha Ho Hw Hn)
      as (m & area & p & H & _ & _ & _ & Hno).
    exists m, area, p. split; assumption.
Qed.

Lemma generators_no_overlap_witness :
  (exists m p,
     nv12_A 2 4 4 8 = Some (m, 64, p) /\ no_overlap (blocks 4 p) = true)
  /\ (exists m p,
        nv12_revA 2 4 4 8 = Some (m, 64, p)
        /\ no_overlap (blocks 4 p) = true)
  /\ (exists m area p,
        nv12_D 2 4 4 8 = Some (m, area, p)
        /\ no_overlap (blocks 4 p) = true).
Proof.
  apply (generators_no_overlap 2 4 4 2 8); first [reflexivity|lia].
Defined.

(** X16.  In the packing of generator B no two 8-bit blocks overlap and
    no two 16-bit blocks overlap.  A 16-bit block can overlap an 8-bit
    block, though: the test before the loop looks at the 16-bit offset
    a quarter of the alignment on ([a >> 2]), and the 16-bit block of
    every other pair lies half the alignment on.  For [o = 11],
    [w = 3], [a = 16] the second pair has its 16-bit block at 13, in
    the slots of the first 8-bit block (11 to 14). *)
Theorem nv12_B_blocks (o w a j n : Z) :
  1 <= j <= 6 -> a = 2 ^ j -> 0 <= o < a -> 0 < w -> 0 <= n < 65536 ->
  (exists m p,
     nv12_B o w a n = Some (m, 64, p)
     /\ no_overlap (blocks_8 w p) = true
     /\ no_overlap (blocks_16 w p) = true)
  /\ nv12_B 11 3 16 2 = Some (2, 64, [11; 5; 27; 13])
  /\ no_overlap (blocks 3 [11; 5; 27; 13]) = false.
Proof.
  intros Hj Ha Ho Hw Hn. split; [|split; vm_compute; reflexivity].
  pose proof (a_range a j ltac:(lia) Ha) as Har.
  destruct (nv12_B_layout o w a j n ltac:(lia) Ha ltac:(lia) ltac:(lia) Hn)
    as (m & p & H & _ & _ & _ & H8 & H16).
  exists m, p. repeat split; assumption.
Qed.

Lemma nv12_B_blocks_witness :
  (exists m p,
     nv12_B 11 3 16 2 = Some (m, 64, p)
     /\ no_overlap (blocks_8 3 p) = true
     /\ no_overlap (blocks_16 3 p) = true)
  /\ nv12_B 11 3 16 2 = Some (2, 64, [11; 5; 27; 13])
  /\ no_overlap (blocks 3 [11; 5; 27; 13]) = false.
Proof.
  apply (nv12_B_blocks 11 3 16 4 2); first [reflexivity|lia].
Defined.

(** ** Generator C, when its count formula has room *)

Section GeneratorCLayout.

Variables o w e h o2 dm n m : Z.
Hypothesis Ho : 0 <= o.
Hypothesis Hw : 0 < w.
Hypothesis He : e = 2 * h.
Hypothesis Hwe : w <= e.
Hypothesis Hw1 : (w + 1) / 2 <= h.
Hypothesis Ho2 : o2 <= 64.
Hypothesis Hdm1 : 3 * dm <= o2 - 2 * o.
Hypothesis Hdm2 : 3 * dm <= 2 * o2 - o - 64.
Hypothesis Hm : forall i, 0 <= i < m -> i * e + w <= dm.
Hypothesis Hn : 0 <= n < 65535.
Hypothesis Hm16 : m <= 65535.

Lemma layout_C_first (i k : Z) (p : list Z) :
  0 <= i < m -> Z.of_nat (length p) = 2 * k ->
  no_overlap (blocks w p) = true ->
  Forall (layout_C o w e o2 dm i i) (blocks w p) ->
  let x := o + i * e in
  let l := (x + 64) / 2 in
  no_overlap (blocks w (p ++ [x; l])) = true
  /\ Forall (layout_C o w e o2 dm (i + 1) i) (blocks w (p ++ [x; l]))
  /\ 0 <= x /\ x + w <= 64 /\ 0 <= l /\ l + (w + 1) / 2 <= 64.
Proof.
  intros Hi Hlen Hno Hall x l. pose proof (Hm i Hi) as Hd.
  assert (Hie : 0 <= i * e) by nia.
  set (t := i * e) in *.
  assert (Ht1 : (i + 1) * e = t + 2 * h) by (subst t; lia).
  split; [|split].
  - apply (no_overlap_snoc w p k x l Hlen Hno).
    + left. subst x l. Z.div_mod_to_equations. lia.
    + eapply Forall_impl; [|exact Hall].
      intros [s u] Hb. unfold layout_C in Hb. cbn [fst snd] in *.
      rewrite shiftr1. subst x l. fold t in Hb |- *.
      Z.div_mod_to_equations. lia.
  - apply (Forall_blocks_snoc _ w p k x l Hlen).
    + eapply Forall_impl; [|exact Hall].
      intros [s u] Hb. unfold layout_C in *. cbn [fst snd] in *.
      fold t in Hb. rewrite Ht1. Z.div_mod_to_equations. lia.
    + unfold layout_C. cbn [fst snd]. rewrite Ht1. subst x. left. lia.
    + unfold layout_C. cbn [fst snd]. rewrite Ht1, shiftr1. subst x l.
      right. right. left. Z.div_mod_to_equations. lia.
  - subst x l. Z.div_mod_to_equations. lia.
Qed.

Lemma layout_C_second (i k : Z) (p : list Z) :
  0 <= i < m -> Z.of_nat (length p) = 2 * k ->
  no_overlap (blocks w p) = true ->
  Forall (layout_C o w e o2 dm (i + 1) i) (blocks w p) ->
  let y := o2 - i * e - w in
  let l := y / 2 in
  no_overlap (blocks w (p ++ [y; l])) = true
  /\ Forall (layout_C o w e o2 dm (i + 1) (i + 1)) (blocks w (p ++ [y; l]))
  /\ 0 <= y /\ y + w <= 64 /\ 0 <= l /\ l + (w + 1) / 2 <= 64.
Proof.
  intros Hi Hlen Hno Hall y l. pose proof (Hm i Hi) as Hd.
  assert (Hie : 0 <= i * e) by nia.
  set (t := i * e) in *.
  assert (Ht1 : (i + 1) * e = t + 2 * h) by (subst t; lia).
  split; [|split].
  - apply (no_overlap_snoc w p k y l Hlen Hno).
    + right. rewrite shiftr1. subst y l. Z.div_mod_to_equations. lia.
    + eapply Forall_impl; [|exact Hall].
      intros [s u] Hb. unfold layout_C in Hb. cbn [fst snd] in *.
      rewrite shiftr1. subst y l. fold t in Hb |- *. rewrite Ht1 in Hb.
      Z.div_mod_to_equations. lia.
  - apply (Forall_blocks_snoc _ w p k y l Hlen).
    + eapply Forall_impl; [|exact Hall].
      intros [s u] Hb. unfold layout_C in *. cbn [fst snd] in *.
      fold t in Hb. rewrite Ht1 in *. Z.div_mod_to_equations. lia.
    + unfold layout_C. cbn [fst snd]. rewrite Ht1. subst y.
      right. right. right. lia.
    + unfold layout_C. cbn [fst snd]. rewrite Ht1, shiftr1. subst y l.
      right. left. Z.div_mod_to_equations. lia.
  - subst y l. Z.div_mod_to_equations. lia.
Qed.

Lemma layout_C_weaken (i : Z) (bs : list (Z * Z)) :
  0 <= i ->
  Forall (layout_C o w e o2 dm (i + 1) i) bs ->
  Forall (layout_C o w e o2 dm (i + 1) (i + 1)) bs.
Proof.
  intros Hi Hall. eapply Forall_impl; [|exact Hall].
  intros [s u] Hb. unfold layout_C in *. cbn [fst snd] in *.
  assert (Hie : 0 <= i * e) by nia.
  set (t := i * e) in *.
  assert (Ht1 : (i + 1) * e = t + 2 * h) by (subst t; lia).
  rewrite Ht1 in *. Z.div_mod_to_equations. lia.
Qed.

Lemma nv12_C_loop_layout (fuel : nat) :
  forall i jj p,
    0 <= i -> 0 <= jj <= n + 1 ->
    Z.of_nat (length p) = 2 * Z.min jj n ->
    pairs_ok 64 w p = true ->
    no_overlap (blocks w p) = true ->
    Forall (layout_C o w e o2 dm i i) (blocks w p) ->
    exists c p',
      nv12_C_loop fuel o w e 64 o2 n m i jj p = (c, p')
      /\ 0 <= c <= n + 1
      /\ Z.of_nat (length p') = 2 * Z.min c n
      /\ pairs_ok 64 w p' = true
      /\ no_overlap (blocks w p') = true.
Proof.
  induction fuel as [|fuel IH]; intros i jj p Hi Hjj Hlen Hp Hno Hall;
    cbn [nv12_C_loop].
  - exists jj, p. repeat split; try lia; assumption.
  - destruct (Z.ltb_spec i m) as [Him|Him]; cbn [andb];
      [|exists jj, p; repeat split; try lia; assumption].
    destruct (Z.ltb_spec jj n) as [Hjn|Hjn];
      [|exists jj, p; repeat split; try lia; assumption].
    pose proof (Hm i ltac:(lia)) as Hd.
    assert (Hie : 0 <= i * e) by nia.
    assert (Hdm64 : dm <= 64) by lia.
    assert (Hw1' : 0 <= (w + 1) / 2) by (apply Z.div_pos; lia).
    rewrite (imul_small i e) by lia.
    rewrite (iadd_small o (i * e)) by lia.
    rewrite (iadd_small (o + i * e) 64) by lia.
    rewrite (isub_small o2 (i * e)) by lia.
    rewrite (isub_small (o2 - i * e) w) by lia.
    rewrite !shiftr1.
    rewrite (u16_small (jj + 1)), (u16_small (i + 1)) by lia.
    rewrite (u16_small (jj + 1 + 1)) by lia.
    destruct (layout_C_first i (Z.min jj n) p ltac:(lia) Hlen Hno Hall)
      as (Hno1 & Hall1 & Hx0 & Hx1 & Hl0 & Hl1).
    rewrite (u8_small (o + i * e)), (u8_small ((o + i * e + 64) / 2)) by lia.
    set (p1 := p ++ [o + i * e; (o + i * e + 64) / 2]) in *.
    assert (Hlen1 : Z.of_nat (length p1) = 2 * (jj + 1)).
    { subst p1. rewrite length_app. cbn [length]. lia. }
    assert (Hp1 : pairs_ok 64 w p1 = true).
    { subst p1. apply pairs_ok_app; [|exact Hp].
      apply pairs_ok_pair; try lia. rewrite shiftr1. lia. }
    destruct (Z.ltb_spec (jj + 1) n) as [Hj1|Hj1].
    + destruct (layout_C_second i (jj + 1) p1 ltac:(lia) Hlen1 Hno1 Hall1)
        as (Hno2 & Hall2 & Hy0 & Hy1 & Hl20 & Hl21).
      rewrite (u8_small (o2 - i * e - w)),
        (u8_small ((o2 - i * e - w) / 2)) by lia.
      apply IH; try lia; try assumption.
      * rewrite length_app. cbn [length]. lia.
      * apply pairs_ok_app; [|exact Hp1].
        apply pairs_ok_pair; try lia. rewrite shiftr1. lia.
    + apply IH; try lia; try assumption.
      apply layout_C_weaken; [lia|exact Hall1].
Qed.

End GeneratorCLayout.

(** X17.  When the room the count of [nv12_C] is computed from holds
    at least one block, the pairs it stores lie inside the area of 64
    slots and no two of their blocks overlap; it stores the pairs it
    counts, or, for an odd request, one fewer. *)
Theorem nv12_C_guarded (o w a j n : Z) :
  1 <= j <= 6 -> a = 2 ^ j -> 0 <= o < a -> 0 < w -> 0 <= n < 65535 ->
  let o2 := 64 - (a - (o + w) mod a) mod a in
  3 * w <= Z.min (o2 - 2 * o) (2 * o2 - o - 64) ->
  exists c p,
    nv12_C o w a n = Some (c, 64, p)
    /\ 0 <= c <= n + 1
    /\ Z.of_nat (length p) = 2 * Z.min c n
    /\ pairs_ok 64 w p = true
    /\ no_overlap (blocks w p) = true.
Proof.
  intros Hj Ha Ho Hw Hn o2 Hroom.
  pose proof (a_range a j ltac:(lia) Ha) as Har.
  assert (Ha64 : a <= 64).
  { rewrite Ha. change 64 with (2 ^ 6). apply Z.pow_le_mono_r; lia. }
  pose proof (rem_range (o + w) a ltac:(lia) ltac:(lia)) as Hr1.
  pose proof (rem_range (a - Z.rem (o + w) a) a ltac:(lia) ltac:(lia)) as Hr2.
  assert (Eo2 : 64 - Z.rem (a - Z.rem (o + w) a) a = o2).
  { subst o2. rewrite (Z.rem_mod_nonneg (a - Z.rem (o + w) a) a) by lia.
    rewrite (Z.rem_mod_nonneg (o + w) a) by lia. reflexivity. }
  assert (Ho2 : 0 <= o2 <= 64) by lia.
  destruct (half_pitch w a j ltac:(lia) Ha Hw) as [Hhalf He].
  rewrite !Z.quot_div_nonneg in Hhalf by lia.
  pose proof (ALIGN_mod a j w ltac:(lia) Ha) as Hemod.
  pose proof (pow2_even a j ltac:(lia) Ha) as Heven.
  assert (Hw64 : w <= 21) by lia.
  set (e := ALIGN w a) in *.
  assert (He2 : e = 2 * (e / 2)).
  { apply Z.mod_divide in Hemod; [|lia]. destruct Hemod as [c Hc].
    rewrite Hc, Heven.
    replace (c * (2 * 2 ^ (j - 1))) with (c * 2 ^ (j - 1) * 2) by lia.
    rewrite Z.div_mul by lia. lia. }
  set (M := Z.min (o2 - 2 * o) (2 * o2 - o - 64)) in *.
  assert (HM : 3 * w <= M <= 64) by lia.
  unfold nv12_C, irem, idiv.
  destruct (Z.eqb_spec a 0) as [E|_]; [lia|]. cbn [bind].
  fold e. rewrite (u16_small e) by lia.
  destruct (Z.eqb_spec e 0) as [E|_]; [lia|]. cbn [bind].
  change (u16 band_8) with 64. rewrite Eo2, (u16_small o2) by lia.
  fold M.
  rewrite (Z.quot_div_nonneg M 3) by lia.
  assert (Hdm : w <= M / 3 /\ 3 * (M / 3) <= M).
  { split; [apply Z.div_le_lower_bound; lia|apply Z.mul_div_le; lia]. }
  set (dm := M / 3) in *.
  rewrite (Z.quot_div_nonneg (dm - w) e) by lia.
  assert (Hq : 0 <= (dm - w) / e /\ e * ((dm - w) / e) <= dm - w).
  { split; [apply Z.div_pos; lia|apply Z.mul_div_le; lia]. }
  set (q := (dm - w) / e) in *.
  destruct (nv12_C_loop_layout o w e (e / 2) o2 dm n (q + 1)
              ltac:(lia) Hw He2 ltac:(lia) ltac:(lia) ltac:(lia)
              ltac:(lia) ltac:(lia)
              ltac:(intros i Hi; nia) Hn ltac:(nia)
              (Z.to_nat (q + 1)) 0 0 [] ltac:(lia) ltac:(lia)
              ltac:(cbn [length]; lia) eq_refl eq_refl
              (Forall_nil _))
    as (c & p & Hrun & Hc & Hlen & Hp & Hno).
  rewrite Hrun. exists c, p. repeat split; try lia; assumption.
Qed.

Lemma nv12_C_guarded_witness :
  exists c p,
    nv12_C 0 4 4 3 = Some (c, 64, p)
    /\ 0 <= c <= 3 + 1
    /\ Z.of_nat (length p) = 2 * Z.min c 3
    /\ pairs_ok 64 4 p = true
    /\ no_overlap (blocks 4 p) = true.
Proof.
  apply (nv12_C_guarded 0 4 4 2 3);
    first [reflexivity|lia|vm_compute; intros H; discriminate H].
Defined.

(** ** The table of special packings *)

Lemma firstn_pairs_8 (w c : Z) :
  0 < w <= 4 -> 0 <= c <= 9 ->
  let pk := firstn (Z.to_nat (c * 2))
              [2; 33; 6; 35; 10; 37; 14; 39; 18; 41; 46; 23; 50; 25; 54; 27;
               58; 29; 3; 0; 12; 4; 64; 0; 32; 12; 38; 48; 24; 0] in
  Z.of_nat (length pk) = 2 * c
  /\ pairs_ok 64 w pk = true /\ no_overlap (blocks w pk) = true.
Proof.
  intros Hw Hc.
  assert (Ew : w = 1 \/ w = 2 \/ w = 3 \/ w = 4) by lia.
  assert (Ec : c = 0 \/ c = 1 \/ c = 2 \/ c = 3 \/ c = 4 \/ c = 5 \/ c = 6
               \/ c = 7 \/ c = 8 \/ c = 9) by lia.
  repeat (destruct Ew as [->|Ew]); try subst w;
    repeat (destruct Ec as [->|Ec]); try subst c;
    vm_compute; repeat split; reflexivity.
Qed.

Lemma firstn_pairs_12 (w c : Z) :
  0 < w <= 12 -> 0 <= c <= 3 ->
  let pk := firstn (Z.to_nat (c * 2)) [0; 32; 12; 38; 48; 24; 0] in
  Z.of_nat (length pk) = 2 * c
  /\ pairs_ok 64 w pk = true /\ no_overlap (blocks w pk) = true.
Proof.
  intros Hw Hc.
  assert (Ew : w = 1 \/ w = 2 \/ w = 3 \/ w = 4 \/ w = 5 \/ w = 6 \/ w = 7
               \/ w = 8 \/ w = 9 \/ w = 10 \/ w = 11 \/ w = 12) by lia.
  assert (Ec : c = 0 \/ c = 1 \/ c = 2 \/ c = 3) by lia.
  repeat (destruct Ew as [->|Ew]); try subst w;
    repeat (destruct Ec as [->|Ec]); try subst c;
    vm_compute; repeat split; reflexivity.
Qed.

(** The test on a table entry leaves room for the block: it is not
    wider than the block of the entry. *)
Lemma compatible_width (o w a j o_ w_ : Z) :
  0 <= j -> a = 2 ^ j ->
  (o + w + ALIGN (o_ - o) a <=? o_ + w_) = true -> w <= w_.
Proof.
  intros Hj Ha H. apply Z.leb_le in H.
  pose proof (ALIGN_bounds a j Hj Ha (o_ - o)). lia.
Qed.

(** X18.  The walk over the table of special packings leaves the
    incumbent as it is, or takes an entry, with a count of at most
    [n]; the pairs that are then copied out lie inside the area of 64
    slots and no two of their blocks overlap, for the width of the
    request.  Their 8-bit offsets are those of the entry, though, not
    the requested one: for [o = 1], [w = 1], [a = 2] the pair handed
    out by [nv12_together] has its 8-bit block at offset 2. *)
Theorem special_packings_fit (o w a j n c ar : Z) (pb : option (list Z)) :
  0 <= j -> a = 2 ^ j -> 0 < w -> 0 <= n ->
  let r := special_packings (length packings) o w a n packings c ar pb in
  (r = (c, ar, pb)
   \/ exists c' src,
        r = (c', 64, Some src) /\ 0 <= c' <= n
        /\ let pk := firstn (Z.to_nat (c' * 2)) src in
           Z.of_nat (length pk) = 2 * c'
           /\ pairs_ok 64 w pk = true /\ no_overlap (blocks w pk) = true)
  /\ nv12_together [] 1 1 2 1 0 [] = Some (1, 64, [2; 33])
  /\ aligned_at 1 2 [2; 33] = false.
Proof.
  intros Hj Ha Hw Hn r. split; [|split; vm_compute; reflexivity].
  subst r. unfold packings. cbn [length].
  rewrite special_packings_entry.
  change (9 =? 0) with false. cbv iota.
  destruct (9 <? c); [left; reflexivity|].
  destruct (a <=? 4) eqn:Ha4; cbn [andb].
  - destruct (o + w + ALIGN (2 - o) a <=? 2 + 4) eqn:Hc1.
    + right. pose proof (compatible_width o w a j 2 4 Hj Ha Hc1) as Hw4.
      eexists. eexists. split; [reflexivity|]. split; [lia|].
      apply firstn_pairs_8; lia.
    + match goal with
      | |- context [skipn ?k ?l] =>
        let t := eval vm_compute in (skipn k l) in change (skipn k l) with t
      end.
      rewrite special_packings_entry.
      change (3 =? 0) with false. cbv iota.
      destruct (3 <? c); [left; reflexivity|]. rewrite Ha4. cbn [andb].
      destruct (o + w + ALIGN (0 - o) a <=? 0 + 12) eqn:Hc2.
      * right. pose proof (compatible_width o w a j 0 12 Hj Ha Hc2) as Hw12.
        eexists. eexists. split; [reflexivity|]. split; [lia|].
        apply firstn_pairs_12; lia.
      * match goal with
        | |- context [skipn ?k ?l] =>
          let t := eval vm_compute in (skipn k l) in
          change (skipn k l) with t
        end.
        rewrite special_packings_end. left. reflexivity.
  - match goal with
    | |- context [skipn ?k ?l] =>
      let t := eval vm_compute in (skipn k l) in change (skipn k l) with t
    end.
    rewrite special_packings_entry.
    change (3 =? 0) with false. cbv iota.
    destruct (3 <? c); [left; reflexivity|]. rewrite Ha4. cbn [andb].
    match goal with
    | |- context [skipn ?k ?l] =>
      let t := eval vm_compute in (skipn k l) in change (skipn k l) with t
    end.
    rewrite special_packings_end. left. reflexivity.
Qed.

Lemma special_packings_fit_witness :
  let r := special_packings (length packings) 2 4 4 8 packings 8 64 None in
  (r = (8, 64, None)
   \/ exists c' src,
        r = (c', 64, Some src) /\ 0 <= c' <= 8
        /\ let pk := firstn (Z.to_nat (c' * 2)) src in
           Z.of_nat (length pk) = 2 * c'
           /\ pairs_ok 64 4 pk = true /\ no_overlap (blocks 4 pk) = true)
  /\ nv12_together [] 1 1 2 1 0 [] = Some (1, 64, [2; 33])
  /\ aligned_at 1 2 [2; 33] = false.
Proof.
  apply (special_packings_fit 2 4 4 2 8 8 64 None); first [reflexivity|lia].
Defined.

(** ** [tiler_reserve_init] *)

(** X19.  With slots of the same width [2 ^ k] pixels for the 8-bit
    and the 16-bit format, one and two bytes per pixel,
    [tiler_reserve_init] sets the 8-bit band to the slots of a page
    and the 16-bit band to half as many; for slots of 64 pixels these
    are the 64 and 32 slots the planners work with.  It divides by
    zero when a slot width, or the 16-bit pixel size, is zero. *)
Theorem tiler_reserve_init_bands (geom : Z -> Z * Z) (k : Z) :
  0 <= k <= 11 ->
  geom TILFMT_8BIT = (2 ^ k, 1) -> geom TILFMT_16BIT = (2 ^ k, 2) ->
  tiler_reserve_init geom = Some (2 ^ (12 - k), 2 ^ (11 - k))
  /\ 2 ^ (12 - k) * 2 ^ k = PAGE_SIZE
  /\ 2 ^ (12 - k) = 2 * 2 ^ (11 - k)
  /\ (k = 6 -> tiler_reserve_init geom = Some (band_8, band_16)).
Proof.
  intros Hk H8 H16.
  assert (Hpos : 0 < 2 ^ k) by (apply Z.pow_pos_nonneg; lia).
  assert (Hpage : 2 ^ (12 - k) * 2 ^ k = 4096).
  { rewrite <- Z.pow_add_r by lia. replace (12 - k + k) with 12 by lia.
    reflexivity. }
  assert (Hhalf : 2 ^ (12 - k) = 2 * 2 ^ (11 - k)).
  { replace (12 - k) with (1 + (11 - k)) by lia.
    rewrite Z.pow_add_r by lia. reflexivity. }
  assert (Hb : 0 < 2 ^ (11 - k) <= 2048).
  { split; [apply Z.pow_pos_nonneg; lia|].
    change 2048 with (2 ^ 11). apply Z.pow_le_mono_r; lia. }
  assert (Hq : Z.quot 4096 (2 ^ k) = 2 ^ (12 - k)).
  { rewrite <- Hpage. apply Z.quot_mul. lia. }
  assert (Hq2 : Z.quot (2 ^ (12 - k)) 2 = 2 ^ (11 - k)).
  { rewrite Hhalf, Z.mul_comm. apply Z.quot_mul. lia. }
  assert (Hrun : tiler_reserve_init geom
                 = Some (2 ^ (12 - k), 2 ^ (11 - k))).
  { unfold tiler_reserve_init, idiv. rewrite H8, H16. cbn [fst snd].
    destruct (Z.eqb_spec (2 ^ k) 0) as [E|_]; [lia|]. cbn [bind].
    change (2 =? 0) with false. cbn [bind]. change PAGE_SIZE with 4096.
    rewrite Hq, Hq2, !s32_small by lia. reflexivity. }
  split; [exact Hrun|]. split; [exact Hpage|]. split; [exact Hhalf|].
  intros ->. exact Hrun.
Qed.

Lemma tiler_reserve_init_bands_witness :
  tiler_reserve_init (fun fmt => (64, fmt + 1))
  = Some (2 ^ (12 - 6), 2 ^ (11 - 6))
  /\ 2 ^ (12 - 6) * 2 ^ 6 = PAGE_SIZE
  /\ 2 ^ (12 - 6) = 2 * 2 ^ (11 - 6)
  /\ (6 = 6 ->
      tiler_reserve_init (fun fmt => (64, fmt + 1))
      = Some (band_8, band_16)).
Proof.
  apply (tiler_reserve_init_bands (fun fmt => (64, fmt + 1)) 6);
    first [reflexivity|lia].
Defined.

Remark tiler_reserve_init_traps :
  tiler_reserve_init (fun _ => (0, 1)) = None
  /\ tiler_reserve_init (fun _ => (64, 0)) = None.
Proof. split; reflexivity. Qed.

(** ** The calls [reserve_nv12] makes *)

Lemma s32_range (x : Z) : -2147483648 <= s32 x < 2147483648.
Proof.
  unfold s32.
  pose proof (Z.mod_pos_bound (x + 2147483648) 4294967296 ltac:(lia)). lia.
Qed.

Section Nv12Protocol.

Variables St Blk : Type.
Variable ops : tiler_ops St Blk.
Variable can : bool.
Variable n : Z.

Lemma separate_commit_events (n_s w h band a o : Z) (s : world St Blk) :
  1 <= n_s <= n ->
  reserved (snd (separate_commit ops n_s w h band a o s)) = []
  /\ exists body,
       trace (snd (separate_commit ops n_s w h band a o s)) = trace s ++ body
       /\ forallb (nv12_event can n) body = true.
Proof.
  intros Hn.
  assert (Hev : forall fmt w' h' band' a' o' r,
             nv12_event can n (Ev_lay_2d fmt n_s w' h' band' a' o' L_reserved r)
             = true).
  { intros. cbn [nv12_event].
    rewrite (proj2 (Z.leb_le 1 n_s)), (proj2 (Z.leb_le n_s n)) by lia.
    reflexivity. }
  unfold separate_commit, do_lay_2d.
  destruct (lay_2d ops TILFMT_8BIT n_s w h band a o (alloc s))
    as [[r1 bs1] st1]. cbn.
  destruct (Z.ltb_spec r1 0) as [Hneg|Hpos].
  - rewrite (proj2 (Z.ltb_lt r1 0) Hneg). cbn.
    split; [reflexivity|]. eexists. rewrite <- app_assoc.
    split; [reflexivity|]. cbn [app forallb]. rewrite Hev. reflexivity.
  - destruct (lay_2d ops TILFMT_16BIT n_s (Z.quot (w + 1) 2) h
                (Z.quot band 2) (Z.quot a 2) (Z.quot o 2) st1)
      as [[r2 bs2] st2]. cbn.
    destruct ((r2 <? 0) || negb (r1 =? r2)); cbn;
      (split; [reflexivity|]); eexists; rewrite <- !app_assoc;
      (split; [reflexivity|]); cbn [app forallb]; rewrite !Hev; reflexivity.
Qed.

Lemma do_lay_nv12_events (k area w h : Z) (p : list Z) (s : world St Blk) :
  can = true -> k <> 0 ->
  reserved (snd (do_lay_nv12 ops k area w h p s)) = reserved s
  /\ exists body,
       trace (snd (do_lay_nv12 ops k area w h p s)) = trace s ++ body
       /\ forallb (nv12_event can n) body = true.
Proof.
  intros Hcan Hk. unfold do_lay_nv12.
  destruct (lay_nv12 ops k area w h p (alloc s)) as [[r bs] st]. cbn.
  split; [reflexivity|]. eexists. split; [reflexivity|].
  cbn [forallb nv12_event]. rewrite Hcan.
  destruct (Z.eqb_spec k 0); [contradiction|reflexivity].
Qed.

(** The count [nv12_separate] returns is within its bound. *)
Lemma separate_count_in_bound (W o w a need area c area' : Z) :
  1 <= need < 65536 ->
  nv12_separate W o w a need area = Some (c, area') -> 1 <= c <= need.
Proof.
  intros Hn. unfold nv12_separate, tiler_best2pack.
  destruct (best2pack_loop W (Z.to_nat need) _ _ _ _ _ _ _ _ _ _ _)
    as [[[r1 n1] ar1]|] eqn:H1; cbn [bind]; [|discriminate].
  apply best2pack_loop_count in H1; try lia.
  destruct (best2pack_loop W (Z.to_nat n1) _ _ _ _ _ _ _ _ _ _ _)
    as [[[r2 n2] ar2]|] eqn:H2; cbn [bind]; [|discriminate].
  apply best2pack_loop_count in H2; try lia.
  intros E. inversion E. subst. lia.
Qed.

Lemma nv12_round_events (stack : list Z) (i w h band a o : Z)
    (loc loc' : nv12_locals) (s s' : world St Blk) (res : Z) :
  0 <= i < n -> n < 65536 -> reserved s = [] ->
  nv12_round ops stack can n i w h band a o loc s = Some (res, loc', s') ->
  reserved s' = []
  /\ exists body,
       trace s' = trace s ++ body /\ forallb (nv12_event can n) body = true.
Proof.
  intros Hi Hn Hres. unfold nv12_round.
  rewrite (u32_small (n - i)), (u16_small (n - i)) by lia.
  destruct (nv12_separate _ _ _ _ _ _) as [[n_s ar_s]|] eqn:Hsep;
    cbn [bind]; [|discriminate].
  apply separate_count_in_bound in Hsep; [|lia].
  match goal with
  | |- context [bind ?x _] => destruct x as [[[n_t ar_t] pk]|]
  end; cbn [bind]; [|discriminate].
  match goal with
  | |- context [bind ?x _] => destruct x as [sep|]
  end; cbn [bind]; [|discriminate].
  destruct (separate_commit_events n_s w h band a o s ltac:(lia))
    as (Hr1 & body1 & Ht1 & Hb1).
  destruct sep.
  - destruct (separate_commit ops n_s w h band a o s) as [r1 s1].
    cbn [snd] in Hr1, Ht1.
    destruct ((r1 <? 0) && can && negb (n_t =? 0)) eqn:Hgo.
    + apply andb_prop in Hgo. destruct Hgo as [Hgo Hnt].
      apply andb_prop in Hgo. destruct Hgo as [_ Hcan].
      apply negb_true_iff, Z.eqb_neq in Hnt.
      destruct (do_lay_nv12_events n_t ar_t w h pk s1 Hcan Hnt)
        as (Hr2 & body2 & Ht2 & Hb2).
      destruct (do_lay_nv12 ops n_t ar_t w h pk s1) as [r2 s2].
      cbn [snd] in Hr2, Ht2. intros E. inversion E. subst.
      split; [congruence|]. exists (body1 ++ body2).
      rewrite Ht2, Ht1, app_assoc. split; [reflexivity|].
      rewrite forallb_app, Hb1, Hb2. reflexivity.
    + intros E. inversion E. subst. split; [exact Hr1|].
      exists body1. split; assumption.
  - destruct ((-1 <? 0) && can && negb (n_t =? 0)) eqn:Hgo.
    + apply andb_prop in Hgo. destruct Hgo as [Hgo Hnt].
      apply andb_prop in Hgo. destruct Hgo as [_ Hcan].
      apply negb_true_iff, Z.eqb_neq in Hnt.
      destruct (do_lay_nv12_events n_t ar_t w h pk s Hcan Hnt)
        as (Hr2 & body2 & Ht2 & Hb2).
      destruct (do_lay_nv12 ops n_t ar_t w h pk s) as [r2 s2].
      cbn [snd] in Hr2, Ht2. intros E. inversion E. subst.
      split; [congruence|]. exists body2. split; assumption.
    + intros E. inversion E. subst. split; [exact Hres|].
      exists []. rewrite app_nil_r. split; reflexivity.
Qed.

Lemma nv12_loop_events (stack : list Z) (w h band a o : Z) (fuel : nat) :
  n < 65536 ->
  forall i res loc s s',
    -2147483648 <= i < 2147483648 -> reserved s = [] ->
    nv12_loop ops fuel stack can n w h band a o i res loc s = Returned s' ->
    reserved s' = []
    /\ exists body,
         trace s' = trace s ++ body ++ [Ev_release_gi]
         /\ forallb (nv12_event can n) body = true.
Proof.
  intros Hn. induction fuel as [|fuel IH]; intros i res loc s s' Hi Hres;
    cbn [nv12_loop]; [discriminate|].
  destruct (Z.ltb_spec (u32 i) n) as [Hlt|Hge]; cbn [andb].
  - destruct (0 <=? res).
    + assert (Hi0 : 0 <= i < n).
      { destruct (Z.lt_ge_cases i 0) as [Hneg|Hpos].
        - rewrite u32_negative in Hlt by lia. lia.
        - rewrite u32_small in Hlt by lia. lia. }
      destruct (nv12_round ops stack can n i w h band a o loc s)
        as [[[res' loc'] s1]|] eqn:Hround; [|discriminate].
      destruct (nv12_round_events _ _ _ _ _ _ _ _ _ _ _ _ Hi0 Hn Hres Hround)
        as (Hr1 & body1 & Ht1 & Hb1).
      intros Hend.
      destruct (IH _ _ _ _ _ (s32_range (i + res')) Hr1 Hend)
        as (Hr2 & body2 & Ht2 & Hb2).
      split; [exact Hr2|]. exists (body1 ++ body2).
      rewrite Ht2, Ht1, <- !app_assoc. split; [reflexivity|].
      rewrite forallb_app, Hb1, Hb2. reflexivity.
    + intros E. inversion E. subst. split; [exact Hres|].
      exists []. split; reflexivity.
  - intros E. inversion E. subst. split; [exact Hres|].
    exists []. split; reflexivity.
Qed.

End Nv12Protocol.

(** The calls of a whole run of [reserve_nv12]. *)
Lemma reserve_nv12_calls (St Blk : Type) (ops : tiler_ops St Blk)
    (fuel : nat) (stack : list Z) (loc : nv12_locals)
    (n wd ht align offs gid : Z) (can_together : bool)
    (s s' : world St Blk) :
  n < 65536 -> 0 <= offs -> reserved s = [] ->
  reserve_nv12 ops fuel stack loc n wd ht align offs gid can_together s
  = Returned s' ->
  let an := Ev_analize TILFMT_8BIT wd ht (Z.max 128 align) offs in
  reserved s' = []
  /\ exists t,
       trace s' = trace s ++ t
       /\ (t = [] \/ t = [an] \/ t = [an; Ev_get_gi gid]
           \/ exists body,
                t = an :: Ev_get_gi gid :: body ++ [Ev_release_gi]
                /\ forallb (nv12_event can_together n) body = true).
Proof.
  intros Hn Hoffs Hres. unfold reserve_nv12.
  set (an := Ev_analize TILFMT_8BIT wd ht (Z.max 128 align) offs).
  destruct (nv12_rejects ops n wd ht align offs) eqn:Hrej.
  { intros E. inversion E. subst. split; [exact Hres|].
    exists []. rewrite app_nil_r. split; [reflexivity|left; reflexivity]. }
  assert (Hal : 0 <= offs < align /\ align < 4096).
  { unfold nv12_rejects in Hrej.
    repeat (apply orb_false_elim in Hrej; destruct Hrej as [Hrej ?]).
    repeat match goal with
           | H : (_ <=? _) = false |- _ => apply Z.leb_gt in H
           end.
    change PAGE_SIZE with 4096 in *. lia. }
  assert (Ha : u16 (MAX (Z.quot PAGE_SIZE (MIN band_8 band_16)) (u16 align))
               = Z.max 128 align).
  { rewrite (u16_small align) by lia.
    change (Z.quot PAGE_SIZE (MIN band_8 band_16)) with 128. unfold MAX.
    destruct (Z.ltb_spec align 128); rewrite u16_small by lia; lia. }
  rewrite Ha, (u16_small offs) by lia.
  pose proof (do_analize_extends St Blk ops TILFMT_8BIT wd ht
                (Z.max 128 align) offs s) as [_ Htr].
  assert (Hran : reserved (snd (do_analize ops TILFMT_8BIT wd ht
                                  (Z.max 128 align) offs s)) = reserved s).
  { unfold do_analize. destruct (analize ops _ _ _ _ _ _) as [[r out] st].
    reflexivity. }
  destruct (do_analize ops TILFMT_8BIT wd ht _ _ s)
    as [[r [[[[w h] band] a] o]] s1]. cbn [snd] in Htr, Hran.
  destruct (negb (r =? 0)).
  { intros E. inversion E. subst. split; [congruence|].
    exists [an]. split; [exact Htr|right; left; reflexivity]. }
  assert (Hgi : trace (snd (do_get_gi ops gid s1))
                = trace s1 ++ [Ev_get_gi gid]
                /\ reserved (snd (do_get_gi ops gid s1)) = reserved s1).
  { unfold do_get_gi. destruct (get_gi ops gid (alloc s1)) as [found st].
    split; reflexivity. }
  destruct (do_get_gi ops gid s1) as [found s2]. cbn [snd] in Hgi.
  destruct Hgi as [Hgt Hgr].
  destruct (negb found).
  { intros E. inversion E. subst. split; [congruence|].
    exists [an; Ev_get_gi gid]. rewrite Hgt, Htr, <- app_assoc.
    split; [reflexivity|right; right; left; reflexivity]. }
  intros Hloop.
  destruct (nv12_loop_events St Blk ops can_together n stack w h band a o
              fuel Hn 0 0 loc s2 s' ltac:(lia) ltac:(congruence) Hloop)
    as (Hr & body & Ht & Hb).
  split; [exact Hr|].
  exists (an :: Ev_get_gi gid :: body ++ [Ev_release_gi]).
  rewrite Ht, Hgt, Htr, <- !app_assoc. split; [reflexivity|].
  right; right; right. exists body. split; [reflexivity|exact Hb].
Qed.

(** X9.  A call of [reserve_nv12] that returns has left nothing on its
    local list.  It has asked nothing of the allocator (the request
    was turned down), or only [analize], for the 8-bit format with the
    alignment raised to 128 bytes (the status was not zero), or
    [analize] and [get_gi] (no group), or else [analize], [get_gi], the
    calls of its loop and one [release_gi] at the end.  The loop asks
    for [lay_2d] on the local list with counts from 1 to [n], for
    [lay_nv12] only when packing together is allowed and with a nonzero
    count, and otherwise only releases or merges the local list. *)
Theorem reserve_nv12_protocol (St Blk : Type) (ops : tiler_ops St Blk)
    (fuel : nat) (stack : list Z) (loc : nv12_locals)
    (n wd ht align offs gid : Z) (can_together : bool)
    (s s' : world St Blk) :
  n < 65536 -> 0 <= offs -> reserved s = [] ->
  reserve_nv12 ops fuel stack loc n wd ht align offs gid can_together s
  = Returned s' ->
  let an := Ev_analize TILFMT_8BIT wd ht (Z.max 128 align) offs in
  reserved s' = []
  /\ exists t,
       trace s' = trace s ++ t
       /\ (t = [] \/ t = [an] \/ t = [an; Ev_get_gi gid]
           \/ exists body,
                t = an :: Ev_get_gi gid :: body ++ [Ev_release_gi]
                /\ forallb (nv12_event can_together n) body = true).
Proof.
  apply reserve_nv12_calls.
Qed.

Lemma reserve_nv12_protocol_witness :
  let ops := demo_ops (2, 1, 64, 2, 0) (fun n => n) in
  let s' :=
    {| alloc := tt; reserved := []; gi_reserved := [2; 2; 2; 2];
       trace := [Ev_analize 0 64 64 128 0; Ev_get_gi 0;
                 Ev_lay_2d 0 2 2 1 64 2 0 L_reserved 2;
                 Ev_lay_2d 1 2 1 1 32 1 0 L_reserved 2;
                 Ev_add_reserved; Ev_release_gi] |} in
  let an := Ev_analize TILFMT_8BIT 64 64 (Z.max 128 128) 0 in
  reserved s' = []
  /\ exists t,
       trace s' = trace empty_world ++ t
       /\ (t = [] \/ t = [an] \/ t = [an; Ev_get_gi 0]
           \/ exists body,
                t = an :: Ev_get_gi 0 :: body ++ [Ev_release_gi]
                /\ forallb (nv12_event false 2) body = true).
Proof.
  apply (reserve_nv12_protocol unit Z
           (demo_ops (2, 1, 64, 2, 0) (fun n => n)) 5 [] no_locals
           2 64 64 128 0 0 false empty_world);
    first [reflexivity|lia].
Defined.

(** ** The calls [reserve_blocks] makes *)

Section BlocksProtocol.

Variables St Blk : Type.
Variable ops : tiler_ops St Blk.
Hypothesis Hwidth : 0 <= width ops < 65536.

Lemma blocks_try_events (fmt w h band a o : Z) (fuel : nat) :
  forall n_try res s,
    n_try <= width ops ->
    let out := blocks_try ops fuel fmt w h band a o n_try res s in
    reserved (snd out) = reserved s
    /\ (exists body,
          trace (snd out) = trace s ++ body
          /\ forallb (blocks_event fmt (width ops)) body = true)
    /\ (n_try <= 1 -> out = (res, s)).
Proof.
  induction fuel as [|fuel IH]; intros n_try res s Hn; cbn [blocks_try].
  - cbn. split; [reflexivity|]. split; [|reflexivity].
    exists []. rewrite app_nil_r. split; reflexivity.
  - destruct (Z.ltb_spec 1 n_try) as [Hgt|Hle].
    + assert (Hlay : reserved (snd (do_lay_2d ops fmt n_try w h band a o
                                      L_gi s)) = reserved s
                     /\ exists r,
                          trace (snd (do_lay_2d ops fmt n_try w h band a o
                                        L_gi s))
                          = trace s
                            ++ [Ev_lay_2d fmt n_try w h band a o L_gi r]).
      { unfold do_lay_2d.
        destruct (lay_2d ops fmt n_try w h band a o (alloc s))
          as [[r bs] st]. cbn. split; [reflexivity|]. exists r. reflexivity. }
      destruct (do_lay_2d ops fmt n_try w h band a o L_gi s) as [r s1].
      cbn [snd] in Hlay. destruct Hlay as [Hr1 [r' Ht1]].
      assert (Hev : blocks_event fmt (width ops)
                      (Ev_lay_2d fmt n_try w h band a o L_gi r') = true).
      { cbn [blocks_event].
        rewrite Z.eqb_refl, (proj2 (Z.leb_le 2 n_try)),
          (proj2 (Z.leb_le n_try (width ops))) by lia.
        reflexivity. }
      destruct (0 <=? u32 r).
      * cbn [snd]. split; [exact Hr1|]. split; [|intros; lia].
        eexists. split; [exact Ht1|]. cbn [forallb]. rewrite Hev. reflexivity.
      * destruct (IH (u16 (n_try - 1)) (u32 r) s1) as (Hr2 & Hb2 & _).
        { rewrite u16_small by lia. lia. }
        destruct Hb2 as (body2 & Ht2 & Hb2).
        split; [congruence|]. split; [|intros; lia].
        eexists. rewrite Ht2, Ht1, <- app_assoc. split; [reflexivity|].
        cbn [app forallb]. rewrite Hev, Hb2. reflexivity.
    + cbn. split; [reflexivity|]. split; [|reflexivity].
      exists []. rewrite app_nil_r. split; reflexivity.
Qed.

(** The count kept by the scan is within the bound of the round. *)
Lemma blocks_round_count (offs w e band n i r n_try ar : Z) :
  tiler_best2pack (width ops) (u16 offs) w e band
    (u16 (MIN (u32 (n - i)) (width ops))) 0 = Some (r, n_try, ar) ->
  n_try <= width ops /\ n_try <= MIN (u32 (n - i)) (width ops).
Proof.
  pose proof (u32_range (n - i)) as Hu.
  assert (Hmin : 0 <= MIN (u32 (n - i)) (width ops) <= width ops).
  { unfold MIN. destruct (Z.ltb_spec (u32 (n - i)) (width ops)); lia. }
  rewrite (u16_small (MIN _ _)) by lia.
  set (b := MIN (u32 (n - i)) (width ops)) in *.
  unfold tiler_best2pack.
  destruct (Z.eq_dec b 0) as [Hz|Hnz].
  - rewrite Hz. cbn [Z.to_nat best2pack_loop]. intros E. inversion E. lia.
  - intros E. apply best2pack_loop_count in E; lia.
Qed.

Lemma blocks_loop_events (fmt n offs w h band a o e : Z) (fuel : nat) :
  forall i res s s',
    blocks_loop ops fuel fmt n offs w h band a o e i res s = Returned s' ->
    reserved s' = reserved s
    /\ exists body,
         trace s' = trace s ++ body ++ [Ev_release_gi]
         /\ forallb (blocks_event fmt (width ops)) body = true.
Proof.
  induction fuel as [|fuel IH]; intros i res s s'; cbn [blocks_loop];
    [discriminate|].
  destruct ((i <? n) && (0 <=? res)).
  - destruct (tiler_best2pack _ _ _ _ _ _ _) as [[[r n_try] ar]|] eqn:Hscan;
      [|discriminate].
    apply blocks_round_count in Hscan. destruct Hscan as [Hn _].
    destruct (blocks_try_events fmt w h band a o (Z.to_nat n_try) n_try
                (u32 (-1)) s Hn) as (Hr1 & (body1 & Ht1 & Hb1) & _).
    destruct (blocks_try ops (Z.to_nat n_try) fmt w h band a o n_try
                (u32 (-1)) s) as [res' s1].
    cbn [snd] in Hr1, Ht1. intros Hend.
    destruct (IH _ _ _ _ Hend) as (Hr2 & body2 & Ht2 & Hb2).
    split; [congruence|]. exists (body1 ++ body2).
    rewrite Ht2, Ht1, <- !app_assoc. split; [reflexivity|].
    rewrite forallb_app, Hb1, Hb2. reflexivity.
  - intros E. inversion E. subst. split; [reflexivity|].
    exists []. split; reflexivity.
Qed.

End BlocksProtocol.

(** The calls of a whole run of [reserve_blocks]. *)
Lemma reserve_blocks_calls (St Blk : Type) (ops : tiler_ops St Blk)
    (fuel : nat) (n fmt wd ht align offs gid : Z) (s s' : world St Blk) :
  0 <= width ops < 65536 -> 0 <= offs ->
  reserve_blocks ops fuel n fmt wd ht align offs gid s = Returned s' ->
  let an := Ev_analize fmt wd ht align offs in
  reserved s' = reserved s
  /\ (exists l, gi_reserved s' = l ++ gi_reserved s)
  /\ exists t,
       trace s' = trace s ++ t
       /\ (t = [] \/ t = [Ev_geom fmt] \/ t = [Ev_geom fmt; an]
           \/ t = [Ev_geom fmt; an; Ev_get_gi gid]
           \/ exists body,
                t = Ev_geom fmt :: an :: Ev_get_gi gid
                      :: body ++ [Ev_release_gi]
                /\ forallb (blocks_event fmt (width ops)) body = true).
Proof.
  intros Hwidth Hoffs. unfold reserve_blocks.
  set (an := Ev_analize fmt wd ht align offs).
  destruct (blocks_rejects n fmt wd ht align offs) eqn:Hrej.
  { intros E. inversion E. subst. split; [reflexivity|].
    split; [exists []; reflexivity|].
    exists []. rewrite app_nil_r. split; [reflexivity|left; reflexivity]. }
  assert (Hal : 0 <= offs < align /\ align <= 4096).
  { unfold blocks_rejects in Hrej.
    repeat (apply orb_false_elim in Hrej; destruct Hrej as [Hrej ?]).
    repeat match goal with
           | H : (_ <=? _) = false |- _ => apply Z.leb_gt in H
           | H : (_ <? _) = false |- _ => apply Z.ltb_ge in H
           end.
    change PAGE_SIZE with 4096 in *. lia. }
  rewrite (u16_small align), (u16_small offs) by lia.
  destruct (geom ops fmt) as [slot_w bpp].
  set (s0 := log (Ev_geom fmt) s).
  destruct (u32 (u32 (wd * bpp) * 2) <=? PAGE_SIZE).
  { intros E. inversion E. subst. split; [reflexivity|].
    split; [exists []; reflexivity|].
    exists [Ev_geom fmt]. split; [reflexivity|right; left; reflexivity]. }
  pose proof (do_analize_extends St Blk ops fmt wd ht align offs s0)
    as [[Hag _] Htr].
  assert (Hran : reserved (snd (do_analize ops fmt wd ht align offs s0))
                 = reserved s0).
  { unfold do_analize. destruct (analize ops _ _ _ _ _ _) as [[r out] st].
    reflexivity. }
  destruct (do_analize ops fmt wd ht align offs s0)
    as [[r [[[[w h] band] a] o]] s1]. cbn [snd] in Htr, Hran, Hag.
  change (reserved s0) with (reserved s) in Hran.
  change (gi_reserved s0) with (gi_reserved s) in Hag.
  destruct (negb (r =? 0)).
  { intros E. inversion E. subst. split; [exact Hran|].
    split; [exact Hag|].
    exists [Ev_geom fmt; an]. rewrite Htr. cbn [trace s0 log].
    rewrite <- app_assoc. split; [reflexivity|right; right; left; reflexivity]. }
  assert (Hgi : trace (snd (do_get_gi ops gid s1))
                = trace s1 ++ [Ev_get_gi gid]
                /\ reserved (snd (do_get_gi ops gid s1)) = reserved s1
                /\ gi_reserved (snd (do_get_gi ops gid s1)) = gi_reserved s1).
  { unfold do_get_gi. destruct (get_gi ops gid (alloc s1)) as [found st].
    repeat split; reflexivity. }
  destruct (do_get_gi ops gid s1) as [found s2]. cbn [snd] in Hgi.
  destruct Hgi as (Hgt & Hgr & Hgg).
  destruct Hag as [l1 Hl1].
  destruct (negb found).
  { intros E. inversion E. subst. split; [congruence|].
    split; [exists l1; congruence|].
    exists [Ev_geom fmt; an; Ev_get_gi gid]. rewrite Hgt, Htr.
    cbn [trace s0 log]. rewrite <- !app_assoc.
    split; [reflexivity|right; right; right; left; reflexivity]. }
  intros Hloop.
  destruct (blocks_loop_events St Blk ops Hwidth fmt n offs w h band a o
              (u16 (ALIGN w a)) fuel 0 0 s2 s' Hloop)
    as (Hr & body & Ht & Hb).
  pose proof (blocks_loop_extends St Blk ops fuel fmt n offs w h band a o
                (u16 (ALIGN w a)) 0 0 s2 s' (or_introl Hloop))
    as [[l2 Hl2] _].
  split; [congruence|].
  split; [exists (l2 ++ l1); rewrite Hl2, Hgg, Hl1; apply app_assoc|].
  exists (Ev_geom fmt :: an :: Ev_get_gi gid :: body ++ [Ev_release_gi]).
  rewrite Ht, Hgt, Htr. cbn [trace s0 log]. rewrite <- !app_assoc.
  split; [reflexivity|].
  right; right; right; right. exists body. split; [reflexivity|exact Hb].
Qed.

(** X10.  A call of [reserve_blocks] that returns has asked nothing of
    the allocator (the request was turned down), or only [geom] (the
    buffer is at most half a page wide), or [geom] and [analize] (the
    status was not zero), or these and [get_gi] (no group), or else
    [geom], [analize], [get_gi], the calls of its loop and one
    [release_gi] at the end.  The loop only asks for [lay_2d], of the
    requested format, straight onto [gi->reserved], with counts from 2
    to the width of the container: it never asks for a single block,
    and it never releases a block, so [gi->reserved] only grows. *)
Theorem reserve_blocks_protocol (St Blk : Type) (ops : tiler_ops St Blk)
    (fuel : nat) (n fmt wd ht align offs gid : Z) (s s' : world St Blk) :
  0 <= width ops < 65536 -> 0 <= offs ->
  reserve_blocks ops fuel n fmt wd ht align offs gid s = Returned s' ->
  let an := Ev_analize fmt wd ht align offs in
  reserved s' = reserved s
  /\ (exists l, gi_reserved s' = l ++ gi_reserved s)
  /\ exists t,
       trace s' = trace s ++ t
       /\ (t = [] \/ t = [Ev_geom fmt] \/ t = [Ev_geom fmt; an]
           \/ t = [Ev_geom fmt; an; Ev_get_gi gid]
           \/ exists body,
                t = Ev_geom fmt :: an :: Ev_get_gi gid
                      :: body ++ [Ev_release_gi]
                /\ forallb (blocks_event fmt (width ops)) body = true).
Proof.
  apply reserve_blocks_calls.
Qed.

Lemma reserve_blocks_protocol_witness :
  let ops := demo_ops (42, 1, 64, 64, 0) (fun n => n) in
  let s' :=
    {| alloc := tt; reserved := []; gi_reserved := [3; 3; 3];
       trace := [Ev_geom 0; Ev_analize 0 2560 64 4096 32; Ev_get_gi 0;
                 Ev_lay_2d 0 3 42 1 64 64 0 L_gi 3; Ev_release_gi] |} in
  let an := Ev_analize 0 2560 64 4096 32 in
  reserved s' = reserved empty_world
  /\ (exists l, gi_reserved s' = l ++ gi_reserved empty_world)
  /\ exists t,
       trace s' = trace empty_world ++ t
       /\ (t = [] \/ t = [Ev_geom 0] \/ t = [Ev_geom 0; an]
           \/ t = [Ev_geom 0; an; Ev_get_gi 0]
           \/ exists body,
                t = Ev_geom 0 :: an :: Ev_get_gi 0
                      :: body ++ [Ev_release_gi]
                /\ forallb (blocks_event 0 (width ops)) body = true).
Proof.
  apply (reserve_blocks_protocol unit Z
           (demo_ops (42, 1, 64, 64, 0) (fun n => n)) 5
           3 0 2560 64 4096 32 0 empty_world);
    first [reflexivity|cbn; lia].
Defined.

(** X11.  A request for a single block makes [reserve_blocks] reserve
    nothing: whatever the allocator and the other arguments are, the
    call ends without one lay request, and both lists are as they were
    (the inner loop runs only while more than one block is to be
    tried). *)
Theorem reserve_blocks_single_block (St Blk : Type) (ops : tiler_ops St Blk)
    (fuel : nat) (fmt wd ht align offs gid : Z) (s : world St Blk) :
  0 <= width ops < 65536 ->
  exists s',
    (reserve_blocks ops (S (S fuel)) 1 fmt wd ht align offs gid s
     = Returned s'
     \/ reserve_blocks ops (S (S fuel)) 1 fmt wd ht align offs gid s
        = Stuck s')
    /\ gi_reserved s' = gi_reserved s /\ reserved s' = reserved s
    /\ exists t, trace s' = trace s ++ t /\ existsb is_lay t = false.
Proof.
  intros Hwidth. unfold reserve_blocks.
  destruct (blocks_rejects 1 fmt wd ht align offs).
  { exists s. split; [left; reflexivity|]. split; [reflexivity|].
    split; [reflexivity|]. exists []. rewrite app_nil_r. split; reflexivity. }
  destruct (geom ops fmt) as [slot_w bpp].
  destruct (u32 (u32 (wd * bpp) * 2) <=? PAGE_SIZE).
  { eexists. split; [left; reflexivity|]. split; [reflexivity|].
    split; [reflexivity|]. exists [Ev_geom fmt]. split; reflexivity. }
  unfold do_analize. cbn [alloc log].
  destruct (analize ops fmt wd ht (u16 align) (u16 offs) (alloc s))
    as [[r [[[[w h] band] a] o]] st1].
  destruct (negb (r =? 0)).
  { eexists. split; [left; reflexivity|]. cbn.
    split; [reflexivity|]. split; [reflexivity|].
    eexists. rewrite <- app_assoc. split; reflexivity. }
  unfold do_get_gi. cbn [alloc log set_alloc].
  destruct (get_gi ops gid st1) as [found st2].
  destruct (negb found).
  { eexists. split; [left; reflexivity|]. cbn.
    split; [reflexivity|]. split; [reflexivity|].
    eexists. rewrite <- !app_assoc. split; reflexivity. }
  cbn [blocks_loop]. change ((0 <? 1) && (0 <=? 0)) with true. cbv iota.
  destruct (tiler_best2pack _ _ _ _ _ _ _) as [[[rr n_try] ar]|] eqn:Hscan.
  - apply (blocks_round_count St Blk ops Hwidth) in Hscan.
    destruct Hscan as [Hnw Hn].
    assert (Hn1 : n_try <= 1).
    { revert Hn. unfold MIN. change (u32 (1 - 0)) with 1.
      destruct (Z.ltb_spec 1 (width ops)); lia. }
    destruct (blocks_try_events St Blk ops Hwidth fmt w h band a o
                (Z.to_nat n_try) n_try (u32 (-1))
                (log (Ev_get_gi gid)
                   (set_alloc st2
                      (log (Ev_analize fmt wd ht (u16 align) (u16 offs))
                         (set_alloc st1 (log (Ev_geom fmt) s)))))
                Hnw) as (_ & _ & Hsame).
    rewrite (Hsame Hn1).
    change (u32 (0 + u32 (-1)) <? 1) with false. cbn [andb].
    eexists. split; [left; reflexivity|]. cbn.
    split; [reflexivity|]. split; [reflexivity|].
    eexists. rewrite <- !app_assoc. split; reflexivity.
  - eexists. split; [right; reflexivity|]. cbn.
    split; [reflexivity|]. split; [reflexivity|].
    eexists. rewrite <- !app_assoc. split; reflexivity.
Qed.

Lemma reserve_blocks_single_block_witness :
  exists s',
    (reserve_blocks (demo_ops (42, 1, 64, 64, 0) (fun n => n)) 2 1
       TILFMT_8BIT 2560 64 4096 32 0 empty_world = Returned s'
     \/ reserve_blocks (demo_ops (42, 1, 64, 64, 0) (fun n => n)) 2 1
          TILFMT_8BIT 2560 64 4096 32 0 empty_world = Stuck s')
    /\ gi_reserved s' = gi_reserved empty_world
    /\ reserved s' = reserved empty_world
    /\ exists t, trace s' = trace empty_world ++ t /\ existsb is_lay t = false.
Proof.
  apply (reserve_blocks_single_block unit Z
           (demo_ops (42, 1, 64, 64, 0) (fun n => n)) 0
           TILFMT_8BIT 2560 64 4096 32 0 empty_world).
  cbn. lia.
Defined.

(** ** [unreserve_blocks] after a reservation *)

Lemma reserve_nv12_extends (St Blk : Type) (ops : tiler_ops St Blk)
    (fuel : nat) (stack : list Z) (loc : nv12_locals)
    (n wd ht align offs gid : Z) (can : bool) (s s' : world St Blk) :
  reserve_nv12 ops fuel stack loc n wd ht align offs gid can s = Returned s' ->
  extends St Blk s s'.
Proof.
  unfold reserve_nv12.
  destruct (nv12_rejects ops n wd ht align offs).
  { intros E. inversion E. apply extends_refl. }
  pose proof (do_analize_extends St Blk ops TILFMT_8BIT wd ht
                (u16 (MAX (Z.quot PAGE_SIZE (MIN band_8 band_16)) (u16 align)))
                (u16 offs) s) as [Han _].
  destruct (do_analize ops TILFMT_8BIT wd ht _ _ s)
    as [[r [[[[w h] band] a] o]] s1]. cbn [snd] in Han.
  destruct (negb (r =? 0)).
  { intros E. inversion E. subst. exact Han. }
  pose proof (do_get_gi_extends St Blk ops gid s1) as Hgi.
  destruct (do_get_gi ops gid s1) as [found s2]. cbn [snd] in Hgi.
  destruct (negb found).
  { intros E. inversion E. subst. exact (extends_trans _ _ _ _ _ Han Hgi). }
  intros Hend.
  pose proof (nv12_loop_extends St Blk ops fuel stack can n w h band
                a o 0 0 loc s2 s' (or_introl Hend)) as Hloop.
  exact (extends_trans _ _ _ _ _ (extends_trans _ _ _ _ _ Han Hgi) Hloop).
Qed.

(** X12.  [unreserve_blocks] after a reservation that returned: when
    the group is found, every block on [gi->reserved], those that were
    there before the reservation and those it added, is handed to
    [release] in one call, the list is left empty and the group is let
    go of; when the group is not found, nothing is released.  The
    local list of the reservation is empty either way. *)
Theorem unreserve_after_reserve (St Blk : Type) (ops : tiler_ops St Blk)
    (fuel : nat) (stack : list Z) (loc : nv12_locals)
    (n fmt wd ht align offs gid gid' : Z) (can : bool)
    (s s1 : world St Blk) :
  reserved s = [] -> n < 65536 -> 0 <= offs -> 0 <= width ops < 65536 ->
  reserve_nv12 ops fuel stack loc n wd ht align offs gid can s = Returned s1
  \/ reserve_blocks ops fuel n fmt wd ht align offs gid s = Returned s1 ->
  let found := fst (get_gi ops gid' (alloc s1)) in
  let st := snd (get_gi ops gid' (alloc s1)) in
  let s2 := unreserve_blocks ops gid' s1 in
  reserved s2 = []
  /\ (found = true ->
      gi_reserved s2 = []
      /\ (exists l,
            alloc s2 = release_gi ops (release ops (l ++ gi_reserved s) st))
      /\ trace s2
         = trace s1 ++ [Ev_get_gi gid'; Ev_release L_gi; Ev_release_gi])
  /\ (found = false ->
      gi_reserved s2 = gi_reserved s1 /\ alloc s2 = st
      /\ trace s2 = trace s1 ++ [Ev_get_gi gid']).
Proof.
  intros Hres Hn Hoffs Hwidth Hrun.
  assert (H1 : reserved s1 = [] /\ exists l, gi_reserved s1 = l ++ gi_reserved s).
  { destruct Hrun as [Hrun|Hrun].
    - split.
      + exact (proj1 (reserve_nv12_calls St Blk ops fuel stack loc n wd ht
                        align offs gid can s s1 Hn Hoffs Hres Hrun)).
      + exact (proj1 (reserve_nv12_extends St Blk ops fuel stack loc n wd ht
                        align offs gid can s s1 Hrun)).
    - destruct (reserve_blocks_calls St Blk ops fuel n fmt wd ht align offs
                  gid s s1 Hwidth Hoffs Hrun) as (Hr & Hg & _).
      split; [congruence|exact Hg]. }
  destruct H1 as [Hr1 [l Hl]].
  unfold unreserve_blocks, do_get_gi.
  destruct (get_gi ops gid' (alloc s1)) as [found st]. cbn [fst snd].
  destruct found; cbn [negb].
  - split; [exact Hr1|]. split; [|intros E; discriminate E].
    intros _. cbn. split; [reflexivity|]. split.
    + exists l. rewrite Hl. reflexivity.
    + rewrite <- !app_assoc. reflexivity.
  - split; [exact Hr1|]. split; [intros E; discriminate E|].
    intros _. cbn. repeat split; reflexivity.
Qed.

Lemma unreserve_after_reserve_witness :
  let ops := demo_ops (42, 1, 64, 64, 0) (fun n => n) in
  let s1 :=
    {| alloc := tt; reserved := []; gi_reserved := [3; 3; 3];
       trace := [Ev_geom 0; Ev_analize 0 2560 64 4096 32; Ev_get_gi 0;
                 Ev_lay_2d 0 3 42 1 64 64 0 L_gi 3; Ev_release_gi] |} in
  let found := fst (get_gi ops 0 (alloc s1)) in
  let st := snd (get_gi ops 0 (alloc s1)) in
  let s2 := unreserve_blocks ops 0 s1 in
  reserved s2 = []
  /\ (found = true ->
      gi_reserved s2 = []
      /\ (exists l,
            alloc s2
            = release_gi ops (release ops (l ++ gi_reserved empty_world) st))
      /\ trace s2
         = trace s1 ++ [Ev_get_gi 0; Ev_release L_gi; Ev_release_gi])
  /\ (found = false ->
      gi_reserved s2 = gi_reserved s1 /\ alloc s2 = st
      /\ trace s2 = trace s1 ++ [Ev_get_gi 0]).
Proof.
  apply (unreserve_after_reserve unit Z
           (demo_ops (42, 1, 64, 64, 0) (fun n => n)) 5 [] no_locals
           3 0 2560 64 4096 32 0 0 false empty_world);
    first [reflexivity|cbn; lia|right; reflexivity].
Defined.

(** ** When a round of [reserve_nv12] divides by zero *)

Lemma nv12_eff_none (n w area need : Z) :
  nv12_eff n w area need = None <-> n = 0 \/ area = 0.
Proof.
  unfold nv12_eff, DIV_ROUND_UP, idiv.
  destruct (Z.eqb_spec n 0) as [Hn|Hn]; cbn [bind].
  - split; [intros _; left; exact Hn|reflexivity].
  - destruct (Z.eqb_spec area 0) as [Ha|Ha]; cbn [bind].
    + split; [intros _; right; exact Ha|reflexivity].
    + split; [discriminate|intros [H|H]; contradiction].
Qed.

(** A round gives no result exactly when packing together is allowed
    and [nv12_together] returns a count of zero. *)
Lemma nv12_round_none (St Blk : Type) (ops : tiler_ops St Blk)
    (stack : list Z) (can : bool) (n i w h band a o j : Z)
    (loc : nv12_locals) (s : world St Blk) :
  1 <= j <= 6 -> a = 2 ^ j -> 0 <= o < a -> 0 < w < 32768 ->
  0 <= width ops <= 16384 ->
  Z.quot o 2 + Z.quot (w + 1) 2 <= width ops ->
  0 <= i < n -> n < 65535 ->
  (nv12_round ops stack can n i w h band a o loc s = None
   <-> can = true
       /\ exists ar pk,
            nv12_together stack o w a (n - i) (area_t loc) (packing loc)
            = Some (0, ar, pk)).
Proof.
  intros Hj Ha Ho Hw HW Hfit Hi Hn. unfold nv12_round.
  rewrite (u32_small (n - i)), (u16_small (n - i)) by lia.
  destruct (nv12_separate_fits (width ops) o w a j (n - i) (area_s loc)
              Hj Ha Ho Hw ltac:(lia) HW _ _ _ eq_refl eq_refl eq_refl Hfit)
    as (c & Hsep & Hc & _ & Har & _).
  rewrite Hsep. cbn [bind].
  destruct can; cbn [negb bind].
  - destruct (nv12_together_range o w a j (n - i) Hj Ha Ho Hw ltac:(lia)
                stack (area_t loc) (packing loc))
      as (ct & art & pk & Htog & Hct & _ & Hart & _).
    rewrite Htog. cbn [bind].
    destruct (nv12_eff c w _ (n - i)) as [eff_s|] eqn:Hes.
    2:{ apply nv12_eff_none in Hes. lia. }
    cbn [bind].
    destruct (nv12_eff ct w art (n - i)) as [eff_t|] eqn:Het; cbn [bind].
    + split.
      * destruct (eff_t <? eff_s).
        -- destruct (separate_commit ops c w h band a o s) as [r1 s1].
           destruct ((r1 <? 0) && true && negb (ct =? 0));
             [destruct (do_lay_nv12 ops ct art w h pk s1)|]; discriminate.
        -- destruct ((-1 <? 0) && true && negb (ct =? 0));
             [destruct (do_lay_nv12 ops ct art w h pk s)|]; discriminate.
      * intros [_ (ar' & pk' & E)]. inversion E. subst.
        assert (Hnone : nv12_eff 0 w ar' (n - i) = None)
          by (apply nv12_eff_none; left; reflexivity).
        congruence.
    + split; [|reflexivity]. intros _. split; [reflexivity|].
      apply nv12_eff_none in Het. destruct Het as [->|Hz]; [|lia].
      exists art, pk. reflexivity.
  - split; [|intros [E _]; discriminate E].
    destruct (separate_commit ops c w h band a o s) as [r1 s1].
    rewrite andb_false_r. cbn [andb]. discriminate.
Qed.

(** X13.  For valid slot values, with a block whose 16-bit half fits
    the container, a round of the loop of [reserve_nv12] fails to give
    a result exactly when packing together is allowed and
    [nv12_together] returns a count of zero: [nv12_eff] then divides by
    that count.  Nothing else in the round divides by zero. *)
Theorem nv12_round_traps (St Blk : Type) (ops : tiler_ops St Blk)
    (stack : list Z) (can : bool) (n i w h band a o j : Z)
    (loc : nv12_locals) (s : world St Blk) :
  1 <= j <= 6 -> a = 2 ^ j -> 0 <= o < a -> 0 < w < 32768 ->
  0 <= width ops <= 16384 ->
  Z.quot o 2 + Z.quot (w + 1) 2 <= width ops ->
  0 <= i < n -> n < 65535 ->
  (nv12_round ops stack can n i w h band a o loc s = None
   <-> can = true
       /\ exists ar pk,
            nv12_together stack o w a (n - i) (area_t loc) (packing loc)
            = Some (0, ar, pk)).
Proof.
  intros Hj Ha Ho Hw HW Hfit Hi Hn.
  apply (nv12_round_none St Blk ops stack can n i w h band a o j);
    assumption.
Qed.

Lemma nv12_round_traps_witness :
  let ops := demo_ops (32, 1, 64, 32, 2) (fun n => n) in
  nv12_round ops [] true 1 0 32 1 64 32 2 no_locals empty_world = None
  <-> true = true
      /\ exists ar pk,
           nv12_together [] 2 32 32 (1 - 0) (area_t no_locals)
             (packing no_locals) = Some (0, ar, pk).
Proof.
  apply (nv12_round_traps unit Z (demo_ops (32, 1, 64, 32, 2) (fun n => n))
           [] true 1 0 32 1 64 32 2 5 no_locals empty_world);
    first [reflexivity|cbn; lia|lia].
Defined.

(** ** The generators stay within their arrays *)

Lemma in_upto (k : nat) (x : Z) : 0 <= x < Z.of_nat k -> In x (upto k).
Proof.
  intros Hx. unfold upto. apply in_map_iff. exists (Z.to_nat x).
  split; [lia|]. apply in_seq. lia.
Qed.

Lemma nv12_A_within_checked : nv12_A_within_all = true.
Proof. vm_compute. reflexivity. Qed.

Lemma nv12_A_within_22 (o w a j : Z) :
  1 <= j <= 6 -> a = 2 ^ j -> 0 <= o < a -> 0 < w < 64 ->
  nv12_A_within a o w = true.
Proof.
  intros Hj Ha Ho Hw. pose proof nv12_A_within_checked as H.
  unfold nv12_A_within_all in H. rewrite forallb_forall in H.
  assert (Hin : In j [1; 2; 3; 4; 5; 6]).
  { assert (E : j = 1 \/ j = 2 \/ j = 3 \/ j = 4 \/ j = 5 \/ j = 6) by lia.
    cbn. intuition auto. }
  specialize (H j Hin). rewrite forallb_forall in H.
  pose proof (pow2_pos a j ltac:(lia) Ha) as Hpos.
  rewrite <- Ha in H.
  specialize (H o (in_upto (Z.to_nat a) o ltac:(lia))).
  rewrite forallb_forall in H.
  specialize (H (w - 1) (in_upto 63 (w - 1) ltac:(lia))).
  replace (w - 1 + 1) with w in H by lia. exact H.
Qed.

(** A run that ends below its bound does not depend on the bound. *)
Lemma nv12_A_pack_mono (o w a area u n : Z) (fuel : nat) :
  n < 65536 ->
  forall x l m p x' l' m' p',
    0 <= m ->
    nv12_A_pack fuel o w a area u n x l m p = (x', l', m', p') -> m <= m'.
Proof.
  intros Hn. induction fuel as [|fuel IH]; intros x l m p x' l' m' p' Hm;
    cbn [nv12_A_pack].
  - intros E. inversion E. lia.
  - destruct (x + w <=? u); cbn [andb]; [|intros E; inversion E; lia].
    destruct (Z.ltb_spec m n) as [Hlt|Hge]; [|intros E; inversion E; lia].
    rewrite (u16_small (m + 1)) by lia.
    intros E. apply IH in E; lia.
Qed.

Lemma nv12_A_loop_mono (o w a area n : Z) (fuel : nat) :
  0 <= n < 65536 ->
  forall x m p m' p',
    0 <= m ->
    nv12_A_loop fuel o w a area n x m p = Some (m', p') -> m <= m'.
Proof.
  intros Hn. induction fuel as [|fuel IH]; intros x m p m' p' Hm;
    cbn [nv12_A_loop]; [discriminate|].
  destruct ((x + w <? area) && (m <? n)); [|intros E; inversion E; lia].
  destruct (nv12_A_pack _ _ _ _ _ _ _ _ _ _ _) as [[[x1 l1] m1] p1] eqn:Hpack.
  apply nv12_A_pack_mono in Hpack; [|lia|lia].
  intros E. apply IH in E; lia.
Qed.

Lemma nv12_A_pack_bound (o w a area u n1 n2 : Z) :
  n1 <= n2 -> n2 < 65536 ->
  forall (f1 f2 : nat) x l m p x' l' m' p',
    0 <= m -> n1 - m <= Z.of_nat f1 -> n2 - m <= Z.of_nat f2 ->
    nv12_A_pack f1 o w a area u n1 x l m p = (x', l', m', p') ->
    m' < n1 ->
    nv12_A_pack f2 o w a area u n2 x l m p = (x', l', m', p').
Proof.
  intros Hn Hn2.
  induction f1 as [|f1 IH]; intros f2 x l m p x' l' m' p' Hm Hf1 Hf2;
    cbn [nv12_A_pack].
  - intros E Hlt. inversion E. lia.
  - destruct (Z.leb_spec (x + w) u) as [Hplace|Hfull]; cbn [andb].
    + destruct (Z.ltb_spec m n1) as [Hlt1|Hge1];
        [|intros E Hlt; inversion E; lia].
      destruct f2 as [|f2]; [lia|]. cbn [nv12_A_pack].
      destruct (Z.leb_spec (x + w) u) as [_|]; [|lia]. cbn [andb].
      destruct (Z.ltb_spec m n2) as [_|]; [|lia].
      rewrite (u16_small (m + 1)) by lia.
      intros E Hlt. apply (IH f2); try lia; assumption.
    + intros E Hlt. inversion E. subst.
      destruct f2 as [|f2]; cbn [nv12_A_pack]; [reflexivity|].
      destruct (Z.leb_spec (x' + w) u) as [|_]; [lia|]. reflexivity.
Qed.

Lemma nv12_A_loop_bound (o w a area n1 n2 : Z) (fuel : nat) :
  0 <= n1 <= n2 -> n2 < 65536 ->
  forall x m p m' p',
    0 <= m ->
    nv12_A_loop fuel o w a area n1 x m p = Some (m', p') -> m' < n1 ->
    nv12_A_loop fuel o w a area n2 x m p = Some (m', p').
Proof.
  intros Hn Hn2. induction fuel as [|fuel IH]; intros x m p m' p' Hm;
    cbn [nv12_A_loop]; [discriminate|].
  destruct (Z.ltb_spec (x + w) area) as [Hroom|Hfull]; cbn [andb].
  - destruct (Z.ltb_spec m n1) as [Hlt1|Hge1];
      [|intros E Hlt; inversion E; lia].
    destruct (Z.ltb_spec m n2) as [_|]; [|lia].
    destruct (nv12_A_pack (Z.to_nat n1) _ _ _ _ _ _ _ _ _ _)
      as [[[x1 l1] m1] p1] eqn:Hpack.
    intros E Hlt.
    assert (Hn1 : n1 < 65536) by lia.
    pose proof (nv12_A_pack_mono _ _ _ _ _ _ _ Hn1 _ _ _ _ _ _ _ _
                  Hm Hpack) as Hmono.
    assert (Hn1' : 0 <= n1 < 65536) by lia.
    assert (Hm1 : 0 <= m1) by lia.
    pose proof (nv12_A_loop_mono _ _ _ _ _ _ Hn1' _ _ _ _ _ Hm1 E)
      as Hmono'.
    rewrite (nv12_A_pack_bound o w a area _ n1 n2 ltac:(lia) Hn2
               (Z.to_nat n1) (Z.to_nat n2) _ _ _ _ _ _ _ _ Hm
               ltac:(lia) ltac:(lia) Hpack ltac:(lia)).
    apply IH; [lia|exact E|exact Hlt].
  - intros E Hlt. exact E.
Qed.

Lemma nv12_A_count_max (o w a j n : Z) :
  1 <= j <= 6 -> a = 2 ^ j -> 0 <= o < a -> 0 < w -> 0 <= n < 65536 ->
  exists m p,
    nv12_A o w a n = Some (m, 64, p)
    /\ 0 <= m <= n /\ m <= MAX_A /\ Z.of_nat (length p) = 2 * m.
Proof.
  intros Hj Ha Ho Hw Hn.
  pose proof (a_range a j ltac:(lia) Ha) as Har.
  destruct (nv12_A_contained o w a j n ltac:(lia) Ha ltac:(lia) Hw Hn)
    as (m & p & HA & Hm & _ & Hlen).
  exists m, p. split; [exact HA|]. split; [exact Hm|]. split; [|exact Hlen].
  unfold MAX_A.
  destruct (Z.le_gt_cases n 21) as [Hsmall|Hbig]; [lia|].
  destruct (Z.le_gt_cases 64 w) as [Hwide|Hnarrow].
  - revert HA. unfold nv12_A. change (u16 band_8) with 64.
    cbn [nv12_A_loop].
    destruct (Z.ltb_spec (o + w) 64) as [|_]; [lia|]. cbn [andb bind].
    intros E. inversion E. lia.
  - pose proof (nv12_A_within_22 o w a j Hj Ha Ho ltac:(lia)) as Hchk.
    unfold nv12_A_within, MAX_A in Hchk.
    destruct (nv12_A o w a 22) as [[[m22 ar22] p22]|] eqn:H22;
      [|discriminate].
    apply Z.leb_le in Hchk.
    revert H22 HA. unfold nv12_A. change (u16 band_8) with 64.
    destruct (nv12_A_loop _ o w a 64 22 o 0 []) as [[m1 p1]|] eqn:Hl22;
      cbn [bind]; [|discriminate].
    intros E. inversion E. subst m1 ar22 p1.
    rewrite (nv12_A_loop_bound o w a 64 22 n _ ltac:(lia) ltac:(lia)
               o 0 [] m22 p22 ltac:(lia) Hl22 ltac:(lia)).
    cbn [bind]. intros E'. inversion E'. lia.
Qed.

Lemma nv12_revA_count_max (o w a j n : Z) :
  1 <= j <= 6 -> a = 2 ^ j -> 0 <= o < a -> 0 < w -> 0 <= n < 65536 ->
  exists m p,
    nv12_revA o w a n = Some (m, 64, p)
    /\ 0 <= m <= n /\ m <= MAX_A /\ Z.of_nat (length p) = 2 * m.
Proof.
  intros Hj Ha Ho Hw Hn.
  pose proof (a_range a j ltac:(lia) Ha) as Har.
  pose proof (rem_range (o + w) a ltac:(lia) ltac:(lia)) as Hr1.
  pose proof (rem_range (a - Z.rem (o + w) a) a ltac:(lia) ltac:(lia))
    as Hr2.
  destruct (nv12_A_count_max (Z.rem (a - Z.rem (o + w) a) a) w a j n
              Hj Ha Hr2 ltac:(lia) Hn)
    as (m & p & HA & Hm & Hmax & Hlen).
  destruct (nv12_revA_contained o w a j n ltac:(lia) Ha ltac:(lia)
              ltac:(lia) Hn) as (m' & p' & HR & Hm' & _ & Hlen').
  exists m', p'. split; [exact HR|]. split; [exact Hm'|].
  split; [|exact Hlen'].
  revert HR. unfold nv12_revA, irem.
  destruct (Z.eqb_spec a 0) as [E|_]; [lia|]. cbn [bind].
  rewrite (u16_small (Z.rem (a - Z.rem (o + w) a) a)) by lia.
  rewrite HA. cbn [bind]. rewrite (u16_small m) by lia.
  intros E. inversion E. subst m'. exact Hmax.
Qed.

(** The test of generator B does not pass for an alignment below 8. *)
Lemma nv12_B_test_small (o w a : Z) :
  a = 2 \/ a = 4 -> 0 <= o < a -> 0 < w -> nv12_B_test o w a = false.
Proof.
  intros Ha Ho Hw. unfold nv12_B_test.
  destruct (Z.ltb_spec w a) as [Hwa|]; [|reflexivity].
  assert (Eo : o = 0 \/ o = 1 \/ o = 2 \/ o = 3) by lia.
  assert (Ew : w = 1 \/ w = 2 \/ w = 3) by lia.
  destruct Ha as [->| ->];
    repeat (destruct Eo as [->|Eo]); try subst o; try lia;
    repeat (destruct Ew as [->|Ew]); try subst w; try lia;
    reflexivity.
Qed.

Lemma nv12_B_loop_max (w a n : Z) (fuel : nat) :
  8 <= a <= 32768 -> 0 < w -> 0 <= n < 65536 ->
  forall o x m p,
    0 <= o -> x = o + m * a -> 0 <= m <= 8 ->
    0 <= fst (nv12_B_loop fuel w a 64 n x m p) <= 8.
Proof.
  intros Ha Hw Hn. induction fuel as [|fuel IH]; intros o x m p Ho Hx Hm;
    cbn [nv12_B_loop]; [exact Hm|].
  destruct (Z.leb_spec (x + w) 64) as [Hroom|Hfull]; cbn [andb];
    [|exact Hm].
  destruct (Z.ltb_spec m n) as [Hmn|Hmn]; [|exact Hm].
  assert (Hm7 : m <= 7) by nia.
  rewrite (u16_small (m + 1)), (u16_small (x + a)) by lia.
  apply (IH o); [exact Ho|lia|lia].
Qed.

Lemma nv12_B_count_max (o w a j n : Z) :
  1 <= j <= 6 -> a = 2 ^ j -> 0 <= o < a -> 0 < w -> 0 <= n < 65536 ->
  exists m p,
    nv12_B o w a n = Some (m, 64, p)
    /\ 0 <= m <= n /\ m <= MAX_B /\ Z.of_nat (length p) = 2 * m.
Proof.
  intros Hj Ha Ho Hw Hn.
  pose proof (a_range a j ltac:(lia) Ha) as Har.
  destruct (nv12_B_contained o w a j n ltac:(lia) Ha ltac:(lia) Hw Hn)
    as (m & p & HB & Hm & _ & Hlen).
  exists m, p. split; [exact HB|]. split; [exact Hm|]. split; [|exact Hlen].
  unfold MAX_B. revert HB. unfold nv12_B, irem.
  destruct (Z.eqb_spec a 0) as [E|_]; [lia|]. cbn [bind].
  fold (nv12_B_test o w a).
  destruct (nv12_B_test o w a) eqn:Htest; [|intros E; inversion E; lia].
  assert (Ha8 : 8 <= a).
  { destruct (Z.le_gt_cases 8 a) as [|Hsmall]; [assumption|].
    assert (E : j = 1 \/ j = 2) .
    { destruct (Z.le_gt_cases j 2) as [|Hj3]; [lia|].
      assert (2 ^ 3 <= 2 ^ j) by (apply Z.pow_le_mono_r; lia).
      change (2 ^ 3) with 8 in *. lia. }
    rewrite (nv12_B_test_small o w a) in Htest; [discriminate| |lia|lia].
    destruct E as [->| ->]; [left|right]; exact Ha. }
  change (u16 band_8) with 64.
  pose proof (nv12_B_loop_max w a n (Z.to_nat n) ltac:(lia) Hw Hn o o 0 []
                ltac:(lia) ltac:(lia) ltac:(lia)) as Hmax.
  destruct (nv12_B_loop _ _ _ _ _ _ _ _) as [m' p']. cbn [fst] in Hmax.
  intros E. inversion E. lia.
Qed.

(** The loop of generator C stores at most two pairs a round, and
    counts two. *)
Lemma nv12_C_loop_max (o w e area o2 n m : Z) (fuel : nat) :
  forall i jj p,
    0 <= i -> m <= 65535 -> 0 <= jj ->
    let r := nv12_C_loop fuel o w e area o2 n m i jj p in
    0 <= fst r <= jj + 2 * Z.max 0 (m - i)
    /\ Z.of_nat (length (snd r))
       <= Z.of_nat (length p) + 4 * Z.max 0 (m - i).
Proof.
  induction fuel as [|fuel IH]; intros i jj p Hi Hm Hjj;
    cbn [nv12_C_loop]; [cbn [fst snd]; lia|].
  destruct (Z.ltb_spec i m) as [Him|Him]; cbn [andb];
    [|cbn [fst snd]; lia].
  destruct (jj <? n); [|cbn [fst snd]; lia].
  rewrite (u16_small (i + 1)) by lia.
  pose proof (u16_le (jj + 1) ltac:(lia)) as Hj1.
  pose proof (u16_le (u16 (jj + 1) + 1) ltac:(lia)) as Hj2.
  match goal with
  | |- context [nv12_C_loop fuel _ _ _ _ _ _ _ _ _ ?q] =>
    specialize (IH (i + 1) (u16 (u16 (jj + 1) + 1)) q ltac:(lia) Hm
                  ltac:(lia));
    assert (Hq : Z.of_nat (length q) <= Z.of_nat (length p) + 4)
  end.
  { destruct (u16 (jj + 1) <? n); rewrite !length_app; cbn [length]; lia. }
  cbv zeta in IH. destruct IH as [IH1 IH2]. split; lia.
Qed.

Lemma nv12_C_count_max (o w a j n : Z) :
  1 <= j <= 6 -> a = 2 ^ j -> 0 <= o < a -> 0 < w < 32768 ->
  exists c p,
    nv12_C o w a n = Some (c, 64, p)
    /\ 0 <= c <= MAX_C /\ Z.of_nat (length p) <= 2 * MAX_C.
Proof.
  intros Hj Ha Ho Hw.
  pose proof (a_range a j ltac:(lia) Ha) as Har.
  assert (Ha64 : a <= 64).
  { rewrite Ha. change 64 with (2 ^ 6). apply Z.pow_le_mono_r; lia. }
  pose proof (ALIGN_bounds a j ltac:(lia) Ha w) as Hal.
  pose proof (ALIGN_mult a j ltac:(lia) Ha w) as Hmul.
  pose proof (pow2_even a j ltac:(lia) Ha) as Heven.
  assert (H2 : 2 <= a).
  { rewrite Heven. assert (0 < 2 ^ (j - 1)) by (apply Z.pow_pos_nonneg; lia).
    lia. }
  pose proof (rem_range (o + w) a ltac:(lia) ltac:(lia)) as Hr1.
  pose proof (rem_range (a - Z.rem (o + w) a) a ltac:(lia) ltac:(lia)) as Hr2.
  unfold nv12_C, irem, idiv, MAX_C.
  destruct (Z.eqb_spec a 0) as [E|_]; [lia|]. cbn [bind].
  rewrite (u16_small (ALIGN w a)) by lia.
  destruct (Z.eqb_spec (ALIGN w a) 0) as [E|_]; [lia|]. cbn [bind].
  change (u16 band_8) with 64.
  set (r2 := Z.rem (a - Z.rem (o + w) a) a) in *.
  rewrite (u16_small (64 - r2)) by lia.
  set (e := ALIGN w a) in *.
  set (M := Z.min (64 - r2 - 2 * o) (2 * (64 - r2) - o - 64)).
  assert (Hq : Z.quot (Z.quot M 3 - w) e <= 9).
  { assert (HM : M <= 64) by (subst M; lia).
    assert (HM3 : Z.quot M 3 <= 21).
    { change 21 with (Z.quot 64 3). apply Z.quot_le_mono; lia. }
    assert (He : a <= e).
    { set (k := (w + (a - 1)) / a) in *.
      assert (Hk : 1 <= k).
      { destruct (Z.le_gt_cases 1 k) as [|Hk0]; [assumption|].
        assert (a * k <= a * 0) by (apply Z.mul_le_mono_nonneg_l; lia).
        lia. }
      assert (a * 1 <= a * k) by (apply Z.mul_le_mono_nonneg_l; lia).
      lia. }
    destruct (Z.le_gt_cases 0 (Z.quot M 3 - w)) as [Hpos|Hneg].
    - assert (Hlt : Z.quot (Z.quot M 3 - w) e < 10); [|lia].
      apply Z.quot_lt_upper_bound; [lia|lia|].
      destruct (Z.eq_dec (Z.quot M 3) 21) as [E21|Hne]; [|lia].
      assert (HM63 : 63 <= M).
      { destruct (Z.le_gt_cases 63 M) as [|Hlt]; [assumption|].
        assert (Z.quot M 3 <= Z.quot 62 3) by (apply Z.quot_le_mono; lia).
        change (Z.quot 62 3) with 20 in *.
        lia. }
      assert (Hr0 : r2 = 0 /\ o = 0) by (subst M; lia).
      destruct Hr0 as [Hr0 Ho0].
      assert (Hwa : w mod a = 0).
      { subst r2. rewrite Ho0 in Hr0. cbn [Z.add] in Hr0.
        pose proof (rem_range w a ltac:(lia) ltac:(lia)) as Hrw.
        rewrite (Z.rem_mod_nonneg (a - Z.rem w a) a) in Hr0 by lia.
        rewrite (Z.rem_mod_nonneg w a) in Hr0, Hrw by lia.
        destruct (Z.eq_dec (w mod a) 0) as [|Hnz]; [assumption|].
        rewrite Z.mod_small in Hr0 by lia. lia. }
      apply Z.mod_divide in Hwa; [|lia]. destruct Hwa as [c Hc].
      assert (2 <= w) by nia. lia.
    - assert (Hle : Z.quot (Z.quot M 3 - w) e <= 0); [|lia].
      apply Z.quot_le_upper_bound; lia. }
  set (q := Z.quot (Z.quot M 3 - w) e) in *.
  pose proof (nv12_C_loop_max o w e 64 (64 - r2) n (q + 1)
                (Z.to_nat (q + 1)) 0 0 [] ltac:(lia) ltac:(lia) ltac:(lia))
    as Hmax.
  cbv zeta in Hmax.
  destruct (nv12_C_loop _ _ _ _ _ _ _ _ _ _ _) as [c p].
  cbn [fst snd length] in Hmax.
  exists c, p. split; [reflexivity|]. lia.
Qed.

(** X20.  For a valid request no generator stores more pairs than its
    array in [nv12_together] holds: A and reverse-A at most [MAX_A],
    B at most [MAX_B], C at most [MAX_C] (its count is within that,
    too), D at most [MAX_D]. *)
Theorem generators_within_arrays (o w a j n : Z) :
  1 <= j <= 6 -> a = 2 ^ j -> 0 <= o < a -> 0 < w < 32768 ->
  0 <= n < 65536 ->
  (exists m p,
     nv12_A o w a n = Some (m, 64, p)
     /\ m <= MAX_A /\ Z.of_nat (length p) = 2 * m)
  /\ (exists m p,
        nv12_revA o w a n = Some (m, 64, p)
        /\ m <= MAX_A /\ Z.of_nat (length p) = 2 * m)
  /\ (exists m p,
        nv12_B o w a n = Some (m, 64, p)
        /\ m <= MAX_B /\ Z.of_nat (length p) = 2 * m)
  /\ (exists c p,
        nv12_C o w a n = Some (c, 64, p)
        /\ c <= MAX_C /\ Z.of_nat (length p) <= 2 * MAX_C)
  /\ (exists m area p,
        nv12_D o w a n = Some (m, area, p)
        /\ m <= MAX_D /\ Z.of_nat (length p) = 2 * m).
Proof.
  intros Hj Ha Ho Hw Hn.
  pose proof (a_range a j ltac:(lia) Ha) as Har.
  split; [|split; [|split; [|split]]].
  - destruct (nv12_A_count_max o w a j n Hj Ha Ho ltac:(lia) Hn)
      as (m & p & H & _ & Hmax & Hlen).
    exists m, p. repeat split; assumption.
  - destruct (nv12_revA_count_max o w a j n Hj Ha Ho ltac:(lia) Hn)
      as (m & p & H & _ & Hmax & Hlen).
    exists m, p. repeat split; assumption.
  - destruct (nv12_B_count_max o w a j n Hj Ha Ho ltac:(lia) Hn)
      as (m & p & H & _ & Hmax & Hlen).
    exists m, p. repeat split; assumption.
  - destruct (nv12_C_count_max o w a j n Hj Ha Ho Hw)
      as (c & p & H & Hc & Hlen).
    exists c, p. repeat split; try assumption; lia.
  - destruct (nv12_D_contained o w a j n ltac:(lia) Ha ltac:(lia) ltac:(lia))
      as (m & area & p & H & Hm & _ & _ & Hlen).
    exists m, area, p. unfold MAX_D. repeat split; try assumption; lia.
Qed.

Lemma generators_within_arrays_witness :
  (exists m p,
     nv12_A 0 1 2 100 = Some (m, 64, p)
     /\ m <= MAX_A /\ Z.of_nat (length p) = 2 * m)
  /\ (exists m p,
        nv12_revA 0 1 2 100 = Some (m, 64, p)
        /\ m <= MAX_A /\ Z.of_nat (length p) = 2 * m)
  /\ (exists m p,
        nv12_B 0 1 2 100 = Some (m, 64, p)
        /\ m <= MAX_B /\ Z.of_nat (length p) = 2 * m)
  /\ (exists c p,
        nv12_C 0 1 2 100 = Some (c, 64, p)
        /\ c <= MAX_C /\ Z.of_nat (length p) <= 2 * MAX_C)
  /\ (exists m area p,
        nv12_D 0 1 2 100 = Some (m, area, p)
        /\ m <= MAX_D /\ Z.of_nat (length p) = 2 * m).
Proof.
  apply (generators_within_arrays 0 1 2 1 100); first [reflexivity|lia].
Defined.

(** ** The result of [nv12_together] fits [packing] *)

Lemma better_within (n : Z) (cur cand : candidate) :
  within_packing cur -> within_packing cand ->
  within_packing (better n cur cand).
Proof.
  intros H1 H2. unfold better.
  destruct ((cand_count cur <? n) && (cand_count cur <? cand_count cand));
    assumption.
Qed.

Lemma table_pick_within (o w a n : Z) (cur : candidate) :
  0 <= n -> within_packing cur ->
  within_packing (table_pick o w a n specials cur).
Proof.
  intros Hn H. unfold specials. cbn [table_pick sp_n sp_area sp_pairs].
  destruct (9 <? cand_count cur); [exact H|].
  destruct (compatible o w a _).
  { unfold within_packing, MAX_A. cbn [cand_count cand_buffer fst snd length].
    lia. }
  destruct (3 <? cand_count cur); [exact H|].
  destruct (compatible o w a _).
  { unfold within_packing, MAX_A. cbn [cand_count cand_buffer fst snd length].
    lia. }
  exact H.
Qed.

Lemma generated_within (stack : list Z) (m ar : Z) (p : list Z) :
  0 <= m <= MAX_A -> 2 * MAX_A <= Z.of_nat (length stack) ->
  within_packing (generated stack (m, ar, p)).
Proof.
  unfold MAX_A. intros Hm Hst.
  unfold within_packing, generated, cand_count, cand_buffer, local_array.
  cbn [fst snd]. rewrite u16_small by lia. split; [exact Hm|].
  rewrite length_app, length_skipn. unfold MAX_A. lia.
Qed.

Lemma memcpy_length (dst src : list Z) (len : Z) :
  0 <= len <= Z.of_nat (length src) -> len <= Z.of_nat (length dst) ->
  length (memcpy dst src len) = length dst.
Proof.
  intros Hs Hd. unfold memcpy.
  rewrite length_app, length_firstn, length_skipn. lia.
Qed.

Lemma nv12_together_fits (stack : list Z) (o w a j n area : Z)
    (packing : list Z) :
  1 <= j <= 6 -> a = 2 ^ j -> 0 <= o < a -> 0 < w < 32768 ->
  0 <= n < 65536 ->
  2 * MAX_A <= Z.of_nat (length stack) ->
  2 * MAX_A <= Z.of_nat (length packing) ->
  exists c ar pk,
    nv12_together stack o w a n area packing = Some (c, ar, pk)
    /\ 0 <= c <= MAX_A /\ length pk = length packing.
Proof.
  intros Hj Ha Ho Hw Hn Hst Hpk.
  pose proof (a_range a j ltac:(lia) Ha) as Har.
  destruct (nv12_A_count_max o w a j n Hj Ha Ho ltac:(lia) Hn)
    as (mA & pA & HA & HmA & HxA & _).
  destruct (nv12_revA_count_max o w a j n Hj Ha Ho ltac:(lia) Hn)
    as (mR & pR & HR & HmR & HxR & _).
  destruct (nv12_B_count_max o w a j n Hj Ha Ho ltac:(lia) Hn)
    as (mB & pB & HB & HmB & HxB & _).
  destruct (nv12_C_count_max o w a j n Hj Ha Ho Hw)
    as (mC & pC & HC & HmC & _).
  destruct (nv12_D_contained o w a j n ltac:(lia) Ha ltac:(lia) ltac:(lia))
    as (mD & arD & pD & HD & HmD & _).
  rewrite (nv12_together_rule stack o w a n area packing
             (mA, 64, pA) (mR, 64, pR) (mB, 64, pB) (mC, 64, pC)
             (mD, arD, pD)); try assumption; try lia;
    try (intros _; assumption).
  set (c5 := table_pick o w a n specials _).
  assert (H5 : within_packing c5).
  { apply table_pick_within; [lia|]. repeat apply better_within;
      apply generated_within; unfold MAX_A, MAX_B, MAX_C in *;
      try assumption; lia. }
  destruct H5 as [Hc5 Hb5]. unfold MAX_A in *.
  unfold together_result. cbn [fst snd].
  destruct (Z.eqb_spec (cand_count c5) 0) as [Hz|Hnz].
  - exists (u16 mD), arD, packing. rewrite (u16_small mD) by lia.
    split; [reflexivity|]. split; [lia|reflexivity].
  - destruct (cand_buffer c5) as [src|];
      eexists; eexists; eexists; (split; [reflexivity|]);
      (split; [exact Hc5|]); [|reflexivity].
    apply memcpy_length; lia.
Qed.

(** X21.  For a valid request, [packing] with room for [MAX_A] pairs
    (as [reserve_nv12] passes) and generator arrays of at least that
    size, [nv12_together] returns a count of at most [MAX_A] and the
    copy into [packing] stays inside it: [packing] keeps its length. *)
Theorem nv12_together_within_packing (stack : list Z) (o w a j n area : Z)
    (packing : list Z) :
  1 <= j <= 6 -> a = 2 ^ j -> 0 <= o < a -> 0 < w < 32768 ->
  0 <= n < 65536 ->
  2 * MAX_A <= Z.of_nat (length stack) ->
  2 * MAX_A <= Z.of_nat (length packing) ->
  exists c ar pk,
    nv12_together stack o w a n area packing = Some (c, ar, pk)
    /\ 0 <= c <= MAX_A /\ length pk = length packing.
Proof.
  intros Hj Ha Ho Hw Hn Hst Hpk.
  apply (nv12_together_fits stack o w a j n); assumption.
Qed.

Lemma nv12_together_within_packing_witness :
  exists c ar pk,
    nv12_together (repeat 0 42) 0 1 2 100 0 (repeat 0 42) = Some (c, ar, pk)
    /\ 0 <= c <= MAX_A /\ length pk = length (repeat 0 42).
Proof.
  apply (nv12_together_within_packing (repeat 0 42) 0 1 2 1 100 0
           (repeat 0 42));
    first [reflexivity | lia | cbn; unfold MAX_A; lia].
Defined.

(** ** Widths for which packing together always places a pair *)

(** Generator A places its first pair when the 8-bit block ends at or
    before the middle of what is left of the area. *)
Lemma nv12_A_first (o w a j n : Z) :
  1 <= j <= 6 -> a = 2 ^ j -> 0 <= o < a -> 0 < w -> 1 <= n < 65536 ->
  o + 2 * w <= 64 ->
  exists m p, nv12_A o w a n = Some (m, 64, p) /\ 1 <= m <= n.
Proof.
  intros Hj Ha Ho Hw Hn Hfit.
  destruct (nv12_A_count_max o w a j n Hj Ha Ho Hw ltac:(lia))
    as (m & p & HA & Hm & _).
  exists m, p. split; [exact HA|]. split; [|lia].
  revert HA. unfold nv12_A. change (u16 band_8) with 64.
  cbn [nv12_A_loop].
  destruct (Z.ltb_spec (o + w) 64) as [_|]; [|lia].
  destruct (Z.ltb_spec 0 n) as [_|]; [|lia]. cbn [andb].
  assert (Hu : u16 (Z.shiftr (64 + o) 1) = (64 + o) / 2).
  { rewrite Z.shiftr_div_pow2 by lia. change (2 ^ 1) with 2.
    apply u16_small. Z.div_mod_to_equations. lia. }
  rewrite Hu.
  replace (Z.to_nat n) with (S (Z.to_nat (n - 1))) by lia.
  cbn [nv12_A_pack].
  destruct (Z.leb_spec (o + w) ((64 + o) / 2)) as [_|Hno];
    [|revert Hno; Z.div_mod_to_equations; lia].
  destruct (Z.ltb_spec 0 n) as [_|]; [|lia]. cbn [andb].
  change (u16 (0 + 1)) with 1.
  destruct (nv12_A_pack _ _ _ _ _ _ _ _ _ _ _) as [[[x1 l1] m1] p1] eqn:Hpack.
  apply nv12_A_pack_mono in Hpack; [|lia|lia].
  destruct (nv12_A_loop _ _ _ _ _ _ _ _ _) as [[m2 p2]|] eqn:Hloop;
    cbn [bind]; [|discriminate].
  apply nv12_A_loop_mono in Hloop; [|lia|lia].
  intros E. inversion E. lia.
Qed.

Lemma better_count_ge (n : Z) (cur cand : candidate) :
  cand_count cur <= cand_count (better n cur cand).
Proof.
  unfold better.
  destruct (cand_count cur <? n); cbn [andb]; [|lia].
  destruct (Z.ltb_spec (cand_count cur) (cand_count cand)); lia.
Qed.

Lemma table_pick_count_pos (o w a n : Z) (cur : candidate) :
  1 <= n -> 1 <= cand_count cur ->
  1 <= cand_count (table_pick o w a n specials cur).
Proof.
  intros Hn H. unfold specials. cbn [table_pick sp_n sp_area sp_pairs].
  destruct (9 <? cand_count cur); [exact H|].
  destruct (compatible o w a _); [cbn [cand_count fst]; lia|].
  destruct (3 <? cand_count cur); [exact H|].
  destruct (compatible o w a _); [cbn [cand_count fst]; lia|].
  exact H.
Qed.

Lemma nv12_together_places (stack : list Z) (o w a j n area : Z)
    (packing : list Z) :
  1 <= j <= 6 -> a = 2 ^ j -> 0 <= o < a -> 0 < w -> 1 <= n < 65536 ->
  o + 2 * w <= 64 ->
  exists c ar pk,
    nv12_together stack o w a n area packing = Some (c, ar, pk) /\ 1 <= c.
Proof.
  intros Hj Ha Ho Hw Hn Hfit.
  pose proof (a_range a j ltac:(lia) Ha) as Har.
  destruct (nv12_A_first o w a j n Hj Ha Ho Hw Hn Hfit)
    as (mA & pA & HA & HmA).
  destruct (nv12_revA_count_max o w a j n Hj Ha Ho Hw ltac:(lia))
    as (mR & pR & HR & _).
  destruct (nv12_B_count_max o w a j n Hj Ha Ho Hw ltac:(lia))
    as (mB & pB & HB & _).
  destruct (nv12_C_count_max o w a j n Hj Ha Ho ltac:(lia))
    as (mC & pC & HC & _).
  destruct (nv12_D_contained o w a j n ltac:(lia) Ha ltac:(lia) ltac:(lia))
    as (mD & arD & pD & HD & _).
  rewrite (nv12_together_rule stack o w a n area packing
             (mA, 64, pA) (mR, 64, pR) (mB, 64, pB) (mC, 64, pC)
             (mD, arD, pD)); try assumption; try lia;
    try (intros _; assumption).
  set (c1 := generated stack (mA, 64, pA)).
  set (c2 := better n c1 _). set (c3 := better n c2 _).
  set (c4 := better n c3 _). set (c5 := table_pick o w a n specials c4).
  assert (H1 : 1 <= cand_count c1).
  { subst c1. unfold generated, cand_count. cbn [fst].
    rewrite u16_small by lia. lia. }
  pose proof (better_count_ge n c1 (generated stack (mR, 64, pR))) as H2.
  pose proof (better_count_ge n c2 (generated stack (mB, 64, pB))) as H3.
  pose proof (better_count_ge n c3 (generated stack (mC, 64, pC))) as H4.
  fold c2 in H2. fold c3 in H3. fold c4 in H4.
  assert (H5 : 1 <= cand_count c5)
    by (apply table_pick_count_pos; lia).
  unfold together_result.
  destruct (Z.eqb_spec (cand_count c5) 0) as [Hz|_]; [lia|].
  destruct (cand_buffer c5) as [src|];
    eexists; eexists; eexists; (split; [reflexivity|exact H5]).
Qed.

(** X22.  A round of the loop of [reserve_nv12] cannot divide by zero
    for a buffer narrow enough that its 8-bit block ends at or before
    the middle of the room from its offset to the end of the 64-slot
    area ([o + 2 * w <= 64]): generator A then places a pair, so
    [nv12_together] returns a count of at least one and the round
    gives a result, whether packing together is allowed or not. *)
Theorem nv12_round_safe (St Blk : Type) (ops : tiler_ops St Blk)
    (stack : list Z) (can : bool) (n i w h band a o j : Z)
    (loc : nv12_locals) (s : world St Blk) :
  1 <= j <= 6 -> a = 2 ^ j -> 0 <= o < a -> 0 < w ->
  0 <= width ops <= 16384 ->
  Z.quot o 2 + Z.quot (w + 1) 2 <= width ops ->
  0 <= i < n -> n < 65535 ->
  o + 2 * w <= 64 ->
  (exists c ar pk,
     nv12_together stack o w a (n - i) (area_t loc) (packing loc)
     = Some (c, ar, pk) /\ 1 <= c)
  /\ exists res loc' s',
       nv12_round ops stack can n i w h band a o loc s
       = Some (res, loc', s').
Proof.
  intros Hj Ha Ho Hw HW Hhalf Hi Hn Hfit.
  destruct (nv12_together_places stack o w a j (n - i) (area_t loc)
              (packing loc) Hj Ha Ho Hw ltac:(lia) Hfit)
    as (c & ar & pk & Htog & Hc).
  split; [exists c, ar, pk; split; assumption|].
  destruct (nv12_round ops stack can n i w h band a o loc s)
    as [[[res loc'] s']|] eqn:E; [exists res, loc', s'; reflexivity|].
  apply (nv12_round_none St Blk ops stack can n i w h band a o j) in E;
    try assumption; [|lia].
  destruct E as [_ (ar0 & pk0 & E0)].
  rewrite Htog in E0. inversion E0. lia.
Qed.

Lemma nv12_round_safe_witness :
  let ops := demo_ops (8, 1, 64, 32, 2) (fun n => n) in
  (exists c ar pk,
     nv12_together [] 2 8 32 (1 - 0) (area_t no_locals) (packing no_locals)
     = Some (c, ar, pk) /\ 1 <= c)
  /\ exists res loc' s',
       nv12_round ops [] true 1 0 8 1 64 32 2 no_locals empty_world
       = Some (res, loc', s').
Proof.
  apply (nv12_round_safe unit Z (demo_ops (8, 1, 64, 32, 2) (fun n => n))
           [] true 1 0 8 1 64 32 2 5 no_locals empty_world);
    first [reflexivity|cbn; lia|lia].
Defined.

(** ** Termination of [reserve_nv12] *)











